(** * Hybrid retrieval and ranking engine of the tender knowledge base

  A shallow embedding of the retrieval core (vector store client, BM25
  index manager, Neo4j chain store, score fusion and the [chat_stream]
  orchestrator) together with the properties stated for it, and of the
  code around it: the lexical search, the retriever, the ingestion
  pipeline with its page estimate and table renderer, the file registry of
  the scope selector and the chapter loop of the document workshop.

  Conventions.  Python [str] is [string]; a metadata [dict] is a
  [gmap string string]; a [set] of strings is a [gset string]; a [dict]
  whose iteration order is observable is an insertion-ordered association
  list; floating point scores are rationals ([Q]), i.e. the arithmetic is
  the exact one that the floating point code approximates.  External
  services (Chroma, Neo4j, the embedding model, rank_bm25, the LLM) are
  parameters of the functions that call them. *)

From Stdlib Require Import QArith Qminmax Qround Lia Lqa.
From stdpp Require Import gmap strings list fin_maps pretty sorting.

Local Open Scope string_scope.
Local Open Scope list_scope.
Local Open Scope stdpp_scope.
Local Open Scope nat_scope.

(** ** Python idioms shared by all modules *)

Module Py.

(** The outcome of a call that may raise. *)
Inductive Exc (A : Type) : Type :=
| Ok (a : A)
| Raise (msg : string).
Global Arguments Ok {A} a.
Global Arguments Raise {A} msg.

(** [bool(s)] for a string, and for the result of [dict.get]. *)
Definition truthy (s : string) : bool := negb (bool_decide (s = "")).

Definition truthy_get (o : option string) : option string :=
  match o with
  | Some s => if truthy s then Some s else None
  | None => None
  end.

(** [l[:k]] for an integer [k] of either sign. *)
Definition slice_to {A : Type} (l : list A) (k : Z) : list A :=
  if (0 <=? k)%Z then take (Z.to_nat k) l
  else take (length l - Z.to_nat (- k)) l.

End Py.

(** ** LangChain documents *)

Record Document := mkDocument {
  page_content : string;
  metadata : gmap string string
}.

Global Instance Document_eq_dec : EqDecision Document.
Proof. solve_decision. Defined.

(** [d.metadata["source_method"] = tag] *)
Definition set_source_method (tag : string) (d : Document) : Document :=
  {| page_content := page_content d;
     metadata := <["source_method" := tag]> (metadata d) |}.

(** ** Candidate fusion and de-duplication (rag_service.py, step 3.4) *)

Module Fusion.

(** The loop runs over the objects of [bm25_docs + vector_docs] and
    mutates the metadata of the ones it keeps.  [bm25_docs] records the
    current contents of the objects of the lexical list, which the test
    [d in bm25_docs] reads. *)
Record FuseState := mkFuse {
  bm25_docs : list Document;
  unique_ids : gset string;
  initial_docs : list Document
}.

(** ["BM25" if d in bm25_docs else "Vector"]: Python's [in] succeeds on
    identity or on equality with an element. *)
Definition provenance (same_object : bool) (d : Document)
    (bm25_now : list Document) : string :=
  if same_object || bool_decide (d ∈ bm25_now) then "BM25" else "Vector".

(** Tag [d], append it, remember its key.  [slot] is the position of the
    object in [bm25_docs] when [d] is one of them. *)
Definition keep (slot : option nat) (st : FuseState) (d : Document)
    (key : string) : FuseState :=
  let tagged :=
    set_source_method (provenance (bool_decide (is_Some slot)) d (bm25_docs st)) d in
  {| bm25_docs := match slot with
                  | Some i => <[i := tagged]> (bm25_docs st)
                  | None => bm25_docs st
                  end;
     unique_ids := unique_ids st ∪ {[ key ]};
     initial_docs := initial_docs st ++ [tagged] |}.

(** One iteration of the loop body. *)
Definition visit (slot : option nat) (st : FuseState) (d : Document) : FuseState :=
  match Py.truthy_get (metadata d !! "chunk_id") with
  | Some cid =>
      if bool_decide (cid ∈ unique_ids st) then st else keep slot st d cid
  | None =>
      if bool_decide (page_content d ∈ unique_ids st) then st
      else keep slot st d (page_content d)
  end.

Definition visit_bm25 (st : FuseState) (i : nat) : FuseState :=
  match bm25_docs st !! i with
  | Some d => visit (Some i) st d
  | None => st
  end.

Definition fuse_state (bm25 vector : list Document) : FuseState :=
  let st0 := {| bm25_docs := bm25; unique_ids := ∅; initial_docs := [] |} in
  let st1 := foldl visit_bm25 st0 (seq 0 (length bm25)) in
  foldl (visit None) st1 vector.

Definition fuse (bm25 vector : list Document) : list Document :=
  initial_docs (fuse_state bm25 vector).

(** The key the loop de-duplicates on. *)
Definition dedup_key (d : Document) : string :=
  match Py.truthy_get (metadata d !! "chunk_id") with
  | Some cid => cid
  | None => page_content d
  end.

(** First-seen-wins de-duplication, as a function on values. *)
Fixpoint first_seen (seen : gset string) (l : list Document) : list Document :=
  match l with
  | [] => []
  | d :: l' =>
      if bool_decide (dedup_key d ∈ seen) then first_seen seen l'
      else d :: first_seen (seen ∪ {[ dedup_key d ]}) l'
  end.

(** The contents of the lexical objects after the loop has visited them. *)
Fixpoint marked (seen : gset string) (l : list Document) : list Document :=
  match l with
  | [] => []
  | d :: l' =>
      if bool_decide (dedup_key d ∈ seen) then d :: marked seen l'
      else set_source_method "BM25" d :: marked (seen ∪ {[ dedup_key d ]}) l'
  end.

Definition keys (l : list Document) : gset string :=
  list_to_set (dedup_key <$> l).

End Fusion.

(** ** Knowledge graph store (utils/graph_manager.py)

    The Neo4j database holds [Chunk] nodes keyed by [id] and directed
    [NEXT] relationships; [MERGE] makes both sets. *)

Module Graph.

(** The properties [_create_chain_tx] sets on a [Chunk] node. *)
Record Node := mkNode {
  id : string;
  text : string;
  page : string;
  index : nat
}.

Global Instance Node_eq_dec : EqDecision Node.
Proof. solve_decision. Defined.

(** The chunk dictionaries handed to [create_document_structure]. *)
Record ChunkIn := mkChunkIn {
  content : string;
  in_page : string
}.

Record Db := mkDb {
  chunks : gmap string Node;
  next_rel : list (string * string)
}.

Definition empty_db : Db := {| chunks := ∅; next_rel := [] |}.

(** [MERGE (c:Chunk {id: $chunk_id}) SET c.text = .., c.page = .., c.index = ..] *)
Definition merge_chunk (n : Node) (db : Db) : Db :=
  {| chunks := <[id n := n]> (chunks db); next_rel := next_rel db |}.

(** [MATCH (prev:Chunk {id: $prev_id}), (curr:Chunk {id: $curr_id})
     MERGE (prev)-[:NEXT]->(curr)] *)
Definition merge_next (prev_id curr_id : string) (db : Db) : Db :=
  if bool_decide (is_Some (chunks db !! prev_id) ∧ is_Some (chunks db !! curr_id)) then
    if bool_decide ((prev_id, curr_id) ∈ next_rel db) then db
    else {| chunks := chunks db; next_rel := next_rel db ++ [(prev_id, curr_id)] |}
  else db.

(** One row of the result of [get_context_window], as [result.data()]
    gives it: [prev] and [next] are [None] when the OPTIONAL MATCH found
    nothing. *)
Record Row := mkRow {
  prev : option Node;
  target : Node;
  next : option Node
}.

Section Chain.

(** [str(uuid.uuid5(uuid.NAMESPACE_DNS, name))] *)
Variable uuid5 : string → string.

Definition chunk_id_of (filename : string) (i : nat) : string :=
  uuid5 (filename +:+ "_" +:+ pretty i).

(** The loop of [_create_chain_tx] from position [i] on; [prev_chunk_id]
    is the id written by the previous iteration. *)
Fixpoint create_chain_from (filename : string) (i : nat)
    (prev_chunk_id : option string) (cs : list ChunkIn) (db : Db) : Db :=
  match cs with
  | [] => db
  | c :: cs' =>
      let chunk_id := chunk_id_of filename i in
      let db1 := merge_chunk
        {| id := chunk_id; text := content c; page := in_page c; index := i |} db in
      let db2 := match Py.truthy_get prev_chunk_id with
                 | Some p => merge_next p chunk_id db1
                 | None => db1
                 end in
      create_chain_from filename (S i) (Some chunk_id) cs' db2
  end.

(** [create_document_structure]; the [Document] node plays no part in the
    window query and is not represented. *)
Definition create_document_structure (filename : string) (cs : list ChunkIn)
    (db : Db) : Db :=
  create_chain_from filename 0 None cs db.

End Chain.

(** Ends of the [NEXT] relationships leaving / entering a node. *)
Definition successors (db : Db) (x : string) : list string :=
  omap (λ e, if bool_decide (e.1 = x) then Some e.2 else None) (next_rel db).

Definition predecessors (db : Db) (x : string) : list string :=
  omap (λ e, if bool_decide (e.2 = x) then Some e.1 else None) (next_rel db).

(** [(x)-[:NEXT*1..k]->(y)]: the end nodes of the paths of one to [k]
    relationships from [x], one entry per path.  [used] holds the
    relationships already on the path: Cypher never walks a relationship
    twice within one match. *)
Fixpoint paths_forward (db : Db) (k : nat) (used : list (string * string))
    (x : string) : list string :=
  match k with
  | O => []
  | S k' =>
      flat_map (λ y, if bool_decide ((x, y) ∈ used) then []
                     else y :: paths_forward db k' ((x, y) :: used) y)
               (successors db x)
  end.

(** [(y)-[:NEXT*1..k]->(x)], walked from [x] against the direction. *)
Fixpoint paths_backward (db : Db) (k : nat) (used : list (string * string))
    (x : string) : list string :=
  match k with
  | O => []
  | S k' =>
      flat_map (λ y, if bool_decide ((y, x) ∈ used) then []
                     else y :: paths_backward db k' ((y, x) :: used) y)
               (predecessors db x)
  end.

(** The nodes bound by an OPTIONAL MATCH: the matches, or one null. *)
Definition optional_match (db : Db) (ends : list string) : list (option Node) :=
  match omap (λ y, chunks db !! y) ends with
  | [] => [None]
  | ns => Some <$> ns
  end.

(** [ORDER BY prev.index, next.index], ascending, null last, stable. *)
Definition index_le (a b : option Node) : bool :=
  match a, b with
  | _, None => true
  | None, Some _ => false
  | Some x, Some y => bool_decide (index x ≤ index y)
  end.

Definition row_le (a b : Row) : bool :=
  if index_le (prev a) (prev b) then
    if index_le (prev b) (prev a) then index_le (next a) (next b) else true
  else false.

Fixpoint insert_row (r : Row) (l : list Row) : list Row :=
  match l with
  | [] => [r]
  | x :: l' => if row_le r x then r :: l else x :: insert_row r l'
  end.

Definition order_rows (l : list Row) : list Row := foldr insert_row [] l.

(** [get_context_window(chunk_id, window_size)]:
    MATCH (target:Chunk {id: $chunk_id})
    OPTIONAL MATCH (prev:Chunk)-[:NEXT*1..w]->(target)
    OPTIONAL MATCH (target)-[:NEXT*1..w]->(next:Chunk)
    RETURN prev, target, next ORDER BY prev.index, next.index *)
Definition get_context_window (db : Db) (chunk_id : string) (window_size : nat)
    : list Row :=
  match chunks db !! chunk_id with
  | None => []
  | Some t =>
      order_rows
        (p ← optional_match db (paths_backward db window_size [] chunk_id);
         n ← optional_match db (paths_forward db window_size [] chunk_id);
         [ {| prev := p; target := t; next := n |} ])
  end.

(** The distinct preceding / following chunks named by the rows, each
    once, in the order in which the rows mention them last. *)
Definition prev_chunks (rows : list Row) : list Node :=
  remove_dups (omap prev rows).

Definition next_chunks (rows : list Row) : list Node :=
  remove_dups (omap next rows).

End Graph.

(** ** The chain written for one document, for stating the window result *)

Module ChainView.

(** The node that [_create_chain_tx] writes for the chunk at position [i]. *)
Definition node_of (uuid5 : string → string) (filename : string) (i : nat)
    (c : Graph.ChunkIn) : Graph.Node :=
  {| Graph.id := Graph.chunk_id_of uuid5 filename i;
     Graph.text := Graph.content c;
     Graph.page := Graph.in_page c;
     Graph.index := i |}.

(** The nodes of the chain, in chain order. *)
Definition chain_nodes (uuid5 : string → string) (filename : string)
    (cs : list Graph.ChunkIn) : list Graph.Node :=
  imap (node_of uuid5 filename) cs.

(** The [w] nodes before / after position [i], in chain order. *)
Definition before {A : Type} (i w : nat) (l : list A) : list A :=
  take (i `min` w) (drop (i - i `min` w) l).

Definition after {A : Type} (i w : nat) (l : list A) : list A :=
  take w (drop (S i) l).

(** The values an OPTIONAL MATCH variable takes over a list of matches. *)
Definition or_null {A : Type} (l : list A) : list (option A) :=
  match l with
  | [] => [None]
  | _ => Some <$> l
  end.

(** The order of ORDER BY as a relation. *)
Definition rows_le (a b : Graph.Row) : Prop := Graph.row_le a b = true.

Definition index_lt (a b : option Graph.Node) : Prop :=
  Graph.index_le a b = true ∧ Graph.index_le b a = false.

(** The rows of a window, from the bindings of [prev] and [next]. *)
Definition product (t : Graph.Node) (ps ns : list (option Graph.Node)) : list Graph.Row :=
  p ← ps; n ← ns; [ {| Graph.prev := p; Graph.target := t; Graph.next := n |} ].

(** [l] is a run of consecutive nodes of the chain [all]. *)
Definition stretch (all l : list Graph.Node) : Prop :=
  ∃ a, ∀ j x, l !! j = Some x → all !! (a + j) = Some x.

End ChainView.

(** ** Hybrid score fusion (retrieval/search_engine.py) *)

Module Hybrid.

(** The candidate dictionaries built by [TenderRetriever.search];
    [bm25_score] is the key added by [_apply_bm25_score]. *)
Record Candidate := mkCandidate {
  cand_id : string;
  content : string;
  metadata : gmap string string;
  score : Q;
  source_file : string;
  bm25_score : option Q
}.

(** [scores.any()] on the numpy array of BM25 scores. *)
Definition any_nonzero (scores : list Q) : bool :=
  existsb (λ s, negb (Qeq_bool s 0)) scores.

(** [max(scores)]; the array has one score per candidate and the
    candidate list is not empty where this is called. *)
Definition max_of (scores : list Q) : Q :=
  match scores with
  | [] => 0
  | s :: rest => foldl (λ m x, if Qle_bool x m then m else x) s rest
  end.

(** [max_bm25 = max(scores) if scores.any() else 1.0] *)
Definition max_bm25 (scores : list Q) : Q :=
  if any_nonzero scores then max_of scores else 1.

(** [bm25_norm = scores[i] / max_bm25 if max_bm25 > 0 else 0] *)
Definition bm25_norm (raw max : Q) : Q :=
  if Qlt_le_dec 0 max then raw / max else 0.

(** The body of the loop over [enumerate(candidates)]. *)
Definition rescore (max : Q) (doc : Candidate) (raw : Q) : Candidate :=
  {| cand_id := cand_id doc; content := content doc; metadata := metadata doc;
     score := score doc + bm25_norm raw max * (3 # 10);
     source_file := source_file doc;
     bm25_score := Some raw |}.

(** The loop; [scores[i]] raises IndexError past the end of the array. *)
Fixpoint rescore_all (max : Q) (i : nat) (scores : list Q)
    (candidates : list Candidate) : option (list Candidate) :=
  match candidates with
  | [] => Some []
  | doc :: rest =>
      raw ← scores !! i;
      rest' ← rescore_all max (S i) scores rest;
      Some (rescore max doc raw :: rest')
  end.

(** [candidates.sort(key=lambda x: x['score'], reverse=True)]: a stable
    sort, larger scores first, ties in their original order. *)
Fixpoint insert_desc (x : Candidate) (sorted : list Candidate) : list Candidate :=
  match sorted with
  | [] => [x]
  | y :: rest =>
      if Qle_bool (score x) (score y) then y :: insert_desc x rest
      else x :: sorted
  end.

Definition sort_by_score_desc (l : list Candidate) : list Candidate :=
  foldl (λ acc x, insert_desc x acc) [] l.

Section ApplyBm25.

(** [BM25Okapi(corpus).get_scores(tokenized_query)] for the query and the
    contents of the candidates, tokenised by jieba. *)
Variable get_scores : string → list string → list Q.

(** [TenderRetriever._apply_bm25_score]; [None] is an IndexError. *)
Definition apply_bm25_score (query : string) (candidates : list Candidate)
    : option (list Candidate) :=
  match candidates with
  | [] => Some []
  | _ =>
      let scores := get_scores query (content <$> candidates) in
      rescored ← rescore_all (max_bm25 scores) 0 scores candidates;
      Some (sort_by_score_desc rescored)
  end.

End ApplyBm25.

(** Larger combined scores first. *)
Definition score_ge (a b : Candidate) : Prop := (score b <= score a)%Q.

(** The normalised score in terms of the batch maximum: the quotient when
    the maximum is positive, 0 otherwise. *)
Definition batch_norm (raw : Q) (scores : list Q) : Q :=
  if Qlt_le_dec 0 (max_of scores) then raw / max_of scores else 0.

(** The normalisation as the specification words it: the raw score over
    the batch maximum, and 0 when that maximum is 0. *)
Definition spec_norm (raw : Q) (scores : list Q) : Q :=
  if Qeq_bool (max_of scores) 0 then 0 else raw / max_of scores.

End Hybrid.

(** ** Python strings as UTF-8: characters, not bytes *)

Module Utf8.

(** A byte that continues a character. *)
Definition continuation (c : Ascii.ascii) : bool :=
  bool_decide (128 ≤ Ascii.nat_of_ascii c < 192).

(** [len(s)]: the number of characters of [s]. *)
Fixpoint len (s : string) : nat :=
  match s with
  | EmptyString => 0
  | String c rest => if continuation c then len rest else S (len rest)
  end.

(** [s[:n]]: the first [n] characters of [s]. *)
Fixpoint take (n : nat) (s : string) : string :=
  match s with
  | EmptyString => EmptyString
  | String c rest =>
      if continuation c then String c (take n rest)
      else match n with
           | O => EmptyString
           | S n' => String c (take n' rest)
           end
  end.

End Utf8.

(** ** Vector store client (etl/vector_store.py) *)

Module VectorStore.

(** Values found in chunk metadata. *)
Inductive MetaValue :=
| MNone
| MStr (s : string)
| MInt (z : Z)
| MComposite (repr : string).  (* a list or a dict, with its [str()] *)

Global Instance MetaValue_eq_dec : EqDecision MetaValue.
Proof. solve_decision. Defined.

(** ingestion.tender_parser.IndexableChunk *)
Record IndexableChunk := mkChunk {
  content : string;
  metadata : gmap string MetaValue;
  chunk_id : string;
  parent_id : option string;
  is_parent : bool
}.

(** What the Chroma collection keeps under an id. *)
Record Stored (E : Type) := mkStored {
  document : string;
  stored_metadata : gmap string MetaValue;
  embedding : E
}.
Global Arguments mkStored {E} _ _ _.
Global Arguments document {E} _.
Global Arguments stored_metadata {E} _.
Global Arguments embedding {E} _.

(** [len(s)]: the number of characters of [s]. *)
Definition len (s : string) : nat := Utf8.len s.

(** [{c.chunk_id: c.content for c in chunks if c.is_parent}] *)
Definition parent_map (chunks : list IndexableChunk) : gmap string string :=
  foldl (λ m c, if is_parent c then <[chunk_id c := content c]> m else m) ∅ chunks.

(** [is_parent and len(chunk.content) > 800] *)
Definition skipped (chunk : IndexableChunk) : bool :=
  is_parent chunk && bool_decide (800 < len (content chunk)).

(** Parent/child fusion of the metadata copy. *)
Definition fused_meta (pm : gmap string string) (chunk : IndexableChunk)
    : gmap string MetaValue :=
  match Py.truthy_get (parent_id chunk) with
  | Some pid =>
      match pm !! pid with
      | Some ctx =>
          <["is_child" := MStr "True"]> (<["full_context" := MStr ctx]> (metadata chunk))
      | None =>
          <["is_child" := MStr "False"]>
            (<["full_context" := MStr (content chunk)]> (metadata chunk))
      end
  | None =>
      <["is_child" := MStr "False"]>
        (<["full_context" := MStr (content chunk)]> (metadata chunk))
  end.

(** The metadata cleaning loop. *)
Definition clean_value (v : MetaValue) : MetaValue :=
  match v with
  | MNone => MStr ""
  | MComposite repr => MStr repr
  | _ => v
  end.

Definition clean_meta (meta : gmap string MetaValue) : gmap string MetaValue :=
  clean_value <$> meta.

(** [range(0, n, step)] *)
Definition range_step (n step : nat) : list nat :=
  (λ q, q * step) <$> seq 0 ((n + step - 1) / step).

(** [l[i:j]] for [0 <= i <= j] *)
Definition slice {A : Type} (i j : nat) (l : list A) : list A :=
  take (j - i) (drop i l).

Section AddChunks.

Context {E : Type}.

(** [embedding_model.encode(texts, normalize_embeddings=True)], one vector
    per text. *)
Variable encode : string → E.

(** A row of the parallel lists [ids], [documents], [metadatas] and
    [embeddings], which the code extends and slices in lock step. *)
Definition Row : Type := string * Stored E.

(** The collection once the rows are written: it keeps one record per id
    and overwrites it. *)
Definition put_rows (rows : list Row) (coll : gmap string (Stored E))
    : gmap string (Stored E) :=
  foldl (λ c r, <[r.1 := r.2]> c) coll rows.

(** [collection.upsert(ids=.., documents=.., metadatas=.., embeddings=..)]:
    Chroma validates the call before it writes, and refuses one whose ids
    repeat. *)
Definition upsert (rows : list Row) (coll : gmap string (Stored E))
    : Py.Exc (gmap string (Stored E)) :=
  if bool_decide (NoDup rows.*1) then Py.Ok (put_rows rows coll)
  else Py.Raise "DuplicateIDError".

(** The batch loop over the calls [batches]: the collection when the loop
    is left, and the exception that left it, if any. *)
Fixpoint upsert_loop (batches : list (list Row)) (coll : gmap string (Stored E))
    : gmap string (Stored E) * Py.Exc unit :=
  match batches with
  | [] => (coll, Py.Ok tt)
  | batch :: rest =>
      match upsert batch coll with
      | Py.Ok coll' => upsert_loop rest coll'
      | Py.Raise e => (coll, Py.Raise e)
      end
  end.

(** The rows the loop over [chunks] collects. *)
Definition rows_of (chunks : list IndexableChunk) : list Row :=
  let pm := parent_map chunks in
  omap (λ chunk,
    if skipped chunk then None
    else Some (chunk_id chunk,
               {| document := content chunk;
                  stored_metadata := clean_meta (fused_meta pm chunk);
                  embedding := encode (content chunk) |}))
    chunks.

Definition batch_size : nat := 100.

(** [VectorStoreManager.add_chunks]: nothing catches the exception of an
    [upsert], so the batches written before it stay written. *)
Definition add_chunks (chunks : list IndexableChunk) (coll : gmap string (Stored E))
    : gmap string (Stored E) * Py.Exc unit :=
  match chunks with
  | [] => (coll, Py.Ok tt)
  | _ =>
      let rows := rows_of chunks in
      match rows with
      | [] => (coll, Py.Ok tt)
      | _ =>
          upsert_loop
            ((λ i, slice i (Nat.min (i + batch_size) (length rows)) rows)
             <$> range_step (length rows) batch_size)
            coll
      end
  end.

End AddChunks.

End VectorStore.

(** ** Lexical index manager (utils/bm25_manager.py) *)

Module BM25.

(** A corpus entry: [{'content': .., 'metadata': {..}}]. *)
Record Item := mkItem {
  content : string;
  metadata : gmap string string
}.

Global Instance Item_eq_dec : EqDecision Item.
Proof. solve_decision. Defined.

(** What a pickle file holds: the [BM25Okapi] object, which is a function
    of the tokenised corpus it was built from, or the corpus snapshot. *)
Inductive Pickle :=
| PModel (tokenized_corpus : list (list string))
| PData (full_data : list Item).

(** A file is complete, or has been opened with ['wb'] (truncated) and
    not yet closed: a reader finds no complete pickle in it. *)
Inductive File :=
| Whole (p : Pickle)
| Truncated.

Global Instance Pickle_eq_dec : EqDecision Pickle.
Proof. solve_decision. Defined.

Global Instance File_eq_dec : EqDecision File.
Proof. solve_decision. Defined.

(** The directory [index_dir], by path. *)
Abbreviation Fs := (gmap string File).

(** The file system calls a persistence step can make.  [Replace] is
    [os.replace(src, dst)], the rename that a write-to-temporary protocol
    ends with; it is part of the vocabulary so that both protocols can be
    told apart. *)
Inductive FsOp :=
| OpenWb (path : string)
| DumpClose (path : string) (p : Pickle)
| Replace (src dst : string).

Definition apply_op (fs : Fs) (op : FsOp) : Fs :=
  match op with
  | OpenWb path => <[path := Truncated]> fs
  | DumpClose path p => <[path := Whole p]> fs
  | Replace src dst =>
      match fs !! src with
      | Some f => <[dst := f]> (delete src fs)
      | None => fs
      end
  end.

Definition run (ops : list FsOp) (fs : Fs) : Fs := foldl apply_op fs ops.

(** Every state of the directory that a concurrent reader can find while
    [ops] execute, the initial and the final one included. *)
Fixpoint observable (ops : list FsOp) (fs : Fs) : list Fs :=
  match ops with
  | [] => [fs]
  | op :: ops' => fs :: observable ops' (apply_op fs op)
  end.

(** A Python [dict] with string keys, in insertion order:
    [d[k] = v] replaces the value of a known key in place and appends a
    new key. *)
Fixpoint dict_set {V : Type} (k : string) (v : V) (d : list (string * V))
    : list (string * V) :=
  match d with
  | [] => [(k, v)]
  | (k', v') :: d' =>
      if bool_decide (k = k') then (k, v) :: d' else (k', v') :: dict_set k v d'
  end.

Definition dict_values {V : Type} (d : list (string * V)) : list V := snd <$> d.

Section Index.

(** [hash(s)] of the running interpreter. *)
Variable py_hash : string → Z.

(** [list(jieba.cut_for_search(text))] *)
Variable tokenize : string → list string.

(** The file-system-safe form of a project name computed by
    [_get_file_paths], and [index_dir]. *)
Variable safe_name : string → string.
Variable index_dir : string.

(** [_get_file_paths]: the model file and the data file of a project. *)
Definition get_file_paths (project_name : string) : string * string :=
  let base_path := index_dir +:+ "/" +:+ safe_name project_name in
  (base_path +:+ "_model.pkl", base_path +:+ "_data.pkl").

(** The key under which [data_map] files an item. *)
Definition map_key (item : Item) : string :=
  match Py.truthy_get (metadata item !! "chunk_id") with
  | Some c_id => c_id
  | None => "hash_" +:+ pretty (py_hash (content item))
  end.

(** Step 1: the corpus snapshot on disk; a missing or unreadable file
    gives the empty list. *)
Definition load_existing (fs : Fs) (data_path : string) : list Item :=
  match fs !! data_path with
  | Some (Whole (PData items)) => items
  | _ => []
  end.

(** Step 2: old items first, then the new ones over them. *)
Definition merge_data (existing_data new_chunks : list Item) : list Item :=
  let data_map := foldl (λ m item, dict_set (map_key item) item m) [] existing_data in
  let data_map := foldl (λ m item, dict_set (map_key item) item m) data_map new_chunks in
  dict_values data_map.

(** [BM25Okapi(tokenized_corpus)]: rank_bm25 divides by the number of
    documents and, for the average IDF, by the number of distinct tokens;
    a corpus without any token raises. *)
Definition bm25_okapi (tokenized_corpus : list (list string)) : Py.Exc Pickle :=
  if bool_decide (concat tokenized_corpus = []) then Py.Raise "ZeroDivisionError"
  else Py.Ok (PModel tokenized_corpus).

(** Step 3 for the merged corpus [full_data]. *)
Definition build_index (full_data : list Item) : Py.Exc Pickle :=
  bm25_okapi (tokenize <$> (content <$> full_data)).

(** Steps 3 and 4 of [update_project_index]: the file system calls it
    makes, in order.  The index is built before any file is opened. *)
Definition update_ops (fs : Fs) (project_name : string) (new_chunks : list Item)
    : list FsOp :=
  let '(model_path, data_path) := get_file_paths project_name in
  let full_data := merge_data (load_existing fs data_path) new_chunks in
  match full_data with
  | [] => []
  | _ =>
      match build_index full_data with
      | Py.Ok bm25 =>
          [ OpenWb model_path; DumpClose model_path bm25;
            OpenWb data_path; DumpClose data_path (PData full_data) ]
      | Py.Raise _ => []
      end
  end.

(** [BM25Persistence.update_project_index]: the directory it leaves ... *)
Definition update_project_index (fs : Fs) (project_name : string)
    (new_chunks : list Item) : Fs :=
  run (update_ops fs project_name new_chunks) fs.

(** ... and the exception that leaves it, if any: that of step 3, which
    nothing catches. *)
Definition update_outcome (fs : Fs) (project_name : string)
    (new_chunks : list Item) : Py.Exc unit :=
  let full_data :=
    merge_data (load_existing fs (get_file_paths project_name).2) new_chunks in
  match full_data with
  | [] => Py.Ok tt
  | _ =>
      match build_index full_data with
      | Py.Ok _ => Py.Ok tt
      | Py.Raise e => Py.Raise e
      end
  end.

(** Every entry of [data_map] sits under the key of its item. *)
Definition keyed (d : list (string * Item)) : Prop :=
  ∀ e, e ∈ d → e.1 = map_key e.2.

(** The corpus a reader of the project's index gets. *)
Definition corpus_of (fs : Fs) (project_name : string) : list Item :=
  load_existing fs (get_file_paths project_name).2.

End Index.

(** The write-to-temporary-then-rename protocol for one file, as the
    specification words it. *)
Definition atomic_write (tmp path : string) (p : Pickle) : list FsOp :=
  [ OpenWb tmp; DumpClose tmp p; Replace tmp path ].

(** A reader never finds a partially written file at [path]. *)
Definition never_partial (path : string) (states : list Fs) : Prop :=
  Forall (λ fs : Fs, fs !! path ≠ Some Truncated) states.

End BM25.

(** ** Retrieval orchestrator (generation/rag_service.py) *)

Module Rag.

(** *** Scope configuration *)

(** The [project] entry of [filter_config]: absent, a name, or a list of
    names. *)
Inductive Scope :=
| ScopeNone
| ScopeStr (s : string)
| ScopeList (l : list string).

Record FilterConfig := mkConfig {
  top_k : option Z;
  project : Scope;
  type_ : option string;
  files : option (list string)
}.

Definition all_projects : string := "所有项目".
Definition all_types : string := "所有类型".

Definition scope_truthy (s : Scope) : bool :=
  match s with
  | ScopeNone => false
  | ScopeStr x => Py.truthy x
  | ScopeList l => bool_decide (l ≠ [])
  end.

(** [scope != "所有项目"]: a list never equals a string. *)
Definition scope_differs (s : Scope) (v : string) : bool :=
  match s with
  | ScopeStr x => bool_decide (x ≠ v)
  | _ => true
  end.

(** Step 0: the configuration built from the legacy arguments. *)
Definition legacy_config (top_k : Z) (project_filter : Scope) : FilterConfig :=
  {| top_k := Some top_k;
     project := if scope_truthy project_filter then project_filter
                else ScopeStr all_projects;
     type_ := Some all_types;
     files := Some [] |}.

(** *** Step 3.1: the filter handed to the vector store *)

(** Chroma [where] documents, as far as [chat_stream] builds them. *)
Inductive Where :=
| WEq (field value : string)
| WIn (field : string) (values : list string)
| WAnd (conditions : list Where).

Record SearchKwargs := mkKwargs {
  k : Z;
  filter : option Where
}.

Definition project_conditions (project_scope : Scope) : list Where :=
  if scope_truthy project_scope && scope_differs project_scope all_projects then
    match project_scope with
    | ScopeList l => if bool_decide (0 < length l) then [WIn "project_name" l] else []
    | ScopeStr s => [WEq "project_name" s]
    | ScopeNone => []
    end
  else [].

Definition type_conditions (type_scope : option string) : list Where :=
  match Py.truthy_get type_scope with
  | Some t => if bool_decide (t ≠ all_types) then [WEq "category" t] else []
  | None => []
  end.

Definition build_conditions (cfg : FilterConfig) : list Where :=
  let conditions := project_conditions (project cfg) ++ type_conditions (type_ cfg) in
  match files cfg with
  | Some (f :: fs) => [WIn "source_file" (f :: fs)]
  | _ => conditions
  end.

Definition build_filter (cfg : FilterConfig) : option Where :=
  match build_conditions cfg with
  | [] => None
  | [c] => Some c
  | cs => Some (WAnd cs)
  end.

Definition final_top_k (cfg : FilterConfig) : Z := default 6%Z (top_k cfg).

Definition search_kwargs (cfg : FilterConfig) : SearchKwargs :=
  {| k := (final_top_k cfg * 5)%Z; filter := build_filter cfg |}.

(** What Chroma does with a [where] document: the record's metadata must
    satisfy it. *)
Fixpoint where_holds (w : Where) (m : gmap string string) : bool :=
  match w with
  | WEq field value => bool_decide (m !! field = Some value)
  | WIn field values =>
      match m !! field with
      | Some v => bool_decide (v ∈ values)
      | None => false
      end
  | WAnd conditions => forallb (λ c, where_holds c m) conditions
  end.

(** *** Events and collaborators *)

Inductive Event :=
| Status (data : string)
| Text (data : string)
| Sources (data : list Document)
| Toc (data : list string)
| File (path name : string).

(** The events of the document workshop [_run_writer_agent_stream]: it
    yields [status], [text], [toc] and [file] events only. *)
Inductive WriterEvent :=
| WStatus (data : string)
| WText (data : string)
| WToc (data : list string)
| WFile (path name : string).

Definition of_writer (e : WriterEvent) : Event :=
  match e with
  | WStatus data => Status data
  | WText data => Text data
  | WToc data => Toc data
  | WFile path name => File path name
  end.

Record Message := mkMessage {
  role : string;
  msg_content : string
}.

(** The collaborators of the service; [None] is a component that failed
    to initialise ([self.x is None]).  A call that can raise returns
    [Py.Exc]. *)
Record Services := mkServices {
  (** [vector_store.as_retriever(search_type="similarity",
      search_kwargs=kw).invoke(q)] *)
  vector_store : option (SearchKwargs → string → Py.Exc (list Document));
  (** [bm25_manager.search(query, projects, top_k=n)] *)
  bm25_manager : option (string → list string → nat → Py.Exc (list BM25.Item));
  (** [graph_manager.get_context_window(chunk_id, window_size)] *)
  graph_manager : option (string → nat → Py.Exc (list Graph.Row));
  (** [reranker.rerank(query, docs, top_k=k)] *)
  reranker : option (string → list Document → Z → Py.Exc (list Document));
  (** [rewrite_query], which catches its own failures *)
  rewrite_query : string → string;
  (** the events of [_run_writer_agent_stream(query)] *)
  writer_agent : string → list WriterEvent;
  (** [os.path.join(data_repo_dir, project, src)] *)
  repo_path : string → string → string;
  (** [_run_pandas_agent(file_path, sheet_name, query)] *)
  run_pandas_agent : string → string → string → Py.Exc string;
  (** [chain.stream({chat_history, context, question})]: the chunks it
      yields and the exception that ends the stream, if any *)
  llm_stream : string → string → string → list string * option string
}.

(** *** Step 1: writing intent *)

(** [needle in haystack] for strings. *)
Fixpoint contains (needle haystack : string) : bool :=
  String.prefix needle haystack ||
  match haystack with
  | EmptyString => false
  | String _ rest => contains needle rest
  end.

Definition writing_keywords : list string :=
  ["撰写"; "生成"; "写一份"; "仿照"; "起草"; "编制"].
Definition context_keywords : list string :=
  ["参考"; "根据"; "基于"; "模仿"].

Definition writing_intent (query : string) : bool :=
  existsb (λ wk, contains wk query) writing_keywords &&
  existsb (λ ck, contains ck query) context_keywords.

(** *** Steps 3.2 and 3.3: recall *)

Definition vector_recall (sv : Services) (kw : SearchKwargs) (optimized_query : string)
    : list Document :=
  match vector_store sv with
  | Some retriever =>
      match retriever kw optimized_query with
      | Py.Ok docs => docs
      | Py.Raise _ => []
      end
  | None => []
  end.

Definition to_document (item : BM25.Item) : Document :=
  {| page_content := BM25.content item; metadata := BM25.metadata item |}.

Definition bm25_recall (sv : Services) (cfg : FilterConfig) (query : string)
    : list Document :=
  match bm25_manager sv with
  | Some search =>
      if scope_truthy (project cfg) && scope_differs (project cfg) all_projects then
        let target := match project cfg with
                      | ScopeList l => l
                      | ScopeStr s => [s]
                      | ScopeNone => []
                      end in
        match search query target 5 with
        | Py.Ok raw => to_document <$> raw
        | Py.Raise _ => []
        end
      else []
  | None => []
  end.

(** *** Step 4: graph expansion *)

Definition graph_prefix : string := "[图谱关联] ".

(** The body of the loop over ['prev', 'next'] for one node. *)
Definition expand_node (acc : list Document * gset string) (node : option Graph.Node)
    : list Document * gset string :=
  match node with
  | Some n =>
      if bool_decide (Graph.id n ∈ acc.2) then acc
      else (acc.1 ++ [ {| page_content := graph_prefix +:+ Graph.text n;
                          metadata := {[ "chunk_id" := Graph.id n;
                                         "source_method" := "Graph" ]} |} ],
            acc.2 ∪ {[ Graph.id n ]})
  | None => acc
  end.

Definition expand_row (acc : list Document * gset string) (row : Graph.Row)
    : list Document * gset string :=
  expand_node (expand_node acc (Graph.prev row)) (Graph.next row).

(** The loop over [initial_docs[:5]]; an exception of the graph store
    leaves the loop. *)
Fixpoint expand_docs (window : string → nat → Py.Exc (list Graph.Row))
    (docs : list Document) (acc : list Document * gset string)
    : Py.Exc (list Document * gset string) :=
  match docs with
  | [] => Py.Ok acc
  | d :: docs' =>
      match Py.truthy_get (metadata d !! "chunk_id") with
      | Some cid =>
          match window cid 1 with
          | Py.Ok context_rows => expand_docs window docs' (foldl expand_row acc context_rows)
          | Py.Raise e => Py.Raise e
          end
      | None => expand_docs window docs' acc
      end
  end.

(** The documents added by step 4 ([expanded_docs]); the empty list when
    the step is skipped or fails. *)
Definition expanded_docs (sv : Services) (initial_docs : list Document)
    (unique_ids : gset string) : list Document :=
  match initial_docs, graph_manager sv with
  | _ :: _, Some window =>
      match expand_docs window (take 5 initial_docs) ([], unique_ids) with
      | Py.Ok acc => acc.1
      | Py.Raise _ => []
      end
  | _, _ => []
  end.

Definition graph_events (sv : Services) (initial_docs : list Document) : list Event :=
  match initial_docs, graph_manager sv with
  | _ :: _, Some _ => [Status "🕸️ 扩展图谱上下文..."]
  | _, _ => []
  end.

(** The state of step 3.4 when its loop is over. *)
Definition fuse_stage (sv : Services) (cfg : FilterConfig) (query optimized_query : string)
    : Fusion.FuseState :=
  let vector_docs := vector_recall sv (search_kwargs cfg) optimized_query in
  let bm25_docs := bm25_recall sv cfg query in
  Fusion.fuse_state bm25_docs vector_docs.

(** [initial_docs] when step 4 is over. *)
Definition recall (sv : Services) (cfg : FilterConfig) (query optimized_query : string)
    : list Document :=
  let st := fuse_stage sv cfg query optimized_query in
  Fusion.initial_docs st ++ expanded_docs sv (Fusion.initial_docs st) (Fusion.unique_ids st).

(** *** Step 5: rerank or truncate, and the context string *)

Definition no_results_context : string :=
  "未找到相关文档。我将基于通用知识进行回答。".

Definition unknown : string := "未知".

Definition citation (i : nat) (d : Document) : string :=
  "引用 " +:+ pretty (i + 1) +:+ " (来源: " +:+ default unknown (metadata d !! "source_file")
  +:+ ", 方法: " +:+ default unknown (metadata d !! "source_method") +:+ "):" +:+ "
" +:+ page_content d.

Definition join (sep : string) (parts : list string) : string :=
  match parts with
  | [] => ""
  | p :: ps => foldl (λ acc x, acc +:+ sep +:+ x) p ps
  end.

Definition context_of (final_docs : list Document) : string :=
  join "

" (imap citation final_docs).

Record Ranked := mkRanked {
  final_docs : list Document;
  context_str : string
}.

(** The status event of step 5, emitted before the reranker is called. *)
Definition rank_events (sv : Services) (initial_docs : list Document) : list Event :=
  match initial_docs, reranker sv with
  | _ :: _, Some _ =>
      [Status ("⚖️ 重排序 " +:+ pretty (length initial_docs) +:+ " 个片段...")]
  | _, _ => []
  end.

(** Step 5; the reranker is called outside any [try]. *)
Definition rank (sv : Services) (cfg : FilterConfig) (optimized_query : string)
    (initial_docs : list Document) : Py.Exc Ranked :=
  match initial_docs with
  | [] => Py.Ok {| final_docs := []; context_str := no_results_context |}
  | _ =>
      match reranker sv with
      | Some rerank =>
          match rerank optimized_query initial_docs (final_top_k cfg) with
          | Py.Ok docs => Py.Ok {| final_docs := docs; context_str := context_of docs |}
          | Py.Raise e => Py.Raise e
          end
      | None =>
          let docs := Py.slice_to initial_docs (final_top_k cfg) in
          Py.Ok {| final_docs := docs; context_str := context_of docs |}
      end
  end.

(** *** Step 6: the Excel task detector *)

Definition ascii_lower (c : Ascii.ascii) : Ascii.ascii :=
  let n := Ascii.nat_of_ascii c in
  if bool_decide (65 ≤ n ∧ n ≤ 90) then Ascii.ascii_of_nat (n + 32) else c.

Fixpoint lower (s : string) : string :=
  match s with
  | EmptyString => EmptyString
  | String c rest => String (ascii_lower c) (lower rest)
  end.

Definition endswith (s suffix : string) : bool :=
  String.prefix (String.rev suffix) (String.rev s).

Fixpoint vote (key : string * string) (votes : list (string * string * nat))
    : list (string * string * nat) :=
  match votes with
  | [] => [(key, 1)]
  | (k', n) :: rest =>
      if bool_decide (key = k') then (k', n + 1) :: rest else (k', n) :: vote key rest
  end.

(** [max(items, key=count)]: the first entry with the largest count. *)
Definition max_vote (votes : list (string * string * nat)) : option (string * string) :=
  match votes with
  | [] => None
  | v :: rest =>
      Some (foldl (λ best x, if bool_decide (best.2 < x.2) then x else best) v rest).1
  end.

Definition detect_excel_task (sv : Services) (docs : list Document)
    : option (string * string) :=
  max_vote
    (foldl (λ votes doc,
       let meta := metadata doc in
       let src := default "" (meta !! "source_file") in
       if (endswith (lower src) ".xlsx" || endswith (lower src) ".xls")
          && bool_decide (meta !! "type" ∈ [Some "table"; Some "summary"; Some "sheet"])
       then vote (repo_path sv (default "" (meta !! "project_name")) src,
                  default "0" (meta !! "page")) votes
       else votes) [] docs).

(** *** Step 7 and the whole generator *)

(** [history[-4:]] rendered as [role: content] lines. *)
Definition chat_history_str (history : list Message) : string :=
  foldl (λ acc msg, acc +:+ role msg +:+ ": " +:+ msg_content msg +:+ "
") "" (drop (length history - 4) history).

Definition generation_events (sv : Services) (history : list Message)
    (context optimized_query : string) : list Event :=
  let '(chunks, failure) := llm_stream sv (chat_history_str history) context optimized_query in
  (Text <$> chunks) ++
  match failure with
  | Some e => [Text ("大模型调用错误: " +:+ e)]
  | None => []
  end.

(** What a caller draining the generator sees: the events, and the
    exception that ended it, if one escaped. *)
Record Stream := mkStream {
  events : list Event;
  raised : option string
}.

(** Steps 2 to 5: the events up to the end of step 5, and its result. *)
Definition retrieval (sv : Services) (cfg : FilterConfig) (query : string)
    : list Event * Py.Exc Ranked :=
  let optimized_query := rewrite_query sv query in
  let fused := Fusion.initial_docs (fuse_stage sv cfg query optimized_query) in
  let initial_docs := recall sv cfg query optimized_query in
  ([Status "🧠 优化搜索问题...";
    Status ("🔍 检索: " +:+ optimized_query +:+ "...")]
   ++ graph_events sv fused ++ rank_events sv initial_docs,
   rank sv cfg optimized_query initial_docs).

(** Steps 6 and 7, after a successful step 5. *)
Definition answer (sv : Services) (history : list Message) (optimized_query : string)
    (r : Ranked) : list Event :=
  let standard :=
    Sources (final_docs r) ::
    generation_events sv history (context_str r) optimized_query in
  match detect_excel_task sv (final_docs r) with
  | Some (file_path, sheet_name) =>
      Status "📊 启动 Pandas Agent 分析Excel..." ::
      match run_pandas_agent sv file_path sheet_name optimized_query with
      | Py.Ok agent_result => [Text agent_result; Sources (take 3 (final_docs r))]
      | Py.Raise e =>
          Text ("
⚠️ Pandas Agent 分析失败，转为通用回答模式。错误: " +:+ e +:+ "

") :: standard
      end
  | None => standard
  end.

Definition chat_stream (sv : Services) (query : string) (history : list Message)
    (top_k : Z) (project_filter : Scope) (filter_config : option FilterConfig)
    : Stream :=
  let cfg := default (legacy_config top_k project_filter) filter_config in
  if writing_intent query then
    {| events := of_writer <$> writer_agent sv query; raised := None |}
  else
    match retrieval sv cfg query with
    | (head, Py.Raise e) => {| events := head; raised := Some e |}
    | (head, Py.Ok r) =>
        {| events := head ++ answer sv history (rewrite_query sv query) r;
           raised := None |}
    end.

(** The position of the first event satisfying [p]. *)
Fixpoint first_index (p : Event → bool) (l : list Event) : option nat :=
  match l with
  | [] => None
  | e :: l' => if p e then Some 0 else S <$> first_index p l'
  end.

Definition is_sources (e : Event) : bool :=
  match e with Sources _ => true | _ => false end.

Definition is_text (e : Event) : bool :=
  match e with Text _ => true | _ => false end.

Definition is_status (e : Event) : bool :=
  match e with Status _ => true | _ => false end.

(** The provenance tag of a candidate. *)
Definition source_method (d : Document) : option string :=
  metadata d !! "source_method".

(** What step 4 appends. *)
Definition graph_doc (d : Document) : Prop :=
  ∃ n : Graph.Node,
    d = {| page_content := graph_prefix +:+ Graph.text n;
           metadata := {[ "chunk_id" := Graph.id n; "source_method" := "Graph" ]} |}.

(** No graph-sourced candidate stands before a directly recalled one. *)
Definition direct_first (l : list Document) : Prop :=
  ∀ i j g d, l !! i = Some g → l !! j = Some d →
    source_method g = Some "Graph" → source_method d ≠ Some "Graph" → j < i.

(** Modelled from the spec: [RerankService.rerank] of
    generation/reranker.py, which is not among the sources.  The spec has
    it return the top [k] candidates ordered by the model score of the
    (query, passage text) pair, whatever the fused order was. *)
Fixpoint insert_by_score (model : string → string → Q) (query : string)
    (x : Document) (sorted : list Document) : list Document :=
  match sorted with
  | [] => [x]
  | y :: rest =>
      if Qle_bool (model query (page_content x)) (model query (page_content y))
      then y :: insert_by_score model query x rest
      else x :: sorted
  end.

Definition spec_rerank (model : string → string → Q) (query : string)
    (docs : list Document) (k : Z) : Py.Exc (list Document) :=
  Py.Ok (Py.slice_to (foldl (λ acc x, insert_by_score model query x acc) [] docs) k).

End Rag.

(** ** Lexical search (utils/bm25_manager.py, [BM25Persistence.search]) *)

Module Lexical.

(** The [projects] argument: a list of names, or one name. *)
Inductive Projects :=
| Many (l : list string)
| One (s : string).

(** [pickle.load] of an opened file: a file that is missing or was
    truncated by a writer raises. *)
Definition pickle_load (fs : gmap string BM25.File) (path : string)
    : Py.Exc BM25.Pickle :=
  match fs !! path with
  | Some (BM25.Whole p) => Py.Ok p
  | Some BM25.Truncated => Py.Raise "EOFError"
  | None => Py.Raise "FileNotFoundError"
  end.

Section Search.

(** [list(jieba.cut_for_search(text))] *)
Variable tokenize : string → list string.
Variable safe_name : string → string.
Variable index_dir : string.

(** [bm25.get_scores(q)] and [bm25.get_top_n(q, documents, n)] of the
    [BM25Okapi] object built from a tokenised corpus. *)
Variable get_scores : list (list string) → list string → Py.Exc (list Q).
Variable get_top_n :
  list (list string) → list string → list BM25.Item → nat → Py.Exc (list BM25.Item).

(** The calls on the two unpickled objects; an object of the wrong
    class has none of the methods used. *)
Definition top_n_of (bm25 corpus_data : BM25.Pickle) (tokenized_query : list string)
    (top_k : nat) : Py.Exc (list BM25.Item) :=
  match bm25 with
  | BM25.PModel tokenized_corpus =>
      match get_scores tokenized_corpus tokenized_query with
      | Py.Ok _ =>
          match corpus_data with
          | BM25.PData documents =>
              get_top_n tokenized_corpus tokenized_query documents top_k
          | BM25.PModel _ => Py.Raise "TypeError"
          end
      | Py.Raise e => Py.Raise e
      end
  | BM25.PData _ => Py.Raise "AttributeError"
  end.

(** The body of the [try] for one project. *)
Definition load_and_rank (fs : gmap string BM25.File) (tokenized_query : list string)
    (proj : string) (top_k : nat) : Py.Exc (list BM25.Item) :=
  let '(model_path, data_path) := BM25.get_file_paths safe_name index_dir proj in
  match pickle_load fs model_path with
  | Py.Ok bm25 =>
      match pickle_load fs data_path with
      | Py.Ok corpus_data => top_n_of bm25 corpus_data tokenized_query top_k
      | Py.Raise e => Py.Raise e
      end
  | Py.Raise e => Py.Raise e
  end.

(** One iteration of the loop over [target_projects]. *)
Definition search_step (fs : gmap string BM25.File) (tokenized_query : list string)
    (top_k : nat) (results : list BM25.Item) (proj : string) : list BM25.Item :=
  if bool_decide (proj = "所有项目") then results
  else if bool_decide (fs !! (BM25.get_file_paths safe_name index_dir proj).1 = None)
  then results
  else match load_and_rank fs tokenized_query proj top_k with
       | Py.Ok top_n => results ++ top_n
       | Py.Raise _ => results
       end.

(** [BM25Persistence.search] *)
Definition search (fs : gmap string BM25.File) (query : string) (projects : Projects)
    (top_k : nat) : list BM25.Item :=
  let tokenized_query := tokenize query in
  let target_projects := match projects with Many l => l | One s => [s] end in
  foldl (search_step fs tokenized_query top_k) [] target_projects.

(** What the ranking of a complete index returns, and nothing when a call
    raises. *)
Definition ranked (tokenized_corpus : list (list string)) (documents : list BM25.Item)
    (query : string) (top_k : nat) : list BM25.Item :=
  match top_n_of (BM25.PModel tokenized_corpus) (BM25.PData documents)
          (tokenize query) top_k with
  | Py.Ok top_n => top_n
  | Py.Raise _ => []
  end.

End Search.

End Lexical.

(** ** The records of the collection and the calls that write them *)

Module Collection.

(** The metadata values Chroma takes: scalars. *)
Definition scalar (v : VectorStore.MetaValue) : bool :=
  match v with
  | VectorStore.MNone | VectorStore.MComposite _ => false
  | _ => true
  end.

(** A record as [add_chunks] writes it: scalar metadata that names the
    context to show and tells whether it is a parent's, and the embedding
    of the stored document. *)
Definition well_formed {E : Type} (encode : string → E) (s : VectorStore.Stored E)
    : Prop :=
  map_Forall (λ _ v, scalar v = true) (VectorStore.stored_metadata s)
  ∧ (∃ ctx, VectorStore.stored_metadata s !! "full_context" = Some (VectorStore.MStr ctx))
  ∧ (VectorStore.stored_metadata s !! "is_child" = Some (VectorStore.MStr "True")
     ∨ VectorStore.stored_metadata s !! "is_child" = Some (VectorStore.MStr "False"))
  ∧ VectorStore.embedding s = encode (VectorStore.document s).

(** The record that [add_chunks] builds for a chunk of the batch
    [chunks]. *)
Definition record_of {E : Type} (encode : string → E)
    (chunks : list VectorStore.IndexableChunk) (c : VectorStore.IndexableChunk)
    : VectorStore.Stored E :=
  {| VectorStore.document := VectorStore.content c;
     VectorStore.stored_metadata :=
       VectorStore.clean_meta (VectorStore.fused_meta (VectorStore.parent_map chunks) c);
     VectorStore.embedding := encode (VectorStore.content c) |}.

(** The calls of a batch loop that Chroma takes: those before the first
    whose ids repeat. *)
Fixpoint accepted {A : Type} (batches : list (list (string * A)))
    : list (list (string * A)) :=
  match batches with
  | [] => []
  | batch :: rest => if bool_decide (NoDup batch.*1) then batch :: accepted rest else []
  end.

(** The arguments of the successive [collection.upsert] calls of the
    batch loop. *)
Definition upsert_calls {A : Type} (rows : list A) : list (list A) :=
  (λ i, VectorStore.slice i (Nat.min (i + VectorStore.batch_size) (length rows)) rows)
  <$> VectorStore.range_step (length rows) VectorStore.batch_size.

End Collection.

(** ** The retriever (retrieval/search_engine.py, [TenderRetriever.search]) *)

Module Retriever.

(** A value of the [project_type] dictionary: a string, or something else
    with its truth value. *)
Inductive FilterValue :=
| FStr (s : string)
| FOther (truthy : bool).

(** The [where] argument handed to Chroma: a dictionary [{k: v}] of one
    entry, or [{"$and": [{k: v}, ...]}]. *)
Inductive ChromaFilter :=
| Direct (field value : string)
| And (conditions : list (string * string)).

(** [{k: v for k, v in project_type.items() if v and isinstance(v, str)}] *)
Definition valid_filters (project_type : list (string * FilterValue))
    : list (string * string) :=
  omap (λ kv, match kv.2 with
              | FStr s => if Py.truthy s then Some (kv.1, s) else None
              | FOther _ => None
              end) project_type.

(** Step 1 of [search]. *)
Definition chroma_filter (project_type : option (list (string * FilterValue)))
    : option ChromaFilter :=
  match project_type with
  | None => None
  | Some [] => None
  | Some pt =>
      match valid_filters pt with
      | [] => None
      | [(k, v)] => Some (Direct k v)
      | conditions => Some (And conditions)
      end
  end.

(** What Chroma does with the filter: [{k: v}] asks for equality, [$and]
    for all of its conditions, no filter for nothing. *)
Definition accepts (f : option ChromaFilter) (m : gmap string string) : bool :=
  match f with
  | None => true
  | Some (Direct k v) => bool_decide (m !! k = Some v)
  | Some (And conditions) =>
      forallb (λ kv, bool_decide (m !! kv.1 = Some kv.2)) conditions
  end.

(** One entry of the parallel lists [ids], [documents], [metadatas] and
    [distances] of a query result. *)
Record Hit := mkHit {
  hit_id : string;
  hit_document : string;
  hit_metadata : gmap string string;
  hit_distance : Q
}.

(** Step 3: the candidate built for a hit. *)
Definition to_candidate (h : Hit) : Hybrid.Candidate :=
  let display_content :=
    match Py.truthy_get (hit_metadata h !! "full_context") with
    | Some full_context => full_context
    | None => hit_document h
    end in
  {| Hybrid.cand_id := hit_id h;
     Hybrid.content := display_content;
     Hybrid.metadata := hit_metadata h;
     Hybrid.score := 1 - hit_distance h;
     Hybrid.source_file := default "Unknown" (hit_metadata h !! "source_file");
     Hybrid.bm25_score := None |}.

(** [c['score'] = float(rerank_scores[i])] *)
Definition with_score (c : Hybrid.Candidate) (s : Q) : Hybrid.Candidate :=
  {| Hybrid.cand_id := Hybrid.cand_id c;
     Hybrid.content := Hybrid.content c;
     Hybrid.metadata := Hybrid.metadata c;
     Hybrid.score := s;
     Hybrid.source_file := Hybrid.source_file c;
     Hybrid.bm25_score := Hybrid.bm25_score c |}.

(** The loop over [enumerate(candidates)] of step 5; [None] is an
    IndexError. *)
Fixpoint overwrite_scores (i : nat) (rerank_scores : list Q)
    (candidates : list Hybrid.Candidate) : option (list Hybrid.Candidate) :=
  match candidates with
  | [] => Some []
  | c :: rest =>
      s ← rerank_scores !! i;
      rest' ← overwrite_scores (S i) rerank_scores rest;
      Some (with_score c s :: rest')
  end.

Section Search.

(** [BM25Okapi(corpus).get_scores(tokenized_query)], as in the hybrid
    stage. *)
Variable get_scores : string → list string → list Q.

(** [_generate_embeddings([query])] and [collection.query(query_embeddings,
    n_results, where)]: the hits for the one query. *)
Variable query_collection : string → Z → option ChromaFilter → Py.Exc (list Hit).

(** [self.reranker.predict(pairs)], when a cross-encoder was loaded. *)
Variable reranker : option (list (string * string) → Py.Exc (list Q)).

(** [TenderRetriever.search] *)
Definition search (query : string) (top_k : Z)
    (project_type : option (list (string * FilterValue))) (use_hybrid : bool)
    : Py.Exc (list Hybrid.Candidate) :=
  let recall_k := (top_k * 3)%Z in
  match query_collection query recall_k (chroma_filter project_type) with
  | Py.Raise e => Py.Raise e
  | Py.Ok [] => Py.Ok []
  | Py.Ok hits =>
      let candidates := to_candidate <$> hits in
      match (if use_hybrid then Hybrid.apply_bm25_score get_scores query candidates
             else Some candidates) with
      | None => Py.Raise "IndexError"
      | Some candidates =>
          match reranker with
          | Some predict =>
              match predict ((λ c, (query, Hybrid.content c)) <$> candidates) with
              | Py.Raise e => Py.Raise e
              | Py.Ok rerank_scores =>
                  match overwrite_scores 0 rerank_scores candidates with
                  | None => Py.Raise "IndexError"
                  | Some candidates =>
                      Py.Ok (Py.slice_to (Hybrid.sort_by_score_desc candidates) top_k)
                  end
              end
          | None => Py.Ok (Py.slice_to candidates top_k)
          end
      end
  end.

End Search.

(** Two candidate dictionaries that differ in their scores at most. *)
Definition same_entry (a b : Hybrid.Candidate) : Prop :=
  Hybrid.cand_id a = Hybrid.cand_id b ∧ Hybrid.content a = Hybrid.content b
  ∧ Hybrid.metadata a = Hybrid.metadata b
  ∧ Hybrid.source_file a = Hybrid.source_file b.

End Retriever.

(** ** The vote of the Excel task detector, for stating its result *)

Module ExcelVote.

(** The key under which [_detect_excel_task] counts a candidate: the
    workbook path and the sheet, when the candidate is a row, a summary or
    a sheet of an Excel file. *)
Definition excel_key (sv : Rag.Services) (doc : Document)
    : option (string * string) :=
  let meta := metadata doc in
  let src := default "" (meta !! "source_file") in
  if (Rag.endswith (Rag.lower src) ".xlsx" || Rag.endswith (Rag.lower src) ".xls")
     && bool_decide (meta !! "type" ∈ [Some "table"; Some "summary"; Some "sheet"])
  then Some (Rag.repo_path sv (default "" (meta !! "project_name")) src,
             default "0" (meta !! "page"))
  else None.

(** The number of candidates counted under [key]. *)
Definition votes_for (sv : Rag.Services) (docs : list Document)
    (key : string * string) : nat :=
  length (filter (λ d, excel_key sv d = Some key) docs).

(** A candidate of [key] stands before every candidate of [other]. *)
Definition earlier (sv : Rag.Services) (docs : list Document)
    (key other : string * string) : Prop :=
  ∃ docs1 d docs2,
    docs = docs1 ++ d :: docs2 ∧ excel_key sv d = Some key
    ∧ ∀ d', d' ∈ docs1 → excel_key sv d' ≠ Some other.

(** What the dictionary [excel_votes] holds when the candidates [docs]
    have been counted: one entry per key, with its count, in the order in
    which the keys were first met. *)
Definition counted (sv : Rag.Services) (vs : list (string * string * nat))
    (docs : list Document) : Prop :=
  NoDup vs.*1
  ∧ (∀ k n, (k, n) ∈ vs → n = votes_for sv docs k ∧ 0 < n)
  ∧ (∀ d k, d ∈ docs → excel_key sv d = Some k → k ∈ vs.*1)
  ∧ (∀ ks1 k ks2 k', vs.*1 = ks1 ++ k :: ks2 → k' ∈ ks2 → earlier sv docs k k').

End ExcelVote.

(** ** What a scope configuration asks of a record *)

Module Scoping.

(** The project entry: nothing, "所有项目" and an empty list ask for
    nothing; a name asks for that project, a list for one of its names. *)
Definition project_ok (s : Rag.Scope) (m : gmap string string) : Prop :=
  match s with
  | Rag.ScopeNone => True
  | Rag.ScopeStr p => p = "" ∨ p = Rag.all_projects ∨ m !! "project_name" = Some p
  | Rag.ScopeList l => l = [] ∨ ∃ p, p ∈ l ∧ m !! "project_name" = Some p
  end.

(** The type entry: nothing and "所有类型" ask for nothing. *)
Definition type_ok (t : option string) (m : gmap string string) : Prop :=
  match t with
  | None => True
  | Some t => t = "" ∨ t = Rag.all_types ∨ m !! "category" = Some t
  end.

(** The record passes the filter handed to the vector store. *)
Definition passes (cfg : Rag.FilterConfig) (m : gmap string string) : Prop :=
  match Rag.build_filter cfg with
  | Some w => Rag.where_holds w m = true
  | None => True
  end.

End Scoping.

(** ** Graph expansion (rag_service.py, step 4), for stating its result *)

Module Expansion.

(** The candidate that step 4 builds for a node. *)
Definition candidate_of (n : Graph.Node) : Document :=
  {| page_content := Rag.graph_prefix +:+ Graph.text n;
     metadata := {[ "chunk_id" := Graph.id n; "source_method" := "Graph" ]} |}.

(** [g] was built for a node that the window of one of [docs] names as
    its predecessor or successor. *)
Definition found_by (window : string → nat → Py.Exc (list Graph.Row))
    (docs : list Document) (g : Document) : Prop :=
  ∃ d cid rows row n,
    d ∈ docs ∧ Py.truthy_get (metadata d !! "chunk_id") = Some cid
    ∧ window cid 1 = Py.Ok rows ∧ row ∈ rows
    ∧ (Graph.prev row = Some n ∨ Graph.next row = Some n)
    ∧ g = candidate_of n.

(** The accumulator of the loops of step 4, [(expanded_docs,
    seen_graph_ids)], when the candidates [docs] have been expanded from
    the ids [unique_ids]: nothing seen is forgotten, and every expanded
    candidate is new, was found by one of [docs] and is remembered. *)
Definition expanding (window : string → nat → Py.Exc (list Graph.Row))
    (unique_ids : gset string) (docs : list Document)
    (acc : list Document * gset string) : Prop :=
  unique_ids ⊆ acc.2
  ∧ NoDup ((λ g, metadata g !! "chunk_id") <$> acc.1)
  ∧ ∀ g, g ∈ acc.1 →
      found_by window docs g
      ∧ ∃ cid, metadata g !! "chunk_id" = Some cid ∧ cid ∈ acc.2 ∧ cid ∉ unique_ids.

End Expansion.

(** ** The chapter loop of the document workshop
       (generation/rag_service.py, [_run_writer_agent_stream]) *)

Module Writer.

(** [s.replace("\n", "")] *)
Fixpoint remove_newlines (s : string) : string :=
  match s with
  | EmptyString => EmptyString
  | String c rest =>
      if bool_decide (Ascii.nat_of_ascii c = 10) then remove_newlines rest
      else String c (remove_newlines rest)
  end.

(** [results_buffer[target_title][:50].replace("\n", "") + "..."] *)
Definition preview (content : string) : string :=
  remove_newlines (Utf8.take 50 content) +:+ "...".

(** What the loop yields, before it is rendered as an event. *)
Inductive Emit :=
| Progress (completed total : nat)
| Preview (title content : string)
| Failed (title : string).

Definition render (e : Emit) : Rag.Event :=
  match e with
  | Progress completed total =>
      Rag.Status ("✍️ 正在撰写并审核：(" +:+ pretty completed +:+ "/" +:+ pretty total
                  +:+ ") 个章节完成...")
  | Preview title content =>
      Rag.Text ("✅ **" +:+ title +:+ "**
> " +:+ preview content +:+ "

")
  | Failed title =>
      Rag.Text ("❌ **" +:+ title +:+ "** 生成失败
")
  end.

(** A future taken from [as_completed]: the chapter it was submitted
    for, what [future.result()] does, and whether the progress cache could
    be written afterwards. *)
Record Completion := mkCompletion {
  title : string;
  outcome : Py.Exc string;
  cache_saved : bool
}.

(** The variables of the loop. *)
Record Loop := mkLoop {
  results_buffer : gmap string string;
  generated_data : list (string * string);
  next_idx_to_display : nat;
  completed_count : nat;
  emitted : list Emit
}.

(** The inner [while] loop over the chapters not yet displayed. *)
Fixpoint display (buffer : gmap string string) (pending : list string) : list Emit :=
  match pending with
  | [] => []
  | target_title :: rest =>
      match buffer !! target_title with
      | Some content => Preview target_title content :: display buffer rest
      | None => []
      end
  end.

(** The body of [for future in as_completed(future_to_title)]. *)
Definition step (chapters_to_write : list string) (st : Loop) (c : Completion) : Loop :=
  match outcome c with
  | Py.Raise _ =>
      {| results_buffer := results_buffer st;
         generated_data := generated_data st;
         next_idx_to_display := next_idx_to_display st;
         completed_count := completed_count st;
         emitted := emitted st ++ [Failed (title c)] |}
  | Py.Ok content =>
      let buffer := <[title c := content]> (results_buffer st) in
      let data := BM25.dict_set (title c) content (generated_data st) in
      let count := S (completed_count st) in
      let progress := Progress count (length chapters_to_write) in
      if cache_saved c then
        let shown := display buffer (drop (next_idx_to_display st) chapters_to_write) in
        {| results_buffer := buffer;
           generated_data := data;
           next_idx_to_display := next_idx_to_display st + length shown;
           completed_count := count;
           emitted := emitted st ++ progress :: shown |}
      else
        {| results_buffer := buffer;
           generated_data := data;
           next_idx_to_display := next_idx_to_display st;
           completed_count := count;
           emitted := emitted st ++ [progress; Failed (title c)] |}
  end.

(** The loop, from the data restored from the cache, over the futures in
    the order in which they complete. *)
Definition write_loop (chapters_to_write : list string) (cached : list (string * string))
    (completions : list Completion) : Loop :=
  foldl (step chapters_to_write)
        {| results_buffer := ∅; generated_data := cached;
           next_idx_to_display := 0; completed_count := 0; emitted := [] |}
        completions.

(** The events of the writing stage. *)
Definition write_events (chapters_to_write : list string)
    (cached : list (string * string)) (completions : list Completion)
    : list Rag.Event :=
  match chapters_to_write with
  | [] => []
  | _ =>
      Rag.Status ("🚀 正在全速撰写并审核剩余 " +:+ pretty (length chapters_to_write)
                  +:+ " 章...")
      :: (render <$> emitted (write_loop chapters_to_write cached completions))
  end.

(** [[t for t in new_toc if t not in generated_data]] *)
Definition chapters_to_write (new_toc : list string) (generated_data : list (string * string))
    : list string :=
  filter (λ t, t ∉ generated_data.*1) new_toc.

(** [generated_data.get(t, "")] *)
Definition get_or_empty (generated_data : list (string * string)) (t : string) : string :=
  default "" ((list_to_map generated_data : gmap string string) !! t).

(** [{t: generated_data.get(t, "") for t in new_toc}] *)
Definition ordered_content (new_toc : list string) (generated_data : list (string * string))
    : list (string * string) :=
  foldl (λ d t, BM25.dict_set t (get_or_empty generated_data t) d) [] new_toc.

(** The chapters shown so far, and the chapters that were written. *)
Definition previewed (es : list Emit) : list string :=
  omap (λ e, match e with Preview t _ => Some t | _ => None end) es.

Definition written (completions : list Completion) (t : string) : Prop :=
  ∃ c content, c ∈ completions ∧ title c = t ∧ outcome c = Py.Ok content.

(** What holds of the loop variables after the completions [done]: the
    chapters shown are the first [next_idx_to_display] chapters, all of
    them are in the buffer, and the buffer holds the chapters written. *)
Definition loop_inv (chapters : list string) (done : list Completion) (st : Loop) : Prop :=
  previewed (emitted st) = take (next_idx_to_display st) chapters
  ∧ next_idx_to_display st ≤ length chapters
  ∧ (∀ j t, j < next_idx_to_display st → chapters !! j = Some t →
       is_Some (results_buffer st !! t))
  ∧ (∀ t, is_Some (results_buffer st !! t) ↔ written done t).

(** The loop has shown all it can: the next chapter to show is not in the
    buffer. *)
Definition caught_up (chapters : list string) (st : Loop) : Prop :=
  ∀ t, chapters !! next_idx_to_display st = Some t → results_buffer st !! t = None.

End Writer.

(** ** The ingestion pipeline, steps 4 and 5 (etl/pipeline.py,
       [ETLPipeline.process_file]) *)

Module Pipeline.

(** [original_filename if original_filename else os.path.basename(file_path)] *)
Definition display_name (current_file_name : string) (original_filename : option string)
    : string :=
  default current_file_name (Py.truthy_get original_filename).

(** [chunk.metadata.get("type") == "table"] *)
Definition is_table (chunk : VectorStore.IndexableChunk) : bool :=
  bool_decide (VectorStore.metadata chunk !! "type" = Some (VectorStore.MStr "table")).

Section Clean.

(** [str(uuid.uuid5(uuid.NAMESPACE_DNS, name))] and [TextCleaner.clean] *)
Variable uuid5 : string → string.
Variable clean : string → string.

(** The extracted metadata of the file, the name it is shown under and
    the name it was uploaded with. *)
Variable meta : gmap string VectorStore.MetaValue.
Variable current_file_name : string.
Variable original_filename : option string.

(** The body of the loop of step 4 for the chunk at position [i]: the
    chunk as it is appended to [cleaned_chunks], or nothing. *)
Definition prepare (i : nat) (chunk : VectorStore.IndexableChunk)
    : option VectorStore.IndexableChunk :=
  let content :=
    if is_table chunk then VectorStore.content chunk
    else clean (VectorStore.content chunk) in
  if is_table chunk || bool_decide (5 < Utf8.len content) then
    let md := VectorStore.metadata chunk in
    let md := match Py.truthy_get original_filename with
              | Some name => <["source_file" := VectorStore.MStr name]> md
              | None => md
              end in
    let md := <["project_name" :=
                default (VectorStore.MStr "Unknown") (meta !! "project_name")]> md in
    let md := match meta !! "category" with
              | Some category => <["category" := category]> md
              | None => md
              end in
    let unique_str :=
      display_name current_file_name original_filename +:+ "_" +:+ pretty i in
    let md := <["chunk_id" := VectorStore.MStr (uuid5 unique_str)]> md in
    Some {| VectorStore.content := content;
            VectorStore.metadata := md;
            VectorStore.chunk_id := VectorStore.chunk_id chunk;
            VectorStore.parent_id := VectorStore.parent_id chunk;
            VectorStore.is_parent := VectorStore.is_parent chunk |}
  else None.

(** The loop over [enumerate(chunks)], from position [i] on. *)
Fixpoint clean_from (i : nat) (chunks : list VectorStore.IndexableChunk)
    : list VectorStore.IndexableChunk :=
  match chunks with
  | [] => []
  | chunk :: rest =>
      match prepare i chunk with
      | Some c => c :: clean_from (S i) rest
      | None => clean_from (S i) rest
      end
  end.

(** [cleaned_chunks] at the end of step 4. *)
Definition cleaned_chunks (chunks : list VectorStore.IndexableChunk)
    : list VectorStore.IndexableChunk :=
  clean_from 0 chunks.

(** [c.metadata.get("page", 0)], as the text the graph keeps. *)
Definition page_text (chunk : VectorStore.IndexableChunk) : string :=
  match VectorStore.metadata chunk !! "page" with
  | None => "0"
  | Some (VectorStore.MInt z) => pretty z
  | Some (VectorStore.MStr s) => s
  | Some VectorStore.MNone => "None"
  | Some (VectorStore.MComposite repr) => repr
  end.

(** [graph_data] of step 5. *)
Definition graph_data (cleaned : list VectorStore.IndexableChunk) : list Graph.ChunkIn :=
  (λ c, {| Graph.content := VectorStore.content c; Graph.in_page := page_text c |})
  <$> cleaned.

End Clean.

End Pipeline.

(** ** Page estimation for PDF text chunks (ingestion/tender_parser.py,
       [TenderDocParser._parse_pdf]) *)

Module Parser.

(** [int(x)]: truncation towards zero. *)
Definition py_int (x : Q) : Z :=
  if Qle_bool 0 x then Qfloor x else Qceiling x.

(** [total_chars / total_pages if total_pages > 0 else 1000] *)
Definition chars_per_page (total_chars total_pages : nat) : Q :=
  if bool_decide (0 < total_pages)
  then inject_Z (Z.of_nat total_chars) / inject_Z (Z.of_nat total_pages)
  else 1000.

(** The loop over [text_chunks]; [lens] are the lengths of the chunks. *)
Fixpoint estimate_from (per_page : Q) (total_pages : nat) (current_char_idx : nat)
    (lens : list nat) : list Z :=
  match lens with
  | [] => []
  | chunk_len :: rest =>
      let mid_point :=
        (inject_Z (Z.of_nat current_char_idx) + inject_Z (Z.of_nat chunk_len) / 2)%Q in
      let est_page :=
        Z.min (py_int (mid_point / per_page) + 1) (Z.of_nat total_pages) in
      est_page :: estimate_from per_page total_pages (current_char_idx + chunk_len) rest
  end.

(** The [page] given to each text chunk of a PDF whose text has
    [total_chars] characters; nothing is estimated for an empty text. *)
Definition estimate_pages (total_chars total_pages : nat) (lens : list nat) : list Z :=
  match total_chars with
  | O => []
  | _ => estimate_from (chars_per_page total_chars total_pages) total_pages 0 lens
  end.

End Parser.

(** ** The file registry behind the cascading scope selector
       (utils/file_manager.py, [FileManager]) *)

Module Registry.

(** metadata_registry.json as the manager writes it: project, then file
    name, then the file's entry [{"tag": tag}]. *)
Abbreviation FileInfo := (gmap string string) (only parsing).
Abbreviation Metadata := (gmap string (gmap string FileInfo)) (only parsing).

(** The registry file on disk. *)
Inductive RegistryFile :=
| Absent
| Unreadable                  (* not JSON, or the read fails *)
| Holds (data : Metadata).

(** [_load_metadata]: an absent or unreadable file reads as [{}]. *)
Definition load_metadata (file : RegistryFile) : Metadata :=
  match file with
  | Holds data => data
  | Absent | Unreadable => ∅
  end.

(** What becomes of [open(path, 'w')] followed by [json.dump]. *)
Inductive WriteOutcome :=
| Written
| OpenFails                   (* the file is left as it was *)
| DumpFails.                  (* the file is left truncated *)

(** [_save_metadata] *)
Definition save_metadata (o : WriteOutcome) (data : Metadata) (file : RegistryFile)
    : RegistryFile * Py.Exc unit :=
  match o with
  | Written => (Holds data, Py.Ok tt)
  | OpenFails => (file, Py.Raise "OSError")
  | DumpFails => (Unreadable, Py.Raise "OSError")
  end.

(** [register_file_metadata] *)
Definition register_file_metadata (o : WriteOutcome) (project tag filename : string)
    (file : RegistryFile) : RegistryFile * Py.Exc unit :=
  if negb (Py.truthy project && Py.truthy tag && Py.truthy filename) then (file, Py.Ok tt)
  else
    let metadata := load_metadata file in
    let metadata :=
      match metadata !! project with
      | None => <[project := ∅]> metadata
      | Some _ => metadata
      end in
    let metadata := alter (insert filename ({["tag" := tag]} : FileInfo)) project metadata in
    save_metadata o metadata file.

(** The order of [sorted] on strings: by code point, which for UTF-8 is
    the order of the bytes. *)
Definition str_le (s t : string) : Prop := String.leb s t = true.
Definition str_lt (s t : string) : Prop := String.ltb s t = true.

Global Instance str_le_dec : RelDecision str_le.
Proof. intros s t. unfold str_le. apply _. Defined.

Definition sorted (l : list string) : list string := merge_sort str_le l.

(** [get_tags_for_project] *)
Definition get_tags_for_project (file : RegistryFile) (project_name : string)
    : list string :=
  let metadata := load_metadata file in
  let project_data := default ∅ (metadata !! project_name) in
  let tags : gset string :=
    list_to_set (omap (λ file_info : FileInfo, file_info !! "tag")
                      (map_to_list project_data).*2) in
  sorted (elements tags).

(** [get_files_for_project_and_tag] *)
Definition get_files_for_project_and_tag (file : RegistryFile)
    (project_name tag_name : string) : list string :=
  let metadata := load_metadata file in
  let project_data := default ∅ (metadata !! project_name) in
  let files :=
    (base.filter (λ item : string * FileInfo, item.2 !! "tag" = Some tag_name)
                 (map_to_list project_data)).*1 in
  sorted files.

(** The type a file is registered under, if any. *)
Definition tag_of (file : RegistryFile) (project_name filename : string) : option string :=
  load_metadata file !! project_name ≫= (λ project_data : gmap string FileInfo,
    project_data !! filename ≫= (λ file_info : FileInfo, file_info !! "tag")).

(** The repository directory and the registry in it. *)
Record Disk := mkDisk {
  physical : gset string;
  registry : RegistryFile
}.

Section Delete.

(** [os.path.join(self.base_dir, folder_name, filename)] *)
Variable file_path : string → string → string.

(** [delete_file]; [remove_ok] tells whether [os.remove] succeeds when it
    is called. *)
Definition delete_file (remove_ok : bool) (o : WriteOutcome)
    (folder_name filename : string) (d : Disk) : Disk * Py.Exc bool :=
  let path := file_path folder_name filename in
  if bool_decide (path ∈ physical d) && negb remove_ok then (d, Py.Ok false)
  else
    let remaining := physical d ∖ {[path]} in
    let metadata := load_metadata (registry d) in
    match metadata !! folder_name with
    | Some project_data =>
        if bool_decide (is_Some (project_data !! filename)) then
          let project_data := delete filename project_data in
          let metadata :=
            if bool_decide (project_data = ∅) then delete folder_name metadata
            else <[folder_name := project_data]> metadata in
          match save_metadata o metadata (registry d) with
          | (file, Py.Ok _) => ({| physical := remaining; registry := file |}, Py.Ok true)
          | (file, Py.Raise e) =>
              ({| physical := remaining; registry := file |}, Py.Raise e)
          end
        else ({| physical := remaining; registry := registry d |}, Py.Ok true)
    | None => ({| physical := remaining; registry := registry d |}, Py.Ok true)
    end.

End Delete.

End Registry.

(** ** Tables as Markdown (ingestion/processors.py,
       [TableProcessor.table_to_markdown]) *)

Module Table.

Definition newline : Ascii.ascii := Ascii.ascii_of_nat 10.
Definition pipe : Ascii.ascii := Ascii.ascii_of_nat 124.

(** [s.replace(c, replacement)] for a pattern [c] of one character. *)
Fixpoint replace_char (c : Ascii.ascii) (replacement : string) (s : string) : string :=
  match s with
  | EmptyString => EmptyString
  | String a rest =>
      if Ascii.eqb a c then replacement +:+ replace_char c replacement rest
      else String a (replace_char c replacement rest)
  end.

(** [str(cell).replace('\n', '<br>').replace('|', '&#124;') if cell else ""];
    a cell is a string or [None]. *)
Definition clean_cell (cell : option string) : string :=
  match Py.truthy_get cell with
  | Some s => replace_char pipe "&#124;" (replace_char newline "<br>" s)
  | None => ""
  end.

(** [sep.join(l)] *)
Fixpoint join (sep : string) (l : list string) : string :=
  match l with
  | [] => ""
  | [x] => x
  | x :: rest => x +:+ sep +:+ join sep rest
  end.

(** ["| " + " | ".join(cells) + " |"] *)
Definition row_line (cells : list string) : string :=
  "| " +:+ join " | " cells +:+ " |".

(** The body of the loop over [cleaned_data[1:]]. *)
Definition body_row (headers row : list string) : string :=
  let row :=
    if bool_decide (length row < length headers)
    then row ++ replicate (length headers - length row) ""
    else row in
  row_line (take (length headers) row).

(** [table_to_markdown] *)
Definition table_to_markdown (table_data : list (list (option string))) : string :=
  let cleaned_data : list (list string) :=
    (λ row : list (option string), clean_cell <$> row) <$> table_data in
  match cleaned_data with
  | [] => ""
  | headers :: rest =>
      let header_str := row_line headers in
      let separator_str := row_line (replicate (length headers) "---") in
      let body_rows := body_row headers <$> rest in
      String newline (String newline
        (header_str +:+ String newline
           (separator_str +:+ String newline
              (join (String newline "") body_rows +:+ String newline (String newline "")))))
  end.

(** [s.count(c)] and [s.split("\n")], for reading a rendered table. *)
Fixpoint count_char (c : Ascii.ascii) (s : string) : nat :=
  match s with
  | EmptyString => 0
  | String a rest => (if Ascii.eqb a c then 1 else 0) + count_char c rest
  end.

Fixpoint lines (s : string) : list string :=
  match s with
  | EmptyString => [""]
  | String a rest =>
      if Ascii.eqb a newline then "" :: lines rest
      else match lines rest with
           | [] => [String a ""]
           | l :: ls => String a l :: ls
           end
  end.

(** The lines of a text that are not empty. *)
Definition rows (s : string) : list string :=
  base.filter (λ l, l ≠ "") (lines s).

(** A cell text without bars and line breaks. *)
Definition plain (cell : string) : Prop :=
  count_char pipe cell = 0 ∧ count_char newline cell = 0.

End Table.

(** ** The ingestion pipeline, step 2: the metadata of the file
       (etl/pipeline.py, [ETLPipeline.process_file]) *)

Module Intake.

(** [bool(v)] for a metadata value. *)
Definition truthy_value (v : VectorStore.MetaValue) : bool :=
  match v with
  | VectorStore.MNone => false
  | VectorStore.MStr s => Py.truthy s
  | VectorStore.MInt z => negb (z =? 0)%Z
  | VectorStore.MComposite repr => negb (bool_decide (repr = "[]" ∨ repr = "{}"))
  end.

Section Meta.

(** [os.path.splitext(name)[0]] *)
Variable splitext_root : string → string.

(** [meta] as it is handed to the parser and to step 4; [extracted] is
    what the metadata extractor returned, [{}] when it failed or was not
    asked. *)
Definition file_meta (extracted : gmap string VectorStore.MetaValue)
    (display_name : string) (user_project user_tag : option string)
    : gmap string VectorStore.MetaValue :=
  let meta := <["source_file" := VectorStore.MStr display_name]> extracted in
  let meta :=
    match Py.truthy_get user_project with
    | Some project => <["project_name" := VectorStore.MStr project]> meta
    | None =>
        match meta !! "project_name" with
        | Some v =>
            if truthy_value v then meta
            else <["project_name" := VectorStore.MStr (splitext_root display_name)]> meta
        | None => <["project_name" := VectorStore.MStr (splitext_root display_name)]> meta
        end
    end in
  match Py.truthy_get user_tag with
  | Some tag => <["category" := VectorStore.MStr tag]> meta
  | None => meta
  end.

End Meta.

(** The entries of a stored record that a condition on a string can
    match: Chroma compares a string with string values only. *)
Definition string_entries (md : gmap string VectorStore.MetaValue) : gmap string string :=
  omap (λ v, match v with VectorStore.MStr s => Some s | _ => None end) md.

End Intake.

(** ** Concrete data used to exercise the statements *)

Definition scenario_uuid5 : string → string := String.app "uuid-".

(** The chain [c0, c1, c2, c3] of Scenario B. *)
Definition scenario_chain : list Graph.ChunkIn :=
  [ Graph.mkChunkIn "c0" "1"; Graph.mkChunkIn "c1" "1";
    Graph.mkChunkIn "c2" "2"; Graph.mkChunkIn "c3" "2" ].

(** Two lexical and two vector hits that share the chunk id [c2]. *)
Definition fusion_lexical_hits : list Document :=
  [ {| page_content := "excavators: 4"; metadata := {[ "chunk_id" := "c1" ]} |};
    {| page_content := "dump trucks: 10"; metadata := {[ "chunk_id" := "c2" ]} |} ].

Definition fusion_vector_hits : list Document :=
  [ {| page_content := "dump trucks (parent context)"; metadata := {[ "chunk_id" := "c2" ]} |};
    {| page_content := "legacy record without id"; metadata := ∅ |} ].

(** A batch of three vector hits. *)
Definition hybrid_batch : list Hybrid.Candidate :=
  [ Hybrid.mkCandidate "a" "excavators: 4 units" ∅ (7 # 10) "plan.docx" None;
    Hybrid.mkCandidate "b" "dump trucks: 10 units" ∅ (8 # 10) "plan.docx" None;
    Hybrid.mkCandidate "c" "site layout" ∅ (3 # 10) "plan.docx" None ].

(** A batch of one hit. *)
Definition hybrid_lone : Hybrid.Candidate :=
  Hybrid.mkCandidate "a" "挖掘机4台" ∅ (1 # 2) "plan.docx" None.

(** A parent chunk of 801 characters and a child that refers to it. *)
Definition long_parent : VectorStore.IndexableChunk :=
  VectorStore.mkChunk (String.concat "" (replicate 801 "x"))
    {[ "source_file" := VectorStore.MStr "plan.docx" ]} "parent-1" None true.

Definition parent_child_batch : list VectorStore.IndexableChunk :=
  [ long_parent;
    VectorStore.mkChunk "excavators: 4 units"
      {[ "source_file" := VectorStore.MStr "plan.docx"; "page" := VectorStore.MInt 3 ]}
      "child-1" (Some "parent-1") false ].

(** Two chunks of project "P1", and a re-submission of the first. *)
Definition lexical_batch : list BM25.Item :=
  [ BM25.mkItem "excavators: 4 units" {[ "chunk_id" := "c1"; "source_file" := "plan.docx" ]};
    BM25.mkItem "dump trucks: 10 units" {[ "chunk_id" := "c2"; "source_file" := "plan.docx" ]} ].

Definition lexical_resubmit : list BM25.Item :=
  [ BM25.mkItem "excavators: 5 units" {[ "chunk_id" := "c1"; "source_file" := "plan.docx" ]} ].

(** A service with a vector store only.  The store holds three records
    and applies the [where] filter it is given. *)
Definition vector_corpus : list Document :=
  [ {| page_content := "挖掘机4台";
       metadata := {[ "chunk_id" := "a1"; "source_file" := "a.pdf"; "project_name" := "X" ]} |};
    {| page_content := "自卸汽车10辆";
       metadata := {[ "chunk_id" := "b1"; "source_file" := "b.pdf"; "project_name" := "X" ]} |};
    {| page_content := "unrelated";
       metadata := {[ "chunk_id" := "y1"; "source_file" := "y.pdf"; "project_name" := "Y" ]} |} ].

Definition passes (kw : Rag.SearchKwargs) (d : Document) : bool :=
  match Rag.filter kw with
  | Some w => Rag.where_holds w (metadata d)
  | None => true
  end.

Definition filtering_store (kw : Rag.SearchKwargs) (q : string) : Py.Exc (list Document) :=
  Py.Ok (take (Z.to_nat (Rag.k kw)) (filter (λ d, passes kw d = true) vector_corpus)).

Definition vector_only : Rag.Services :=
  {| Rag.vector_store := Some filtering_store;
     Rag.bm25_manager := None;
     Rag.graph_manager := None;
     Rag.reranker := None;
     Rag.rewrite_query := λ q, q;
     Rag.writer_agent := λ _, [];
     Rag.repo_path := λ project src, "data_repository/" +:+ project +:+ "/" +:+ src;
     Rag.run_pandas_agent := λ _ _ _, Py.Ok "";
     Rag.llm_stream := λ _ _ _, (["answer"], None) |}.

(** The same with a lexical index of project "X" that holds a chunk of
    b.pdf. *)
Definition lexical_index (query : string) (projects : list string) (n : nat)
    : Py.Exc (list BM25.Item) :=
  Py.Ok (if bool_decide ("X" ∈ projects)
         then [ BM25.mkItem "自卸汽车10辆"
                  {[ "chunk_id" := "b1"; "source_file" := "b.pdf"; "project_name" := "X" ]} ]
         else []).

Definition with_lexical : Rag.Services :=
  {| Rag.vector_store := Some filtering_store;
     Rag.bm25_manager := Some lexical_index;
     Rag.graph_manager := None;
     Rag.reranker := None;
     Rag.rewrite_query := λ q, q;
     Rag.writer_agent := λ _, [];
     Rag.repo_path := λ project src, "data_repository/" +:+ project +:+ "/" +:+ src;
     Rag.run_pandas_agent := λ _ _ _, Py.Ok "";
     Rag.llm_stream := λ _ _ _, (["answer"], None) |}.

(** Project "X" and, at the same time, the file a.pdf. *)
Definition project_and_file : Rag.FilterConfig :=
  {| Rag.top_k := Some 6%Z; Rag.project := Rag.ScopeStr "X";
     Rag.type_ := Some "所有类型"; Rag.files := Some ["a.pdf"] |}.

(** A service whose vector store returns the chunk [c2] of the chain of
    Scenario B, with the graph store of that chain. *)
Definition scenario_db : Graph.Db :=
  Graph.create_document_structure scenario_uuid5 "tender.docx" scenario_chain Graph.empty_db.

Definition with_graph : Rag.Services :=
  {| Rag.vector_store := Some (λ _ _, Py.Ok
       [ {| page_content := "c2";
            metadata := {[ "chunk_id" := Graph.chunk_id_of scenario_uuid5 "tender.docx" 2;
                           "source_file" := "tender.docx" ]} |} ]);
     Rag.bm25_manager := None;
     Rag.graph_manager := Some (λ cid w, Py.Ok (Graph.get_context_window scenario_db cid w));
     Rag.reranker := None;
     Rag.rewrite_query := λ q, q;
     Rag.writer_agent := λ _, [];
     Rag.repo_path := λ project src, "data_repository/" +:+ project +:+ "/" +:+ src;
     Rag.run_pandas_agent := λ _ _ _, Py.Ok "";
     Rag.llm_stream := λ _ _ _, (["answer"], None) |}.

Definition all_scope : Rag.FilterConfig :=
  {| Rag.top_k := Some 6%Z; Rag.project := Rag.ScopeStr "所有项目";
     Rag.type_ := Some "所有类型"; Rag.files := Some [] |}.

(** A service whose vector store returns a sheet of an Excel workbook. *)
Definition with_excel : Rag.Services :=
  {| Rag.vector_store := Some (λ _ _, Py.Ok
       [ {| page_content := "【表格数据-Sheet1】 设备: 挖掘机; 数量: 4";
            metadata := {[ "chunk_id" := "x1"; "source_file" := "budget.xlsx";
                           "project_name" := "X"; "type" := "table"; "page" := "Sheet1" ]} |} ]);
     Rag.bm25_manager := None;
     Rag.graph_manager := None;
     Rag.reranker := None;
     Rag.rewrite_query := λ q, q;
     Rag.writer_agent := λ _, [];
     Rag.repo_path := λ project src, "data_repository/" +:+ project +:+ "/" +:+ src;
     Rag.run_pandas_agent := λ _ _ _, Py.Ok "4";
     Rag.llm_stream := λ _ _ _, (["answer"], None) |}.

(** Two records of the collection as a vector query returns them, the
    first one a child chunk stored with its parent's text. *)
Definition retriever_hits : list Retriever.Hit :=
  [ {| Retriever.hit_id := "child-1";
       Retriever.hit_document := "excavators: 4 units";
       Retriever.hit_metadata :=
         {[ "full_context" := "Chapter 3. Earthworks. excavators: 4 units";
            "source_file" := "a.pdf"; "type" := "text" ]};
       Retriever.hit_distance := 1 # 4 |};
    {| Retriever.hit_id := "c-2";
       Retriever.hit_document := "dump trucks: 10 units";
       Retriever.hit_metadata := {[ "source_file" := "b.pdf"; "type" := "text" ]};
       Retriever.hit_distance := 1 # 10 |} ].

(** A collection that answers every query with the records its filter
    accepts, nearest first. *)
Definition retriever_store (query : string) (n_results : Z)
    (f : option Retriever.ChromaFilter) : Py.Exc (list Retriever.Hit) :=
  Py.Ok (take (Z.to_nat n_results)
           (filter (λ h, Retriever.accepts f (Retriever.hit_metadata h) = true)
                   retriever_hits)).

(** Lexical scores and a cross-encoder for the scenarios: the number of
    characters of the text. *)
Definition text_scores (query : string) (docs : list string) : list Q :=
  (λ d, inject_Z (Z.of_nat (String.length d))) <$> docs.

Definition text_length_model (query passage : string) : Q :=
  inject_Z (Z.of_nat (String.length passage)).

Definition text_length_encoder (pairs : list (string * string)) : Py.Exc (list Q) :=
  Py.Ok ((λ p, text_length_model p.1 p.2) <$> pairs).

(** Three chapters whose futures complete out of order. *)
Definition workshop_chapters : list string := ["1 Overview"; "2 Earthworks"; "3 Schedule"].

Definition workshop_completions : list Writer.Completion :=
  [ Writer.mkCompletion "3 Schedule" (Py.Ok "Eighteen months.") true;
    Writer.mkCompletion "1 Overview" (Py.Ok "A reservoir.") true;
    Writer.mkCompletion "2 Earthworks" (Py.Ok "Four excavators.") true ].

(** Three parsed chunks, the second of which is too short to be kept. *)
Definition parsed_chunks : list VectorStore.IndexableChunk :=
  [ VectorStore.mkChunk "Chapter 1. A reservoir." {[ "type" := VectorStore.MStr "text" ]}
      "u-1" None false;
    VectorStore.mkChunk "p. 2" {[ "type" := VectorStore.MStr "text" ]} "u-2" None false;
    VectorStore.mkChunk "Four excavators." {[ "type" := VectorStore.MStr "text" ]}
      "u-3" None false ].

(** A registry with two files of one project. *)
Definition registry_scenario : Registry.RegistryFile :=
  Registry.Holds
    {[ "P1" := {[ "a.pdf" := {[ "tag" := "contract" ]};
                  "b.pdf" := {[ "tag" := "tender" ]} ]} ]}.

(** * Properties *)

(** ** Python idioms *)

Lemma truthy_get_Some o s : Py.truthy_get o = Some s → o = Some s ∧ s ≠ "".
Proof.
  destruct o as [s'|]; simpl; [|done].
  unfold Py.truthy. case_bool_decide; simpl; [done|].
  by intros [= ->].
Qed.

Lemma slice_to_nonneg {A : Type} (l : list A) (k : Z) :
  (0 <= k)%Z → Py.slice_to l k = take (Z.to_nat k) l.
Proof. intros Hk. unfold Py.slice_to. by rewrite (proj2 (Z.leb_le 0 k) Hk). Qed.

(** ** Fusion: the loop computes first-seen-wins de-duplication *)

Section FusionFacts.
Import Fusion.

Lemma dedup_key_tagged tag d : dedup_key (set_source_method tag d) = dedup_key d.
Proof.
  unfold dedup_key, set_source_method; simpl.
  by rewrite lookup_insert_ne.
Qed.

(** [visit] in terms of the key. *)
Lemma visit_key slot st d :
  visit slot st d =
    if bool_decide (dedup_key d ∈ unique_ids st) then st
    else keep slot st d (dedup_key d).
Proof. unfold visit, dedup_key. by destruct (Py.truthy_get _). Qed.

Lemma first_seen_app seen l1 l2 :
  first_seen seen (l1 ++ l2) =
    first_seen seen l1 ++ first_seen (seen ∪ keys l1) l2.
Proof.
  revert seen. induction l1 as [|d l1 IH]; intros seen; simpl.
  - f_equal. unfold keys. set_solver.
  - case_bool_decide as Hd.
    + rewrite IH. do 2 f_equal. unfold keys. simpl. set_solver.
    + rewrite IH. simpl. do 3 f_equal. unfold keys. simpl. set_solver.
Qed.

Lemma first_seen_subseteq seen l d :
  d ∈ first_seen seen l → d ∈ l ∧ dedup_key d ∉ seen.
Proof.
  revert seen. induction l as [|x l IH]; intros seen; simpl; [by intros ?%elem_of_nil|].
  case_bool_decide as Hx.
  - intros [??]%IH. split; [by right|done].
  - intros [->|[??]%IH]%elem_of_cons; [split; [by left|done]|].
    split; [by right|set_solver].
Qed.

Lemma first_seen_keys seen l :
  seen ∪ keys (first_seen seen l) = seen ∪ keys l.
Proof.
  revert seen. induction l as [|x l IH]; intros seen; simpl; [done|].
  case_bool_decide as Hx.
  - rewrite IH. unfold keys. simpl. set_solver.
  - unfold keys in *. simpl. specialize (IH (seen ∪ {[dedup_key x]})). set_solver.
Qed.

Lemma first_seen_NoDup seen l : NoDup (dedup_key <$> first_seen seen l).
Proof.
  revert seen. induction l as [|x l IH]; intros seen; simpl; [constructor|].
  case_bool_decide as Hx; [apply IH|].
  simpl. constructor; [|apply IH].
  intros (y & Hy & Hin)%list_elem_of_fmap.
  apply first_seen_subseteq in Hin as [_ Hin]. set_solver.
Qed.

(** The lexical phase: objects [length pre ..] of [bm25_docs] are still
    untouched when the loop reaches them. *)
Lemma bm25_phase rest : ∀ pre st,
  bm25_docs st = pre ++ rest →
  foldl visit_bm25 st (seq (length pre) (length rest)) =
    {| bm25_docs := pre ++ marked (unique_ids st) rest;
       unique_ids := unique_ids st ∪ keys rest;
       initial_docs := initial_docs st ++
         (set_source_method "BM25" <$> first_seen (unique_ids st) rest) |}.
Proof.
  induction rest as [|d rest IH]; intros pre st Hst; simpl.
  - destruct st as [b u i]; simpl in *. f_equal; [done|unfold keys; set_solver|by rewrite app_nil_r].
  - assert (bm25_docs st !! length pre = Some d) as Hd.
    { rewrite Hst. by rewrite list_lookup_middle. }
    unfold visit_bm25 at 2. rewrite Hd, visit_key.
    case_bool_decide as Hk.
    + specialize (IH (pre ++ [d]) st).
      rewrite length_app in IH; simpl in IH. rewrite Nat.add_1_r in IH.
      rewrite IH by (by rewrite <- app_assoc).
      f_equal; [by rewrite <- app_assoc|unfold keys; simpl; set_solver].
    + set (d' := set_source_method "BM25" d).
      assert (keep (Some (length pre)) st d (dedup_key d) =
        {| bm25_docs := (pre ++ [d']) ++ rest;
           unique_ids := unique_ids st ∪ {[dedup_key d]};
           initial_docs := initial_docs st ++ [d'] |}) as ->.
      { unfold keep, provenance. simpl. f_equal.
        rewrite Hst. rewrite <- app_assoc. simpl.
        replace (length pre) with (length pre + 0) at 1 by lia.
        by rewrite insert_app_r. }
      match goal with |- foldl _ ?s _ = _ => specialize (IH (pre ++ [d']) s) end.
      rewrite length_app in IH; simpl in IH. rewrite Nat.add_1_r in IH.
      rewrite IH by done. simpl.
      f_equal.
      * by rewrite <- app_assoc.
      * unfold keys; simpl; set_solver.
      * by rewrite <- app_assoc.
Qed.

Lemma marked_keys seen l x :
  x ∈ marked seen l → dedup_key x ∈ keys l.
Proof.
  revert seen. unfold keys.
  induction l as [|d l IH]; intros seen; simpl; [by intros ?%elem_of_nil|].
  case_bool_decide.
  - intros [->|?%IH]%elem_of_cons; set_solver.
  - intros [->|?%IH]%elem_of_cons; [rewrite dedup_key_tagged|]; set_solver.
Qed.

(** The vector phase: a document that is new is never equal to a lexical
    object, so its tag is "Vector". *)
Lemma vector_phase vector : ∀ st,
  (∀ x, x ∈ bm25_docs st → dedup_key x ∈ unique_ids st) →
  foldl (visit None) st vector =
    {| bm25_docs := bm25_docs st;
       unique_ids := unique_ids st ∪ keys vector;
       initial_docs := initial_docs st ++
         (set_source_method "Vector" <$> first_seen (unique_ids st) vector) |}.
Proof.
  induction vector as [|d vector IH]; intros st Hinv; simpl.
  - destruct st as [b u i]; simpl. f_equal; [unfold keys; set_solver|by rewrite app_nil_r].
  - rewrite visit_key. case_bool_decide as Hk.
    + rewrite IH by done. f_equal. unfold keys; simpl; set_solver.
    + assert (keep None st d (dedup_key d) =
        {| bm25_docs := bm25_docs st;
           unique_ids := unique_ids st ∪ {[dedup_key d]};
           initial_docs := initial_docs st ++ [set_source_method "Vector" d] |}) as ->.
      { unfold keep, provenance.
        rewrite (bool_decide_eq_false_2 (is_Some None)) by (by intros [? ?]).
        rewrite (bool_decide_eq_false_2 (d ∈ bm25_docs st)); [done|].
        intros Hin. apply Hk. by apply Hinv. }
      rewrite IH; simpl.
      * f_equal; [unfold keys; simpl; set_solver|by rewrite <- app_assoc].
      * intros x Hx. apply Hinv in Hx. set_solver.
Qed.

(** The loop of step 3.4 as a function on values. *)
Lemma fuse_eq bm25 vector :
  fuse bm25 vector =
    (set_source_method "BM25" <$> first_seen ∅ bm25) ++
    (set_source_method "Vector" <$> first_seen (keys bm25) vector).
Proof.
  unfold fuse, fuse_state.
  pose proof (bm25_phase bm25 [] {| bm25_docs := bm25; unique_ids := ∅; initial_docs := [] |} eq_refl) as H1.
  simpl in H1. cbv zeta. rewrite H1.
  rewrite vector_phase; simpl.
  - do 3 f_equal. set_solver.
  - intros x Hx%marked_keys. set_solver.
Qed.

Lemma first_seen_length seen l :
  NoDup (dedup_key <$> l) →
  length (first_seen seen l) + size (seen ∩ keys l) = length l.
Proof.
  revert seen. unfold keys.
  induction l as [|d l IH]; intros seen Hnd.
  - cbn. replace (seen ∩ ∅) with (∅ : gset string) by set_solver.
    by rewrite size_empty.
  - rewrite fmap_cons in Hnd. apply NoDup_cons in Hnd as [Hd Hnd].
    rewrite fmap_cons, list_to_set_cons.
    set (K := list_to_set (dedup_key <$> l) : gset string) in *.
    assert (dedup_key d ∉ K) as Hd' by (by subst K; rewrite elem_of_list_to_set).
    cbn [first_seen length]. case_bool_decide as Hk.
    + replace (seen ∩ ({[dedup_key d]} ∪ K)) with ({[dedup_key d]} ∪ (seen ∩ K))
        by set_solver.
      rewrite size_union by set_solver. rewrite size_singleton.
      specialize (IH seen Hnd). lia.
    + replace (seen ∩ ({[dedup_key d]} ∪ K)) with ((seen ∪ {[dedup_key d]}) ∩ K)
        by set_solver.
      specialize (IH (seen ∪ {[dedup_key d]}) Hnd). cbn [length]. lia.
Qed.

Lemma first_seen_elem seen l d :
  NoDup (dedup_key <$> l) →
  d ∈ first_seen seen l ↔ d ∈ l ∧ dedup_key d ∉ seen.
Proof.
  intros Hnd. split; [apply first_seen_subseteq|].
  revert seen Hnd. induction l as [|x l IH]; intros seen Hnd [Hin Hk]; simpl.
  - by apply elem_of_nil in Hin.
  - apply NoDup_cons in Hnd as [Hx Hnd].
    apply elem_of_cons in Hin as [->|Hin].
    + rewrite bool_decide_eq_false_2 by done. by left.
    + assert (dedup_key d ≠ dedup_key x) as Hne.
      { intros Heq. apply Hx. rewrite <- Heq. by apply list_elem_of_fmap_2. }
      case_bool_decide; [by apply IH|].
      right. apply IH; [done|]. split; [done|set_solver].
Qed.

Lemma dedup_key_inj_on l a b :
  NoDup (dedup_key <$> l) → a ∈ l → b ∈ l → dedup_key a = dedup_key b → a = b.
Proof.
  induction l as [|x l IH]; intros Hnd Ha Hb Heq; [by apply elem_of_nil in Ha|].
  apply NoDup_cons in Hnd as [Hx Hnd].
  apply elem_of_cons in Ha as [->|Ha]; apply elem_of_cons in Hb as [->|Hb]; auto.
  - exfalso. apply Hx. rewrite Heq. by apply list_elem_of_fmap_2.
  - exfalso. apply Hx. rewrite <- Heq. by apply list_elem_of_fmap_2.
Qed.

End FusionFacts.

(** ** C3: size and provenance of the fused list *)



(** ** Knowledge graph: the window query on a chain *)

Lemma omap_fmap_pre {A B C : Type} (f : B → option C) (g : A → B) (l : list A) :
  omap f (g <$> l) = omap (f ∘ g) l.
Proof. induction l as [|x l IH]; [done|]. cbn. rewrite IH. done. Qed.

Lemma omap_reverse {A B : Type} (f : A → option B) (l : list A) :
  omap f (reverse l) = reverse (omap f l).
Proof.
  induction l as [|x l IH]; [done|].
  rewrite reverse_cons, omap_app, IH. cbn [omap list_omap].
  destruct (f x); [by rewrite reverse_cons|by rewrite app_nil_r].
Qed.

Lemma omap_lookup_seq {A : Type} (l : list A) n : ∀ a,
  omap (λ j, l !! j) (seq a n) = take n (drop a l).
Proof.
  induction n as [|n IH]; intros a; cbn; [done|].
  rewrite IH. destruct (l !! a) as [x|] eqn:Hx.
  - by rewrite (drop_S l x a).
  - apply lookup_ge_None in Hx.
    rewrite (drop_ge l a), (drop_ge l (S a)) by lia. by rewrite take_nil.
Qed.

Lemma countdown_seq j m :
  m ≤ j → (λ a, j - 1 - a) <$> seq 0 m = reverse (seq (j - m) m).
Proof.
  revert j. induction m as [|m IH]; intros j Hm; [done|].
  rewrite (seq_S m (j - S m)), reverse_snoc. cbn [seq fmap list_fmap]. f_equal; [lia|].
  rewrite <- fmap_S_seq, <- list_fmap_compose.
  replace (j - S m) with (j - 1 - m) by lia. rewrite <- IH by lia.
  apply list_fmap_ext. intros ? a _. cbn. lia.
Qed.

Lemma remove_dups_replicate_app {A : Type} `{EqDecision A} (x : A) m (l : list A) :
  x ∉ l → remove_dups (replicate (S m) x ++ l) = x :: remove_dups l.
Proof.
  intros Hx. induction m as [|m IH].
  - cbn. by case_decide.
  - cbn [replicate app remove_dups]. case_decide as Hin; [exact IH|].
    exfalso. apply Hin. cbn. left.
Qed.

Lemma remove_dups_covered {A : Type} `{EqDecision A} (l1 l2 : list A) :
  (∀ x, x ∈ l1 → x ∈ l2) → remove_dups (l1 ++ l2) = remove_dups l2.
Proof.
  induction l1 as [|x l1 IH]; intros H; [done|].
  cbn [app remove_dups]. case_decide as Hin.
  - apply IH. intros y Hy. apply H. by right.
  - exfalso. apply Hin. apply elem_of_app. right. apply H. by left.
Qed.

Lemma remove_dups_NoDup_id {A : Type} `{EqDecision A} (l : list A) :
  NoDup l → remove_dups l = l.
Proof.
  induction 1 as [|x l Hx _ IH]; [done|].
  cbn. case_decide; [done|]. by rewrite IH.
Qed.

(** *** Ordering of the rows of a window *)

Section RowOrder.
Import Graph ChainView.


Lemma index_le_refl a : index_le a a = true.
Proof. destruct a; cbn; [|done]. by rewrite bool_decide_eq_true_2. Qed.

Lemma index_le_total a b : index_le a b = true ∨ index_le b a = true.
Proof.
  destruct a, b; cbn; auto.
  destruct (decide (index n ≤ index n0)).
  - left. by rewrite bool_decide_eq_true_2.
  - right. rewrite bool_decide_eq_true_2; [done|lia].
Qed.

Lemma index_le_trans a b c :
  index_le a b = true → index_le b c = true → index_le a c = true.
Proof.
  destruct a, b, c; cbn; try done.
  rewrite !bool_decide_eq_true. lia.
Qed.

Lemma rows_le_total a b : rows_le a b ∨ rows_le b a.
Proof.
  unfold rows_le, row_le.
  destruct (index_le_total (prev a) (prev b)) as [H|H];
    destruct (index_le_total (next a) (next b)) as [H'|H'];
    rewrite ?H, ?H';
    destruct (index_le (prev b) (prev a)) eqn:E1;
    destruct (index_le (prev a) (prev b)) eqn:E2;
    rewrite ?H, ?H'; auto; try done.
Qed.

Lemma rows_le_trans a b c : rows_le a b → rows_le b c → rows_le a c.
Proof.
  unfold rows_le, row_le.
  destruct (index_le (prev a) (prev b)) eqn:Eab; [|done].
  destruct (index_le (prev b) (prev c)) eqn:Ebc; [|by destruct (index_le (prev b) (prev a))].
  rewrite (index_le_trans _ _ _ Eab Ebc).
  destruct (index_le (prev c) (prev a)) eqn:Eca; [|done].
  rewrite (index_le_trans _ _ _ Ebc Eca), (index_le_trans _ _ _ Eca Eab).
  apply index_le_trans.
Qed.

Lemma insert_row_Permutation r l : insert_row r l ≡ₚ r :: l.
Proof.
  induction l as [|x l IH]; [done|]. cbn.
  destruct (row_le r x); [done|]. rewrite IH. apply Permutation_swap.
Qed.

Lemma insert_row_sorted r l :
  StronglySorted rows_le l → StronglySorted rows_le (insert_row r l).
Proof.
  induction 1 as [|x l Hl IH Hx]; cbn.
  - repeat constructor.
  - destruct (row_le r x) eqn:Hrx.
    + constructor; [by constructor|]. constructor; [done|].
      eapply Forall_impl; [exact Hx|]. intros y Hy. by eapply rows_le_trans.
    + constructor; [done|].
      rewrite insert_row_Permutation. constructor; [|done].
      destruct (rows_le_total r x) as [H|H]; [|done].
      unfold rows_le in H. congruence.
Qed.

Lemma order_rows_Permutation l : order_rows l ≡ₚ l.
Proof.
  induction l as [|x l IH]; [done|]. cbn.
  by rewrite insert_row_Permutation, IH.
Qed.

Lemma order_rows_sorted l : StronglySorted rows_le (order_rows l).
Proof.
  induction l as [|x l IH]; cbn; [constructor|by apply insert_row_sorted].
Qed.



Lemma product_sorted t ps ns :
  StronglySorted index_lt ps →
  StronglySorted (λ a b, index_le a b = true) ns →
  StronglySorted rows_le (product t ps ns).
Proof.
  intros Hps Hns. unfold product.
  induction Hps as [|p ps Hps IH Hp]; cbn; [constructor|].
  apply StronglySorted_app_2; [| |exact IH].
  - intros x1 x2 (n1 & ->%list_elem_of_singleton & _)%list_elem_of_bind
      (p' & (n2 & ->%list_elem_of_singleton & _)%list_elem_of_bind & Hp')%list_elem_of_bind.
    rewrite Forall_forall in Hp. destruct (Hp p' Hp') as [H1 H2].
    unfold rows_le, row_le. cbn. by rewrite H1, H2.
  - clear -Hns. induction Hns as [|n ns Hns IH Hn]; cbn; [constructor|].
    constructor; [exact IH|].
    apply Forall_forall. intros x (n' & ->%list_elem_of_singleton & Hn')%list_elem_of_bind.
    rewrite Forall_forall in Hn.
    unfold rows_le, row_le. cbn. rewrite index_le_refl. by apply Hn.
Qed.

Lemma omap_prev_block p t ns :
  omap prev (n ← ns; [ {| prev := p; target := t; next := n |} ]) =
    match p with Some x => replicate (length ns) x | None => [] end.
Proof.
  induction ns as [|n ns IH]; [by destruct p|].
  rewrite bind_cons, omap_app, IH. by destruct p.
Qed.

Lemma omap_next_block p t ns :
  omap next (n ← ns; [ {| prev := p; target := t; next := n |} ]) = omap (λ n, n) ns.
Proof.
  induction ns as [|n ns IH]; [done|].
  rewrite bind_cons, omap_app, IH. by destruct n.
Qed.

Lemma omap_or_null {A : Type} (l : list A) : omap (λ n, n) (or_null l) = l.
Proof.
  destruct l as [|x l]; [done|]. unfold or_null.
  generalize (x :: l). intros l'. induction l' as [|y l' IH]; [done|].
  cbn. f_equal. exact IH.
Qed.

Lemma prev_chunks_product t ps ns :
  NoDup ps → prev_chunks (product t (or_null ps) (or_null ns)) = ps.
Proof.
  intros Hps. unfold prev_chunks, product.
  destruct ps as [|p0 ps0]; [|set (ps := p0 :: ps0) in *].
  - cbn [or_null]. rewrite bind_singleton, omap_prev_block. done.
  - assert (or_null ps = Some <$> ps) as -> by done. clearbody ps.
    assert (∃ m, length (or_null ns) = S m) as [m Hm].
    { destruct ns; cbn; eauto. }
    induction Hps as [|x ps Hx Hps IH]; [done|].
    rewrite fmap_cons, bind_cons, omap_app, omap_prev_block, Hm.
    rewrite remove_dups_replicate_app; [by rewrite IH|].
    intros (r & (p' & Hr & (y & -> & Hy)%list_elem_of_fmap)%list_elem_of_bind & Ho)%list_elem_of_omap.
    apply list_elem_of_bind in Hr as (n & ->%list_elem_of_singleton & _).
    cbn in Ho. by injection Ho as ->.
Qed.

Lemma next_chunks_product t ps ns :
  NoDup ns → next_chunks (product t (or_null ps) (or_null ns)) = ns.
Proof.
  intros Hns. unfold next_chunks, product.
  assert (∃ p0 ps0, or_null ps = p0 :: ps0) as (p0 & ps0 & ->).
  { destruct ps; cbn; eauto. }
  revert p0. induction ps0 as [|p1 ps0 IH]; intros p0.
  - rewrite bind_singleton, omap_next_block, omap_or_null.
    by apply remove_dups_NoDup_id.
  - rewrite bind_cons, omap_app, remove_dups_covered; [apply IH|].
    intros x. rewrite omap_next_block, omap_or_null. intros Hx.
    rewrite bind_cons, omap_app, omap_next_block, omap_or_null.
    apply elem_of_app. by left.
Qed.

End RowOrder.

(** *** The chain written by [create_document_structure] *)

Section ChainFacts.
Import Graph ChainView.

Variable uuid5 : string → string.
Variable filename : string.
Hypothesis uuid5_inj : ∀ s t, uuid5 s = uuid5 t → s = t.
Hypothesis uuid5_nonempty : ∀ s, uuid5 s ≠ "".

Local Abbreviation cid := (chunk_id_of uuid5 filename).
Local Abbreviation edge := (λ a, (cid a, cid (S a))).

Lemma cid_inj i j : cid i = cid j → i = j.
Proof.
  unfold chunk_id_of. intros H%uuid5_inj.
  apply (inj (String.app filename)) in H.
  apply (inj (String.app "_")) in H.
  by apply (inj pretty) in H.
Qed.

Lemma edge_inj a b : edge a = edge b → a = b.
Proof. intros [= H _]. by apply cid_inj. Qed.

Lemma truthy_cid i : Py.truthy_get (Some (cid i)) = Some (cid i).
Proof.
  simpl. unfold Py.truthy. rewrite bool_decide_eq_false_2; [done|].
  apply uuid5_nonempty.
Qed.

Lemma create_chain_from_spec cs : ∀ p db,
  is_Some (chunks db !! cid p) →
  (∀ a, p ≤ a → edge a ∉ next_rel db) →
  let R := create_chain_from uuid5 filename (S p) (Some (cid p)) cs db in
  next_rel R = next_rel db ++ (edge <$> seq p (length cs))
  ∧ (∀ j c, cs !! j = Some c →
       chunks R !! cid (S p + j) = Some (node_of uuid5 filename (S p + j) c))
  ∧ (∀ x, (∀ j, j < length cs → x ≠ cid (S p + j)) → chunks R !! x = chunks db !! x).
Proof.
  induction cs as [|c cs IH]; intros p db Hp Hfresh; cbn zeta.
  - cbn. split_and!; [by rewrite app_nil_r| |done].
    intros j c Hj. by apply lookup_nil_Some in Hj || inversion Hj.
  - cbn [create_chain_from]. rewrite truthy_cid.
    set (n := {| id := cid (S p); text := content c; page := in_page c; index := S p |}).
    assert (merge_next (cid p) (cid (S p)) (merge_chunk n db) =
      {| chunks := <[cid (S p) := n]> (chunks db);
         next_rel := next_rel db ++ [edge p] |}) as ->.
    { unfold merge_next, merge_chunk. cbn.
      rewrite bool_decide_eq_true_2.
      - rewrite bool_decide_eq_false_2; [done|]. by apply Hfresh.
      - split; [|by rewrite lookup_insert_eq].
        destruct (decide (cid (S p) = cid p)) as [->|Hne];
          [by rewrite lookup_insert_eq|by rewrite lookup_insert_ne]. }
    match goal with |- context [create_chain_from _ _ _ _ _ ?d] => set (db2 := d) end.
    destruct (IH (S p) db2) as (IH1 & IH2 & IH3).
    { subst db2; cbn. by rewrite lookup_insert_eq. }
    { intros a Ha. subst db2; cbn. rewrite elem_of_app, list_elem_of_singleton.
      intros [Hin|Heq%edge_inj]; [|lia]. apply (Hfresh a); [lia|done]. }
    split_and!.
    + rewrite IH1. subst db2; cbn. by rewrite <- app_assoc.
    + intros [|j] c' Hj.
      * injection Hj as <-. rewrite IH3.
        -- subst db2; cbn. rewrite Nat.add_0_r. by rewrite lookup_insert_eq.
        -- intros j _ Heq%cid_inj. lia.
      * cbn in Hj. specialize (IH2 j c' Hj).
        replace (S p + S j) with (S (S p) + j) by lia. done.
    + intros x Hx. rewrite IH3.
      * subst db2; cbn. rewrite lookup_insert_ne; [done|].
        intros Heq. apply (Hx 0); [cbn; lia|]. by rewrite Nat.add_0_r.
      * intros j Hj. replace (S (S p) + j) with (S p + S j) by lia.
        apply Hx. cbn. lia.
Qed.


Local Abbreviation build cs := (create_document_structure uuid5 filename cs empty_db).

Lemma chain_db_spec cs :
  next_rel (build cs) = edge <$> seq 0 (length cs - 1)
  ∧ (∀ j c, cs !! j = Some c → chunks (build cs) !! cid j = Some (node_of uuid5 filename j c))
  ∧ (∀ x, (∀ j, j < length cs → x ≠ cid j) → chunks (build cs) !! x = None).
Proof.
  unfold create_document_structure. destruct cs as [|c cs]; [done|].
  cbn [create_chain_from Py.truthy_get].
  set (db1 := merge_chunk _ empty_db).
  destruct (create_chain_from_spec cs 0 db1) as (H1 & H2 & H3).
  { subst db1; cbn. by rewrite lookup_insert_eq. }
  { intros a _. subst db1; cbn. apply not_elem_of_nil. }
  split_and!.
  - rewrite H1. subst db1; cbn. by rewrite Nat.sub_0_r.
  - intros [|j] c' Hj.
    + injection Hj as <-. rewrite H3.
      * subst db1; cbn. by rewrite lookup_insert_eq.
      * intros j _ Heq%cid_inj. lia.
    + cbn in Hj. by apply (H2 j c').
  - intros x Hx. rewrite H3.
    + subst db1; cbn. rewrite lookup_insert_ne; [done|].
      intros Heq. apply (Hx 0); [cbn; lia|done].
    + intros j Hj. apply (Hx (S j)). cbn. lia.
Qed.

Lemma omap_edges_at (F : nat → option string) j s n :
  (∀ a, a ≠ j → F a = None) →
  omap F (seq s n) = if bool_decide (s ≤ j < s + n) then option_list (F j) else [].
Proof.
  intros Hf. revert s. induction n as [|n IH]; intros s; cbn.
  - rewrite bool_decide_eq_false_2 by lia. done.
  - rewrite IH. destruct (decide (s = j)) as [->|Hne].
    + rewrite bool_decide_eq_false_2 by lia.
      rewrite bool_decide_eq_true_2 by lia.
      destruct (F j); cbn; done.
    + rewrite Hf by done.
      destruct (decide (S s ≤ j < S s + n)).
      * rewrite !bool_decide_eq_true_2 by lia. done.
      * rewrite !bool_decide_eq_false_2 by lia. done.
Qed.

Lemma successors_chain cs j :
  successors (build cs) (cid j) = if bool_decide (S j < length cs) then [cid (S j)] else [].
Proof.
  unfold successors. destruct (chain_db_spec cs) as (-> & _ & _).
  rewrite omap_fmap_pre, (omap_edges_at _ j).
  - cbn. rewrite (bool_decide_eq_true_2 (cid j = cid j)) by done. cbn.
    destruct (decide (S j < length cs)).
    + rewrite !bool_decide_eq_true_2 by lia. done.
    + rewrite !bool_decide_eq_false_2 by lia. done.
  - intros a Ha. cbn. rewrite bool_decide_eq_false_2; [done|].
    intros Heq%cid_inj. done.
Qed.

Lemma predecessors_chain cs j :
  j < length cs →
  predecessors (build cs) (cid j) = match j with 0 => [] | S j' => [cid j'] end.
Proof.
  intros Hj. unfold predecessors. destruct (chain_db_spec cs) as (-> & _ & _).
  rewrite omap_fmap_pre.
  destruct j as [|j'].
  - rewrite (omap_edges_at _ (length cs)).
    + rewrite bool_decide_eq_false_2 by lia. done.
    + intros a _. cbn. rewrite bool_decide_eq_false_2; [done|]. intros Heq%cid_inj. lia.
  - rewrite (omap_edges_at _ j').
    + rewrite bool_decide_eq_true_2 by lia. cbn.
      rewrite bool_decide_eq_true_2 by done. done.
    + intros a Ha. cbn. rewrite bool_decide_eq_false_2; [done|]. intros Heq%cid_inj. lia.
Qed.

Lemma paths_forward_chain cs k : ∀ j used,
  (∀ e, e ∈ used → ∃ a, a < j ∧ e.1 = cid a) →
  paths_forward (build cs) k used (cid j) =
    cid <$> seq (S j) (k `min` (length cs - 1 - j)).
Proof.
  induction k as [|k IH]; intros j used Hused; [done|].
  cbn [paths_forward]. rewrite successors_chain.
  case_bool_decide as Hj.
  - cbn [flat_map]. rewrite app_nil_r, bool_decide_eq_false_2.
    + rewrite IH.
      * replace (S k `min` (length cs - 1 - j)) with (S (k `min` (length cs - 1 - S j))) by lia.
        reflexivity.
      * intros e [->|He]%elem_of_cons; [exists j; split; [lia|done]|].
        destruct (Hused e He) as (a & ? & ?). exists a. split; [lia|done].
    + intros (a & Ha & Heq%cid_inj)%Hused. lia.
  - replace (S k `min` (length cs - 1 - j)) with 0 by lia. done.
Qed.

Lemma paths_backward_chain cs k : ∀ j used,
  j < length cs →
  (∀ e, e ∈ used → ∃ a, j < a ∧ e.2 = cid a) →
  paths_backward (build cs) k used (cid j) =
    (λ a, cid (j - 1 - a)) <$> seq 0 (k `min` j).
Proof.
  induction k as [|k IH]; intros j used Hj Hused; [done|].
  cbn [paths_backward]. rewrite predecessors_chain by done.
  destruct j as [|j'].
  - by rewrite Nat.min_0_r.
  - cbn [flat_map]. rewrite app_nil_r, bool_decide_eq_false_2.
    + rewrite IH.
      * replace (S k `min` S j') with (S (k `min` j')) by lia.
        cbn [seq fmap list_fmap]. f_equal; [f_equal; lia|].
        rewrite <- fmap_S_seq, <- list_fmap_compose.
        apply list_fmap_ext. intros ? a _. cbn. f_equal. lia.
      * lia.
      * intros e [->|He]%elem_of_cons; [exists (S j'); split; [lia|done]|].
        destruct (Hused e He) as (a & ? & ?). exists a. split; [lia|done].
    + intros (a & Ha & Heq%cid_inj)%Hused. lia.
Qed.

Lemma paths_backward_chain_rev cs k j :
  j < length cs →
  paths_backward (build cs) k [] (cid j) =
    cid <$> reverse (seq (j - k `min` j) (k `min` j)).
Proof.
  intros Hj. rewrite paths_backward_chain; [|done|by intros e ?%elem_of_nil].
  rewrite <- countdown_seq by lia. by rewrite <- list_fmap_compose.
Qed.

Local Abbreviation nodes cs := (chain_nodes uuid5 filename cs).



Lemma lookup_cid cs j : chunks (build cs) !! cid j = nodes cs !! j.
Proof.
  destruct (chain_db_spec cs) as (_ & H2 & H3).
  unfold chain_nodes. rewrite list_lookup_imap.
  destruct (cs !! j) as [c|] eqn:Hj; cbn.
  - by apply H2.
  - apply H3. intros j' Hj' Heq%cid_inj. subst j'.
    apply lookup_ge_None in Hj. lia.
Qed.

Lemma optional_match_cids cs js :
  optional_match (build cs) (cid <$> js) = or_null (omap (λ j, nodes cs !! j) js).
Proof.
  unfold optional_match, or_null. rewrite omap_fmap_pre.
  replace (omap ((λ y, chunks (build cs) !! y) ∘ cid) js)
    with (omap (λ j, nodes cs !! j) js); [by destruct (omap _ js)|].
  induction js as [|j js IH]; [done|]. cbn. by rewrite IH, lookup_cid.
Qed.

Lemma nodes_index cs j x : nodes cs !! j = Some x → index x = j.
Proof.
  unfold chain_nodes. rewrite list_lookup_imap.
  destruct (cs !! j); cbn; [|done]. by intros [= <-].
Qed.


Lemma stretch_before cs i w : stretch (nodes cs) (before i w (nodes cs)).
Proof.
  exists (i - i `min` w). intros j x. unfold before.
  intros [Hx _]%lookup_take_Some. by rewrite lookup_drop in Hx.
Qed.

Lemma stretch_after cs i w : stretch (nodes cs) (after i w (nodes cs)).
Proof.
  exists (S i). intros j x. unfold after.
  intros [Hx _]%lookup_take_Some. by rewrite lookup_drop in Hx.
Qed.

Lemma stretch_sorted cs l :
  stretch (nodes cs) l → StronglySorted (λ a b, index a < index b) l.
Proof.
  intros [a Ha]. revert a Ha. induction l as [|x l IH]; intros a Ha; [constructor|].
  constructor.
  - apply (IH (S a)). intros j y Hy. replace (S a + j) with (a + S j) by lia.
    by apply Ha.
  - apply Forall_forall. intros y [j Hj]%list_elem_of_lookup.
    pose proof (Ha 0 x eq_refl) as Hx%nodes_index.
    pose proof (Ha (S j) y Hj) as Hy%nodes_index. lia.
Qed.

Lemma stretch_index_inj cs l x y :
  stretch (nodes cs) l → x ∈ l → y ∈ l → index x = index y → x = y.
Proof.
  intros [a Ha] [j Hj]%list_elem_of_lookup [j' Hj']%list_elem_of_lookup Heq.
  pose proof (Ha _ _ Hj) as Hx. pose proof (Ha _ _ Hj') as Hy.
  rewrite (nodes_index _ _ _ Hx), (nodes_index _ _ _ Hy) in Heq.
  rewrite Heq in Hx. congruence.
Qed.

Lemma stretch_NoDup cs l : stretch (nodes cs) l → NoDup l.
Proof.
  intros Hl%stretch_sorted. induction Hl as [|x l _ IH Hx]; constructor; [|done].
  intros Hin. rewrite Forall_forall in Hx. specialize (Hx x Hin). lia.
Qed.

Lemma or_null_sorted_lt cs l :
  stretch (nodes cs) l → StronglySorted index_lt (or_null l).
Proof.
  intros Hl%stretch_sorted. destruct l as [|x l]; [repeat constructor|].
  unfold or_null. apply (StronglySorted_fmap Some (λ a b, index a < index b)); [|done].
  intros a b Hab. split; cbn; [apply bool_decide_eq_true_2|apply bool_decide_eq_false_2]; lia.
Qed.

Lemma or_null_sorted_le cs l :
  stretch (nodes cs) l → StronglySorted (λ a b, index_le a b = true) (or_null l).
Proof.
  intros Hl%or_null_sorted_lt.
  induction Hl as [|x l' _ IH Hx]; constructor; [done|].
  eapply Forall_impl; [exact Hx|]. by intros ? [? _].
Qed.

Lemma or_null_cons {A : Type} (x : A) l : or_null (x :: l) = Some <$> x :: l.
Proof. done. Qed.

Lemma or_null_Permutation {A : Type} (l1 l2 : list A) :
  l1 ≡ₚ l2 → or_null l1 ≡ₚ or_null l2.
Proof.
  intros Hp. destruct l1 as [|x l1], l2 as [|y l2]; [done| | |].
  - by apply Permutation_nil_cons in Hp.
  - symmetry in Hp. by apply Permutation_nil_cons in Hp.
  - rewrite !or_null_cons. by rewrite Hp.
Qed.

Lemma elem_of_or_null_inv {A : Type} (l : list A) (o : option A) :
  o ∈ or_null l → o = None ∧ l = [] ∨ ∃ x, o = Some x ∧ x ∈ l.
Proof.
  destruct l as [|y l].
  - intros ->%list_elem_of_singleton. by left.
  - rewrite or_null_cons. intros (x & -> & Hx)%list_elem_of_fmap.
    right. by exists x.
Qed.

Lemma or_null_index_antisym cs l a b :
  stretch (nodes cs) l → a ∈ or_null l → b ∈ or_null l →
  index_le a b = true → index_le b a = true → a = b.
Proof.
  intros Hl Ha Hb.
  apply elem_of_or_null_inv in Ha as [[-> Hnil]|(x & -> & Hx)];
    apply elem_of_or_null_inv in Hb as [[-> Hnil']|(y & -> & Hy)]; cbn; try done.
  rewrite !bool_decide_eq_true. intros ??. f_equal.
  apply (stretch_index_inj cs l); [done..|lia].
Qed.

(** The rows of the window query on the chain. *)
Lemma window_rows cs i c w :
  cs !! i = Some c →
  get_context_window (build cs) (cid i) w =
    product (node_of uuid5 filename i c)
      (or_null (before i w (nodes cs))) (or_null (after i w (nodes cs))).
Proof.
  intros Hi. assert (i < length cs) as Hlt by (by eapply lookup_lt_Some).
  unfold get_context_window.
  rewrite lookup_cid. unfold chain_nodes at 1. rewrite list_lookup_imap, Hi. cbn [fmap option_fmap option_map].
  rewrite paths_forward_chain by (by intros e ?%elem_of_nil).
  rewrite paths_backward_chain_rev by done.
  rewrite !optional_match_cids, omap_reverse, !omap_lookup_seq.
  assert (take (w `min` (length cs - 1 - i)) (drop (S i) (nodes cs)) = after i w (nodes cs)) as ->.
  { unfold after. destruct (decide (w ≤ length cs - 1 - i)).
    - by rewrite Nat.min_l.
    - rewrite Nat.min_r by lia.
      rewrite !take_ge; [done|rewrite length_drop..]; unfold chain_nodes;
        rewrite length_imap; lia. }
  rewrite (Nat.min_comm w i). fold (before i w (nodes cs)).
  set (PB := or_null (reverse _)).
  assert (PB ≡ₚ or_null (before i w (nodes cs))) as HPB
    by apply or_null_Permutation, reverse_Permutation.
  apply StronglySorted_unique_strong with (R := rows_le).
  - intros x1 x2 Hx1 Hx2 H12 H21.
    rewrite order_rows_Permutation in Hx1.
    fold (product (node_of uuid5 filename i c) PB (or_null (after i w (nodes cs)))) in Hx1.
    unfold product in Hx1, Hx2.
    apply list_elem_of_bind in Hx1 as (p1 & (n1 & ->%list_elem_of_singleton & Hn1)%list_elem_of_bind & Hp1).
    apply list_elem_of_bind in Hx2 as (p2 & (n2 & ->%list_elem_of_singleton & Hn2)%list_elem_of_bind & Hp2).
    rewrite HPB in Hp1.
    unfold rows_le, row_le in H12, H21. cbn in H12, H21.
    destruct (index_le p1 p2) eqn:E12; [|done].
    destruct (index_le p2 p1) eqn:E21; [|done].
    rewrite (or_null_index_antisym cs _ p1 p2 (stretch_before cs i w)) by done.
    rewrite (or_null_index_antisym cs _ n1 n2 (stretch_after cs i w)) by done.
    done.
  - apply order_rows_sorted.
  - apply product_sorted.
    + apply (or_null_sorted_lt cs), stretch_before.
    + apply (or_null_sorted_le cs), stretch_after.
  - rewrite order_rows_Permutation.
    fold (product (node_of uuid5 filename i c) PB (or_null (after i w (nodes cs)))).
    unfold product. by rewrite HPB.
Qed.

End ChainFacts.



(** ** C9: the neighbour window of a chain *)



(** Scenario B of the specification, by evaluation. *)
Example neighbor_window_scenario_B :
  let db := Graph.create_document_structure scenario_uuid5 "tender.docx" scenario_chain Graph.empty_db in
  let rows := Graph.get_context_window db (Graph.chunk_id_of scenario_uuid5 "tender.docx" 2) 1 in
  Graph.text <$> Graph.prev_chunks rows = ["c1"] ∧ Graph.text <$> Graph.next_chunks rows = ["c3"].
Proof. vm_compute. done. Qed.

(** ** Hybrid score fusion: sorting and normalisation *)

Section HybridFacts.
Import Hybrid.

Lemma insert_desc_Permutation x l : insert_desc x l ≡ₚ x :: l.
Proof.
  induction l as [|y l IH]; [done|]. cbn.
  destruct (Qle_bool (score x) (score y)); [|done].
  rewrite IH. apply Permutation_swap.
Qed.

Lemma insert_desc_sorted x l :
  StronglySorted score_ge l → StronglySorted score_ge (insert_desc x l).
Proof.
  induction 1 as [|y l Hl IH Hy]; cbn; [repeat constructor|].
  destruct (Qle_bool (score x) (score y)) eqn:Hxy.
  - apply Qle_bool_iff in Hxy. constructor; [exact IH|].
    rewrite insert_desc_Permutation. by constructor.
  - assert (score y < score x)%Q as Hlt.
    { apply Qnot_le_lt. intros H%Qle_bool_iff. congruence. }
    constructor; [by constructor|]. constructor.
    + unfold score_ge. lra.
    + eapply Forall_impl; [exact Hy|]. unfold score_ge. intros z Hz. lra.
Qed.

Lemma sort_by_score_desc_spec l :
  sort_by_score_desc l ≡ₚ l ∧ StronglySorted score_ge (sort_by_score_desc l).
Proof.
  unfold sort_by_score_desc.
  assert (∀ acc, StronglySorted score_ge acc →
     foldl (λ acc x, insert_desc x acc) acc l ≡ₚ acc ++ l ∧
     StronglySorted score_ge (foldl (λ acc x, insert_desc x acc) acc l)) as H.
  { induction l as [|x l IH]; intros acc Hacc; cbn.
    - by rewrite app_nil_r.
    - destruct (IH (insert_desc x acc) (insert_desc_sorted x acc Hacc)) as [Hp Hs].
      split; [|done]. rewrite Hp, insert_desc_Permutation.
      apply Permutation_middle. }
  apply (H []). constructor.
Qed.

Lemma rescore_all_spec max scores candidates : ∀ i,
  i + length candidates ≤ length scores →
  rescore_all max i scores candidates =
    Some (zip_with (rescore max) candidates (drop i scores)).
Proof.
  induction candidates as [|doc rest IH]; intros i Hlen; [done|].
  cbn in Hlen. cbn [rescore_all].
  destruct (lookup_lt_is_Some_2 scores i) as [raw Hraw]; [lia|].
  rewrite Hraw. cbn. rewrite IH by lia. cbn.
  by rewrite (drop_S _ _ _ Hraw).
Qed.

Lemma max_of_upper scores s : s ∈ scores → (s <= max_of scores)%Q.
Proof.
  destruct scores as [|s0 rest]; [by intros ?%elem_of_nil|]. cbn.
  assert (∀ m, (m <= foldl (λ m x, if Qle_bool x m then m else x) m rest)%Q ∧
     ∀ x, x ∈ rest → (x <= foldl (λ m x, if Qle_bool x m then m else x) m rest)%Q) as H.
  { induction rest as [|y rest IH]; intros m; cbn.
    - split; [lra|by intros ? ?%elem_of_nil].
    - destruct (Qle_bool y m) eqn:Hy.
      + apply Qle_bool_iff in Hy. destruct (IH m) as [H1 H2].
        split; [done|]. intros x [->|Hx]%elem_of_cons; [lra|by apply H2].
      + assert (m < y)%Q by (apply Qnot_le_lt; intros ?%Qle_bool_iff; congruence).
        destruct (IH y) as [H1 H2].
        split; [lra|]. intros x [->|Hx]%elem_of_cons; [done|by apply H2]. }
  destruct (H s0) as [H1 H2].
  intros [->|Hs]%elem_of_cons; [exact H1|by apply H2].
Qed.

Lemma max_of_elem s0 rest : max_of (s0 :: rest) ∈ s0 :: rest.
Proof.
  cbn. revert s0. induction rest as [|y rest IH]; intros m; cbn; [by left|].
  destruct (Qle_bool y m).
  - pose proof (IH m) as [Heq|Hin]%elem_of_cons.
    + rewrite Heq. by left.
    + right. by right.
  - right. apply IH.
Qed.

Lemma max_of_nonempty scores : scores ≠ [] → max_of scores ∈ scores.
Proof. destruct scores; [done|]. intros _. apply max_of_elem. Qed.

Lemma any_nonzero_false scores s :
  any_nonzero scores = false → s ∈ scores → (s == 0)%Q.
Proof.
  unfold any_nonzero. intros H Hs.
  induction Hs as [s l|s y l Hs IH]; cbn in H; apply orb_false_iff in H as [H1 H2].
  - apply negb_false_iff in H1. by apply Qeq_bool_iff.
  - by apply IH.
Qed.

(** The normalised score the code computes, in terms of the batch maximum. *)
Lemma bm25_norm_batch scores raw :
  raw ∈ scores →
  (bm25_norm raw (max_bm25 scores) == batch_norm raw scores)%Q.
Proof.
  intros Hraw. unfold max_bm25, batch_norm.
  destruct (any_nonzero scores) eqn:Hany; [done|].
  pose proof (any_nonzero_false scores raw Hany Hraw) as Hr.
  assert (max_of scores == 0)%Q as HM.
  { destruct scores as [|s0 rest]; [done|].
    apply (any_nonzero_false _ _ Hany), max_of_elem. }
  unfold bm25_norm.
  destruct (Qlt_le_dec 0 1) as [_|H1]; [|lra].
  destruct (Qlt_le_dec 0 (max_of scores)) as [H|_]; [lra|].
  rewrite Hr. reflexivity.
Qed.

End HybridFacts.

(** ** C2: the hybrid stage *)



(** The order the code produces on that batch: the second candidate has
    the best vector score, the first one wins through its BM25 score. *)
Example hybrid_batch_order :
  Hybrid.cand_id <$> default []
    (Hybrid.apply_bm25_score (λ _ _, [3 # 2; 0; 1 # 2]%Q) "excavators" hybrid_batch)
  = ["a"; "b"; "c"].
Proof. vm_compute. reflexivity. Qed.


(** ** Vector store: batches, upsert and skipped chunks *)

Section VectorStoreFacts.
Import VectorStore.
Context {E : Type} (encode : string → E).

Lemma put_rows_app (rows1 rows2 : list (Row (E:=E))) coll :
  put_rows (rows1 ++ rows2) coll = put_rows rows2 (put_rows rows1 coll).
Proof. unfold put_rows. apply foldl_app. Qed.

(** The slices of the batch loop are the rows, in order. *)
Lemma slices_concat {A : Type} (rows : list A) step : ∀ q,
  concat ((λ i, slice i (Nat.min (i + step) (length rows)) rows)
          <$> ((λ q, q * step) <$> seq 0 q))
  = take (q * step) rows.
Proof.
  induction q as [|q IH]; [done|].
  rewrite seq_S, !fmap_app, concat_app, IH. cbn [fmap list_fmap concat Nat.add].
  rewrite app_nil_r.
  replace (S q * step) with (q * step + step) by lia.
  rewrite <- take_take_drop. f_equal. unfold slice.
  destruct (decide (q * step + step ≤ length rows)).
  - rewrite Nat.min_l by lia. f_equal. lia.
  - rewrite Nat.min_r by lia.
    rewrite !take_ge; [done|rewrite length_drop; lia..].
Qed.

Lemma range_step_covers n step : 0 < step → n ≤ (n + step - 1) / step * step.
Proof.
  intros Hs. pose proof (Nat.div_mod_eq (n + step - 1) step) as H.
  pose proof (Nat.mod_upper_bound (n + step - 1) step). lia.
Qed.

Lemma upsert_calls_concat {A : Type} (rows : list A) :
  concat (Collection.upsert_calls rows) = rows.
Proof.
  unfold Collection.upsert_calls, range_step. rewrite slices_concat.
  apply take_ge, range_step_covers. unfold batch_size. lia.
Qed.

(** [put_rows] is a left-biased union with the rows, the last row of an
    id winning. *)
Lemma put_rows_union (rows : list (Row (E:=E))) : ∀ coll,
  put_rows rows coll = list_to_map (reverse rows) ∪ coll.
Proof.
  induction rows as [|[k v] rows IH]; intros coll.
  - cbn. by rewrite (left_id_L ∅ (∪)).
  - unfold put_rows in *. cbn [foldl fst snd].
    rewrite IH, reverse_cons.
    rewrite (list_to_map_app (M:=gmap string) (reverse rows) [(k, v)]).
    rewrite list_to_map_cons, list_to_map_nil.
    rewrite <- (assoc_L (∪)). f_equal.
    by rewrite insert_empty, <- insert_union_singleton_l.
Qed.

Lemma put_rows_idemp (rows : list (Row (E:=E))) coll :
  put_rows rows (put_rows rows coll) = put_rows rows coll.
Proof.
  rewrite !put_rows_union. rewrite (assoc_L (∪)). by rewrite (idemp_L (∪)).
Qed.

Lemma put_rows_dom (rows : list (Row (E:=E))) coll :
  dom (put_rows rows coll) = list_to_set rows.*1 ∪ dom coll.
Proof.
  rewrite put_rows_union, dom_union_L, dom_list_to_map_L. f_equal.
  rewrite fmap_reverse. apply set_eq. intros x.
  rewrite !elem_of_list_to_set. by rewrite elem_of_reverse.
Qed.

Lemma put_rows_lookup_last (rows1 rows2 : list (Row (E:=E))) k v coll :
  k ∉ rows2.*1 → put_rows (rows1 ++ (k, v) :: rows2) coll !! k = Some v.
Proof.
  intros Hk. rewrite put_rows_app.
  change (put_rows ((k, v) :: rows2) ?c) with (put_rows rows2 (<[k:=v]> c)).
  rewrite put_rows_union. rewrite lookup_union_r.
  - apply lookup_insert_eq.
  - apply not_elem_of_list_to_map_1. by rewrite fmap_reverse, elem_of_reverse.
Qed.

Lemma put_rows_lookup_other (rows : list (Row (E:=E))) k coll :
  k ∉ rows.*1 → put_rows rows coll !! k = coll !! k.
Proof.
  intros Hk. rewrite put_rows_union, lookup_union_r; [done|].
  apply not_elem_of_list_to_map_1. by rewrite fmap_reverse, elem_of_reverse.
Qed.

Lemma put_rows_lookup_inv (rows : list (Row (E:=E))) : ∀ coll k s,
  put_rows rows coll !! k = Some s → (k, s) ∈ rows ∨ coll !! k = Some s.
Proof.
  induction rows as [|[k' s'] rows IH]; intros coll k s Hk; [by right|].
  change (put_rows ((k', s') :: rows) coll) with (put_rows rows (<[k':=s']> coll)) in Hk.
  apply IH in Hk as [Hk|Hk]; [left; by right|].
  destruct (decide (k = k')) as [->|Hne].
  - rewrite lookup_insert_eq in Hk. injection Hk as ->. left. by left.
  - rewrite lookup_insert_ne in Hk by done. by right.
Qed.

(** The batch loop writes the calls up to the first that Chroma refuses,
    and is left by that refusal. *)
Lemma upsert_loop_spec (batches : list (list (Row (E:=E)))) : ∀ coll,
  upsert_loop batches coll
  = (put_rows (concat (Collection.accepted batches)) coll,
     if bool_decide (Forall (λ b : list Row, NoDup b.*1) batches) then Py.Ok tt
     else Py.Raise "DuplicateIDError").
Proof.
  induction batches as [|b rest IH]; intros coll; [done|].
  cbn [upsert_loop Collection.accepted]. unfold upsert.
  destruct (decide (NoDup b.*1)) as [Hb|Hb].
  - rewrite !(bool_decide_eq_true_2 (NoDup b.*1)) by done.
    rewrite IH. cbn [concat]. rewrite put_rows_app. f_equal.
    erewrite (bool_decide_ext (Forall _ (b :: rest))); [done|].
    rewrite Forall_cons. naive_solver.
  - rewrite !(bool_decide_eq_false_2 (NoDup b.*1)) by done.
    cbn. rewrite bool_decide_eq_false_2; [done|]. by intros [? _]%Forall_cons.
Qed.

Lemma add_chunks_spec chunks coll :
  add_chunks encode chunks coll
  = (put_rows (concat (Collection.accepted
                         (Collection.upsert_calls (rows_of encode chunks)))) coll,
     if bool_decide (Forall (λ b : list Row, NoDup b.*1)
                            (Collection.upsert_calls (rows_of encode chunks)))
     then Py.Ok tt else Py.Raise "DuplicateIDError").
Proof.
  unfold add_chunks. destruct chunks as [|c0 cs]; [done|].
  set (rows := rows_of encode (c0 :: cs)).
  destruct rows as [|r0 rs] eqn:Hrows; [done|]. rewrite <- Hrows.
  apply upsert_loop_spec.
Qed.

Lemma accepted_prefix {A : Type} (batches : list (list (string * A))) :
  Collection.accepted batches `prefix_of` batches.
Proof.
  induction batches as [|b rest IH]; [done|]. cbn.
  case_bool_decide; [by apply prefix_cons|apply prefix_nil].
Qed.

Lemma accepted_all {A : Type} (batches : list (list (string * A))) :
  Collection.accepted batches = batches ↔ Forall (λ b, NoDup b.*1) batches.
Proof.
  induction batches as [|b rest IH]; [done|]. cbn. case_bool_decide as Hb.
  - rewrite Forall_cons, <- IH. split; [by intros [= ->]|by intros [_ ->]].
  - split; [done|]. by intros [? _]%Forall_cons.
Qed.

Lemma concat_prefix {A : Type} (l1 l2 : list (list A)) :
  l1 `prefix_of` l2 → concat l1 `prefix_of` concat l2.
Proof. intros [k ->]. rewrite concat_app. by eexists. Qed.

(** Whether it returns or raises, [add_chunks] leaves a collection to
    which the first rows have been written. *)
Lemma add_chunks_state chunks coll :
  ∃ written, written `prefix_of` rows_of encode chunks
    ∧ (add_chunks encode chunks coll).1 = put_rows written coll.
Proof.
  rewrite add_chunks_spec. eexists. split; [|done].
  rewrite <- (upsert_calls_concat (rows_of encode chunks)) at 2.
  apply concat_prefix, accepted_prefix.
Qed.

(** It returns exactly when no call repeats an id, and has then written
    all rows. *)
Lemma add_chunks_returns chunks coll :
  (add_chunks encode chunks coll).2 = Py.Ok tt
  ↔ Forall (λ b : list (Row (E:=E)), NoDup b.*1)
           (Collection.upsert_calls (rows_of encode chunks)).
Proof. rewrite add_chunks_spec. cbn [snd]. by case_bool_decide. Qed.

Lemma add_chunks_written chunks coll :
  (add_chunks encode chunks coll).2 = Py.Ok tt →
  (add_chunks encode chunks coll).1 = put_rows (rows_of encode chunks) coll.
Proof.
  intros H%add_chunks_returns%accepted_all. rewrite add_chunks_spec. cbn [fst].
  by rewrite H, upsert_calls_concat.
Qed.

Lemma add_chunks_raises chunks coll :
  (add_chunks encode chunks coll).2 = Py.Ok tt
  ∨ (add_chunks encode chunks coll).2 = Py.Raise "DuplicateIDError".
Proof. rewrite add_chunks_spec. cbn [snd]. case_bool_decide; auto. Qed.

Lemma slice_sublist {A : Type} (i j : nat) (l : list A) : slice i j l `sublist_of` l.
Proof.
  unfold slice. etrans; [apply sublist_take|apply sublist_drop].
Qed.

Lemma add_chunks_distinct_ids chunks coll :
  NoDup (rows_of encode chunks).*1 → (add_chunks encode chunks coll).2 = Py.Ok tt.
Proof.
  intros Hnd. apply add_chunks_returns. unfold Collection.upsert_calls.
  apply Forall_fmap, Forall_forall. intros i _. cbn.
  eapply sublist_NoDup; [exact Hnd|]. apply fmap_sublist, slice_sublist.
Qed.

Lemma add_chunks_idemp chunks coll :
  add_chunks encode chunks (add_chunks encode chunks coll).1
  = add_chunks encode chunks coll.
Proof. rewrite !add_chunks_spec. cbn [fst]. by rewrite put_rows_idemp. Qed.

(** The rows written are those of the chunks that are not skipped. *)
Lemma rows_of_ids chunks :
  (rows_of encode chunks).*1 = chunk_id <$> filter (λ c, skipped c = false) chunks.
Proof.
  unfold rows_of. generalize (parent_map chunks). intros pm.
  induction chunks as [|c cs IH]; [done|].
  cbn [omap list_omap]. rewrite filter_cons.
  destruct (skipped c) eqn:Hc.
  - rewrite decide_False by done. exact IH.
  - rewrite decide_True by done. cbn. by rewrite IH.
Qed.

(** The record of a chunk that is written: the last of its id wins. *)
Lemma add_chunks_record cs1 c cs2 coll :
  skipped c = false →
  (∀ c', c' ∈ cs2 → skipped c' = false → chunk_id c' ≠ chunk_id c) →
  (add_chunks encode (cs1 ++ c :: cs2) coll).2 = Py.Ok tt →
  (add_chunks encode (cs1 ++ c :: cs2) coll).1 !! chunk_id c
  = Some (Collection.record_of encode (cs1 ++ c :: cs2) c).
Proof.
  intros Hc Hlast Hok. rewrite add_chunks_written by done.
  unfold rows_of. rewrite omap_app. cbn [omap list_omap]. rewrite Hc.
  apply put_rows_lookup_last.
  intros (r & Hr & Hin)%list_elem_of_fmap.
  apply list_elem_of_omap in Hin as (c' & Hc' & Hrow).
  destruct (skipped c') eqn:Hs; [done|]. injection Hrow as <-. cbn in Hr.
  by apply (Hlast c').
Qed.

Lemma parent_map_last cs1 p cs2 :
  is_parent p = true →
  (∀ c, c ∈ cs2 → is_parent c = true → chunk_id c ≠ chunk_id p) →
  parent_map (cs1 ++ p :: cs2) !! chunk_id p = Some (content p).
Proof.
  intros Hp Hlast. unfold parent_map. rewrite foldl_app. cbn [foldl]. rewrite Hp.
  set (m0 := foldl _ ∅ cs1). clearbody m0.
  set (m1 := <[chunk_id p:=content p]> m0).
  assert (m1 !! chunk_id p = Some (content p)) as Hm1 by apply lookup_insert_eq.
  clearbody m1. revert m1 Hm1.
  induction cs2 as [|c cs2 IH]; intros m Hm; [done|]. cbn [foldl].
  apply IH.
  - intros c' Hc'. apply Hlast. by right.
  - destruct (is_parent c) eqn:Hc; [|done].
    rewrite lookup_insert_ne; [done|]. apply Hlast; [by left|done].
Qed.

End VectorStoreFacts.

(** ** C10: long parent chunks are not written *)

(** C10.  A chunk of the batch that is marked as a parent and whose
    content is longer than 800 characters is skipped: it is not among the
    chunks whose ids are handed to the collection, so unless another chunk
    of the batch carries the same id the collection is left as it was at
    that id (no record, if there was none), whether the call returns or
    raises.  Its content is still stored as the [full_context] of a child
    that names it as parent, when the call returns, the parent is the last
    parent of the batch with its id and the child the last chunk written
    under its own. *)
Theorem add_chunks_skips_long_parents {E : Type} (encode : string → E)
    (chunks : list VectorStore.IndexableChunk) (coll : gmap string (VectorStore.Stored E))
    (p : VectorStore.IndexableChunk) :
  p ∈ chunks →
  VectorStore.is_parent p = true →
  800 < VectorStore.len (VectorStore.content p) →
  let after := (VectorStore.add_chunks encode chunks coll).1 in
  (p ∉ filter (λ c, VectorStore.skipped c = false) chunks)
  ∧ ((∀ c, c ∈ chunks → VectorStore.skipped c = false →
        VectorStore.chunk_id c ≠ VectorStore.chunk_id p) →
     after !! VectorStore.chunk_id p = coll !! VectorStore.chunk_id p)
  ∧ (∀ k s, after !! k = Some s → coll !! k = Some s ∨
       ∃ c, c ∈ chunks ∧ VectorStore.skipped c = false ∧ VectorStore.chunk_id c = k
            ∧ VectorStore.document s = VectorStore.content c)
  ∧ (∀ cs1 cs2 ds1 child ds2,
       chunks = cs1 ++ p :: cs2 →
       (∀ c, c ∈ cs2 → VectorStore.is_parent c = true →
          VectorStore.chunk_id c ≠ VectorStore.chunk_id p) →
       chunks = ds1 ++ child :: ds2 →
       (∀ c, c ∈ ds2 → VectorStore.skipped c = false →
          VectorStore.chunk_id c ≠ VectorStore.chunk_id child) →
       VectorStore.skipped child = false →
       VectorStore.parent_id child = Some (VectorStore.chunk_id p) →
       VectorStore.chunk_id p ≠ "" →
       (VectorStore.add_chunks encode chunks coll).2 = Py.Ok tt →
       ∃ s, after !! VectorStore.chunk_id child = Some s
         ∧ VectorStore.document s = VectorStore.content child
         ∧ VectorStore.stored_metadata s !! "full_context"
           = Some (VectorStore.MStr (VectorStore.content p))
         ∧ VectorStore.stored_metadata s !! "is_child" = Some (VectorStore.MStr "True")).
Proof.
  intros Hin Hpar Hlen. cbn zeta.
  assert (VectorStore.skipped p = true) as Hskip.
  { unfold VectorStore.skipped. rewrite Hpar. cbn. by apply bool_decide_eq_true_2. }
  destruct (add_chunks_state encode chunks coll) as (written & Hpre & Hstate).
  split_and!.
  - rewrite list_elem_of_filter. intros [? _]. congruence.
  - intros Hother. rewrite Hstate. apply put_rows_lookup_other.
    intros Hk.
    assert (VectorStore.chunk_id p ∈ (VectorStore.rows_of encode chunks).*1) as Hk'.
    { destruct Hpre as [rest ->]. rewrite fmap_app. apply elem_of_app. by left. }
    rewrite rows_of_ids in Hk'.
    apply list_elem_of_fmap in Hk' as (c & Hc & [Hs Hc']%list_elem_of_filter).
    by apply (Hother c).
  - intros k s Hk. rewrite Hstate in Hk.
    apply put_rows_lookup_inv in Hk as [Hk|Hk]; [|by left]. right.
    assert ((k, s) ∈ VectorStore.rows_of encode chunks) as Hrow.
    { destruct Hpre as [rest ->]. apply elem_of_app. by left. }
    unfold VectorStore.rows_of in Hrow.
    apply list_elem_of_omap in Hrow as (c & Hc & Hrow).
    destruct (VectorStore.skipped c) eqn:Hs; [done|]. injection Hrow as <- <-.
    by exists c.
  - intros cs1 cs2 ds1 child ds2 Hp Hlast Hchild Hown Hkept Hpid Hne Hok.
    eexists. split; [|split_and!].
    + rewrite Hchild in *. by apply add_chunks_record.
    + done.
    + unfold Collection.record_of. cbn [VectorStore.stored_metadata].
      unfold VectorStore.clean_meta, VectorStore.fused_meta.
      rewrite Hpid. cbn [Py.truthy_get]. unfold Py.truthy.
      rewrite bool_decide_eq_false_2 by done. cbn [negb].
      rewrite <- Hchild, Hp, parent_map_last by done.
      rewrite lookup_fmap, lookup_insert_ne by done. by rewrite lookup_insert_eq.
    + unfold Collection.record_of. cbn [VectorStore.stored_metadata].
      unfold VectorStore.clean_meta, VectorStore.fused_meta.
      rewrite Hpid. cbn [Py.truthy_get]. unfold Py.truthy.
      rewrite bool_decide_eq_false_2 by done. cbn [negb].
      rewrite <- Hchild, Hp, parent_map_last by done.
      by rewrite lookup_fmap, lookup_insert_eq.
Qed.

Lemma add_chunks_skips_long_parents_witness :
  let after := (VectorStore.add_chunks String.length parent_child_batch ∅).1 in
  800 < VectorStore.len (VectorStore.content long_parent)
  ∧ dom after = {[ "child-1" ]}
  ∧ ∃ s, after !! "child-1" = Some s
      ∧ VectorStore.stored_metadata s !! "full_context"
        = Some (VectorStore.MStr (VectorStore.content long_parent)).
Proof.
  cbn zeta. split_and!; [vm_compute; lia|vm_compute; reflexivity|].
  destruct (add_chunks_skips_long_parents String.length parent_child_batch ∅ long_parent)
    as (_ & _ & _ & Hchild); [apply list_elem_of_here|reflexivity|vm_compute; lia|].
  destruct (Hchild [] (drop 1 parent_child_batch) [long_parent]
              (VectorStore.mkChunk "excavators: 4 units"
                 {[ "source_file" := VectorStore.MStr "plan.docx";
                    "page" := VectorStore.MInt 3 ]}
                 "child-1" (Some "parent-1") false) [])
    as (s & Hs & _ & Hctx & _); [reflexivity| |reflexivity| |reflexivity|reflexivity|
                                 done|vm_compute; reflexivity|].
  - intros c Hc. cbn in Hc. apply list_elem_of_singleton in Hc as ->. done.
  - intros c Hc. by apply elem_of_nil in Hc.
  - by exists s.
Defined.

(** Characters, not bytes: a parent of 300 Chinese characters, 900 bytes
    of UTF-8, is written; so is one of exactly 800 characters. *)
Example add_chunks_counts_characters :
  let parent := VectorStore.mkChunk (String.concat "" (replicate 300 "坝")) ∅ "p-1" None true in
  let limit := VectorStore.mkChunk (String.concat "" (replicate 800 "x")) ∅ "p-2" None true in
  String.length (VectorStore.content parent) = 900
  ∧ VectorStore.len (VectorStore.content parent) = 300
  ∧ dom (VectorStore.add_chunks String.length [parent; limit] ∅).1 = {[ "p-1"; "p-2" ]}.
Proof. vm_compute. done. Qed.

Example add_chunks_parent_child :
  dom (VectorStore.add_chunks (λ text, String.length text) parent_child_batch ∅).1
    = {[ "child-1" ]}.
Proof. vm_compute. reflexivity. Qed.

(** ** Lexical index: the merge by chunk id *)

(** ** Insertion-ordered dictionaries *)

Lemma foldl_insert_union {A V : Type} (f : A → string) (g : A → V) (l : list A) :
  ∀ m : gmap string V,
  foldl (λ m x, <[f x := g x]> m) m l = list_to_map ((λ x, (f x, g x)) <$> reverse l) ∪ m.
Proof.
  induction l as [|x l IH]; intros m.
  - cbn. by rewrite (left_id_L ∅ (∪)).
  - cbn [foldl]. rewrite IH, reverse_cons, fmap_app.
    rewrite (list_to_map_app (M:=gmap string)).
    cbn [fmap list_fmap]. rewrite list_to_map_cons, list_to_map_nil.
    rewrite <- (assoc_L (∪)). f_equal.
    by rewrite insert_empty, <- insert_union_singleton_l.
Qed.

Lemma foldl_insert_idemp {A V : Type} (f : A → string) (g : A → V) (l : list A)
    (m : gmap string V) :
  foldl (λ m x, <[f x := g x]> m) (foldl (λ m x, <[f x := g x]> m) m l) l
  = foldl (λ m x, <[f x := g x]> m) m l.
Proof.
  rewrite !foldl_insert_union. rewrite (assoc_L (∪)). by rewrite (idemp_L (∪)).
Qed.

Lemma filter_none {A : Type} (P : A → Prop) `{∀ x, Decision (P x)} (l : list A) :
  (∀ x, x ∈ l → ¬ P x) → filter P l = [].
Proof.
  induction l as [|x l IH]; intros Hl; [done|].
  rewrite filter_cons_False by (apply Hl; by left).
  apply IH. intros y Hy. apply Hl. by right.
Qed.

Section DictFacts.
Import BM25.
Context {V : Type}.
Implicit Types (d : list (string * V)) (k : string) (v : V).

Lemma dict_set_keys d k v :
  (dict_set k v d).*1 = if bool_decide (k ∈ d.*1) then d.*1 else d.*1 ++ [k].
Proof.
  induction d as [|[k' v'] d IH]; [done|]. cbn [dict_set].
  destruct (decide (k = k')) as [<-|Hk].
  - rewrite (bool_decide_eq_true_2 (k = k)) by done.
    cbn. rewrite bool_decide_eq_true_2; [done|by left].
  - rewrite (bool_decide_eq_false_2 (k = k')) by done.
    cbn. rewrite IH. destruct (decide (k ∈ d.*1)).
    + rewrite !bool_decide_eq_true_2; [done|by right|done].
    + rewrite !bool_decide_eq_false_2; [done| |done].
      intros [?|?]%elem_of_cons; done.
Qed.

Lemma dict_set_NoDup d k v : NoDup d.*1 → NoDup (dict_set k v d).*1.
Proof.
  intros Hd. rewrite dict_set_keys. case_bool_decide; [done|].
  apply NoDup_app. split_and!; [done| |apply NoDup_singleton].
  intros x Hx ->%list_elem_of_singleton. done.
Qed.

Lemma dict_set_map d k v :
  list_to_map (dict_set k v d) =@{gmap string V} <[k := v]> (list_to_map d).
Proof.
  induction d as [|[k' v'] d IH]; [done|]. cbn [dict_set].
  destruct (decide (k = k')) as [<-|Hk].
  - rewrite (bool_decide_eq_true_2 (k = k)) by done.
    rewrite !list_to_map_cons. by rewrite insert_insert_eq.
  - rewrite (bool_decide_eq_false_2 (k = k')) by done.
    rewrite !list_to_map_cons, IH. by apply insert_insert_ne.
Qed.

(** A dictionary is its key order and its contents. *)
Lemma dict_ext d1 : ∀ d2,
  NoDup d1.*1 → d1.*1 = d2.*1 →
  list_to_map d1 =@{gmap string V} list_to_map d2 → d1 = d2.
Proof.
  induction d1 as [|[k v] d1 IH]; intros [|[k' v'] d2] Hnd Hk Hm; try done.
  cbn in Hk. injection Hk as <- Hk.
  apply NoDup_cons in Hnd as [Hk1 Hnd].
  assert (k ∉ d2.*1) as Hk2 by (by rewrite <- Hk).
  rewrite !list_to_map_cons in Hm.
  assert (v = v') as <-.
  { apply (f_equal (λ m, m !! k)) in Hm. rewrite !lookup_insert_eq in Hm. congruence. }
  f_equal. apply IH; [done..|].
  apply (f_equal (delete k)) in Hm.
  rewrite !delete_insert_eq in Hm.
  rewrite !delete_id in Hm by (by apply not_elem_of_list_to_map_1). done.
Qed.

End DictFacts.

Section IndexFacts.
Import BM25.
Variable py_hash : string → Z.
Variable tokenize : string → list string.
Variable safe_name : string → string.
Variable index_dir : string.

Local Abbreviation key := (map_key py_hash).
Local Abbreviation step := (λ (m : list (string * Item)) item, dict_set (key item) item m).

Local Abbreviation keyed := (BM25.keyed py_hash).

Lemma step_keys items : ∀ d,
  (foldl step d items).*1 =
    foldl (λ ks x, if bool_decide (key x ∈ ks) then ks else ks ++ [key x]) d.*1 items.
Proof.
  induction items as [|x items IH]; intros d; [done|].
  cbn [foldl]. by rewrite IH, dict_set_keys.
Qed.

Lemma step_map items : ∀ d,
  list_to_map (foldl step d items) =@{gmap string Item}
    foldl (λ m x, <[key x := x]> m) (list_to_map d) items.
Proof.
  induction items as [|x items IH]; intros d; [done|].
  cbn [foldl]. by rewrite IH, dict_set_map.
Qed.

Lemma step_NoDup items : ∀ d, NoDup d.*1 → NoDup (foldl step d items).*1.
Proof.
  induction items as [|x items IH]; intros d Hd; [done|].
  cbn [foldl]. by apply IH, dict_set_NoDup.
Qed.

Lemma dict_set_keyed d x : keyed d → keyed (dict_set (key x) x d).
Proof.
  intros Hd. induction d as [|[k' v'] d IH]; cbn [dict_set].
  - by intros e ->%list_elem_of_singleton.
  - case_bool_decide.
    + intros e [->|He]%elem_of_cons; [done|]. apply Hd. by right.
    + intros e [->|He]%elem_of_cons; [apply Hd; by left|].
      apply IH; [|done]. intros e' He'. apply Hd. by right.
Qed.

Lemma step_keyed items : ∀ d, keyed d → keyed (foldl step d items).
Proof.
  induction items as [|x items IH]; intros d Hd; [done|].
  cbn [foldl]. by apply IH, dict_set_keyed.
Qed.

(** Keys only grow, and every item leaves its key. *)
Lemma keys_grow items : ∀ (ks : list string) k,
  k ∈ ks ∨ k ∈ key <$> items →
  k ∈ foldl (λ ks x, if bool_decide (key x ∈ ks) then ks else ks ++ [key x]) ks items.
Proof.
  induction items as [|x items IH]; intros ks k [Hk|Hk]; cbn [foldl].
  - done.
  - by apply elem_of_nil in Hk.
  - apply IH. left. case_bool_decide; [done|]. apply elem_of_app. by left.
  - rewrite fmap_cons in Hk. apply elem_of_cons in Hk as [->|Hk].
    + apply IH. left. case_bool_decide; [done|]. apply elem_of_app. right. by left.
    + apply IH. by right.
Qed.

Lemma keys_stable items : ∀ (ks : list string),
  (∀ x, x ∈ items → key x ∈ ks) →
  foldl (λ ks x, if bool_decide (key x ∈ ks) then ks else ks ++ [key x]) ks items = ks.
Proof.
  induction items as [|x items IH]; intros ks Hks; [done|].
  cbn [foldl]. rewrite bool_decide_eq_true_2 by (apply Hks; by left).
  apply IH. intros y Hy. apply Hks. by right.
Qed.

Lemma keys_fresh items : ∀ (ks : list string),
  NoDup (key <$> items) → (∀ x, x ∈ items → key x ∉ ks) →
  foldl (λ ks x, if bool_decide (key x ∈ ks) then ks else ks ++ [key x]) ks items
  = ks ++ (key <$> items).
Proof.
  induction items as [|x items IH]; intros ks Hnd Hks; cbn [foldl].
  - by rewrite app_nil_r.
  - rewrite fmap_cons in Hnd. apply NoDup_cons in Hnd as [Hx Hnd].
    rewrite bool_decide_eq_false_2 by (apply Hks; by left).
    rewrite IH; [by rewrite <- app_assoc|done|].
    intros y Hy [Hin|Hin%list_elem_of_singleton]%elem_of_app.
    + by apply (Hks y); [right|].
    + apply Hx. rewrite <- Hin. by apply list_elem_of_fmap_2.
Qed.

(** Running the same batch over the result again changes nothing. *)
Lemma step_idemp items d :
  NoDup d.*1 → foldl step (foldl step d items) items = foldl step d items.
Proof.
  intros Hd. apply dict_ext.
  - by apply step_NoDup, step_NoDup.
  - rewrite (step_keys items (foldl step d items)). apply keys_stable.
    intros x Hx. rewrite step_keys. apply keys_grow. right. by apply list_elem_of_fmap_2.
  - rewrite !step_map. apply foldl_insert_idemp.
Qed.

(** Reading the values back in gives the dictionary back. *)
Lemma step_rebuild d :
  NoDup d.*1 → keyed d → foldl step [] (dict_values d) = d.
Proof.
  intros Hd Hk.
  assert (key <$> dict_values d = d.*1) as Hkeys.
  { unfold dict_values. rewrite <- list_fmap_compose. apply list_fmap_ext.
    intros i e He. cbn. symmetry. apply Hk. by eapply list_elem_of_lookup_2. }
  apply dict_ext.
  - by apply step_NoDup, NoDup_nil.
  - rewrite step_keys. cbn. rewrite keys_fresh; [by rewrite Hkeys| |].
    + by rewrite Hkeys.
    + intros x _. apply not_elem_of_nil.
  - rewrite step_map, foldl_insert_union. cbn [list_to_map foldr].
    rewrite (right_id_L ∅ (∪)), fmap_reverse.
    assert ((λ x, (key x, x)) <$> dict_values d = d) as ->.
    { unfold dict_values. rewrite <- list_fmap_compose.
      rewrite <- (list_fmap_id d) at 2. apply list_fmap_ext.
      intros i [k x] He. cbn. f_equal. symmetry.
      apply (Hk (k, x)). by eapply list_elem_of_lookup_2. }
    apply list_to_map_proper; [|apply reverse_Permutation].
    by rewrite fmap_reverse, reverse_Permutation.
Qed.

Lemma merge_data_dict existing new :
  ∃ d, merge_data py_hash existing new = dict_values d
       ∧ d = foldl step (foldl step [] existing) new
       ∧ NoDup d.*1 ∧ keyed d.
Proof.
  eexists. split; [reflexivity|]. split; [reflexivity|]. split.
  - apply step_NoDup, step_NoDup, NoDup_nil_2.
  - apply step_keyed, step_keyed. by intros e ?%elem_of_nil.
Qed.

Lemma merge_data_idemp existing new :
  merge_data py_hash (merge_data py_hash existing new) new = merge_data py_hash existing new.
Proof.
  destruct (merge_data_dict existing new) as (d & Hm & Hd & Hnd & Hk).
  rewrite Hm. unfold merge_data at 1. rewrite step_rebuild by done.
  rewrite Hd at 1. rewrite step_idemp by (apply step_NoDup, NoDup_nil_2).
  by rewrite <- Hd.
Qed.

Lemma key_of_chunk_id item c :
  metadata item !! "chunk_id" = Some c → c ≠ "" → key item = c.
Proof.
  intros Hc Hne. unfold map_key. rewrite Hc. cbn. unfold Py.truthy.
  by rewrite bool_decide_eq_false_2.
Qed.

(** After the merge the key of an item of the batch holds the last item
    of the batch filed under it. *)
Lemma merge_lookup_last existing new1 item new2 :
  (∀ y, y ∈ new2 → key y ≠ key item) →
  (list_to_map (foldl step (foldl step [] existing) (new1 ++ item :: new2))
     : gmap string Item) !! key item = Some item.
Proof.
  intros Hlast. rewrite step_map, foldl_app. cbn [foldl].
  rewrite foldl_insert_union, lookup_union_r; [apply lookup_insert_eq|].
  apply not_elem_of_list_to_map_1. rewrite <- list_fmap_compose.
  intros (y & Hy & Hin)%list_elem_of_fmap. cbn in Hy.
  rewrite elem_of_reverse in Hin. apply (Hlast y); [done|by symmetry].
Qed.

Lemma merge_data_one_record existing new1 item new2 c :
  metadata item !! "chunk_id" = Some c → c ≠ "" →
  (∀ y, y ∈ new2 → key y ≠ c) →
  filter (λ x, metadata x !! "chunk_id" = Some c)
    (merge_data py_hash existing (new1 ++ item :: new2)) = [item].
Proof.
  intros Hc Hne Hlast.
  pose proof (key_of_chunk_id item c Hc Hne) as Hkey.
  destruct (merge_data_dict existing (new1 ++ item :: new2)) as (d & -> & Hd & Hnd & Hk).
  assert ((c, item) ∈ d) as Hin.
  { apply elem_of_list_to_map; [done|]. rewrite Hd, <- Hkey.
    apply merge_lookup_last. by rewrite Hkey. }
  apply list_elem_of_split in Hin as (d1 & d2 & ->).
  rewrite fmap_app, fmap_cons in Hnd.
  apply NoDup_app in Hnd as (_ & Hd1 & [Hd2 _]%NoDup_cons).
  assert (∀ dd, (∀ e, e ∈ dd → e ∈ d1 ++ (c, item) :: d2) → c ∉ dd.*1 →
     filter (λ x, metadata x !! "chunk_id" = Some c) (dict_values dd) = []) as Hnone.
  { intros dd Hsub Hdd. apply filter_none.
    intros x (e & -> & He)%list_elem_of_fmap Hx.
    apply Hdd. apply list_elem_of_fmap. exists e. split; [|done].
    rewrite (Hk e (Hsub e He)). symmetry. by apply key_of_chunk_id. }
  unfold dict_values in *. rewrite fmap_app, fmap_cons, filter_app, filter_cons_True by done.
  rewrite !Hnone; [done| | | |].
  - intros e He. apply elem_of_app. right. by right.
  - done.
  - intros e He. apply elem_of_app. by left.
  - intros Hin. by apply (Hd1 c); [|left].
Qed.

Local Abbreviation paths := (get_file_paths safe_name index_dir).
Local Abbreviation update := (update_project_index py_hash tokenize safe_name index_dir).

Lemma paths_differ project : (paths project).1 ≠ (paths project).2.
Proof.
  unfold get_file_paths. cbn. intros H.
  apply (inj (String.app _)) in H. discriminate.
Qed.

Lemma build_index_ok full_data :
  concat (tokenize <$> (content <$> full_data)) ≠ [] →
  build_index tokenize full_data = Py.Ok (PModel (tokenize <$> (content <$> full_data))).
Proof. intros H. unfold build_index, bm25_okapi. by rewrite bool_decide_eq_false_2. Qed.

Lemma build_index_raises full_data :
  concat (tokenize <$> (content <$> full_data)) = [] →
  build_index tokenize full_data = Py.Raise "ZeroDivisionError".
Proof. intros H. unfold build_index, bm25_okapi. by rewrite bool_decide_eq_true_2. Qed.

Lemma update_unfold fs project new_chunks :
  let full_data := merge_data py_hash (load_existing fs (paths project).2) new_chunks in
  update fs project new_chunks =
    if bool_decide (concat (tokenize <$> (content <$> full_data)) = []) then fs
    else <[(paths project).2 := Whole (PData full_data)]>
           (<[(paths project).1 := Whole (PModel (tokenize <$> (content <$> full_data)))]> fs).
Proof.
  cbn zeta. unfold update_project_index, update_ops. cbn [get_file_paths fst snd].
  destruct (merge_data _ _ _) as [|x l]; [done|].
  unfold build_index, bm25_okapi. case_bool_decide; [done|].
  cbn [run foldl apply_op]. by rewrite !insert_insert_eq.
Qed.

(** A merged corpus is empty only if there was no corpus. *)
Lemma merge_data_nil existing new_chunks :
  merge_data py_hash existing new_chunks = [] → existing = [].
Proof.
  intros Hm. unfold merge_data in Hm.
  destruct existing as [|e es]; [done|].
  exfalso. apply (f_equal length) in Hm. unfold dict_values in Hm.
  rewrite length_fmap in Hm.
  assert (key e ∈ (foldl step (foldl step [] (e :: es)) new_chunks).*1) as Hin.
  { rewrite !step_keys. apply keys_grow. left. apply keys_grow. right.
    rewrite fmap_cons. by left. }
  destruct (foldl step _ new_chunks); [by apply elem_of_nil in Hin|done].
Qed.

(** The corpus on disk after an update: the merged corpus when an index
    can be built from it, the old corpus otherwise. *)
Lemma corpus_of_update fs project new_chunks :
  let full_data :=
    merge_data py_hash (corpus_of safe_name index_dir fs project) new_chunks in
  corpus_of safe_name index_dir (update fs project new_chunks) project =
    if bool_decide (full_data ≠ [] ∧ concat (tokenize <$> (content <$> full_data)) = [])
    then corpus_of safe_name index_dir fs project
    else full_data.
Proof.
  cbn zeta. unfold corpus_of. rewrite update_unfold. cbn zeta.
  destruct (merge_data _ _ _) as [|x l] eqn:Hm.
  - rewrite bool_decide_eq_true_2 by done.
    rewrite bool_decide_eq_false_2 by (by intros [? _]).
    by apply merge_data_nil in Hm.
  - case_bool_decide as Ht.
    + by rewrite bool_decide_eq_true_2.
    + rewrite bool_decide_eq_false_2 by (by intros [_ ?]).
      unfold load_existing. by rewrite lookup_insert_eq.
Qed.

Lemma update_idemp fs project new_chunks :
  update (update fs project new_chunks) project new_chunks = update fs project new_chunks.
Proof.
  rewrite (update_unfold fs). cbn zeta. case_bool_decide as Ht.
  { rewrite update_unfold. cbn zeta. by rewrite bool_decide_eq_true_2. }
  set (full_data := merge_data py_hash (load_existing fs (paths project).2) new_chunks) in *.
  rewrite update_unfold. cbn zeta.
  assert (load_existing
            (<[(paths project).2:=Whole (PData full_data)]>
               (<[(paths project).1:=Whole (PModel (tokenize <$> (content <$> full_data)))]> fs))
            (paths project).2 = full_data) as ->.
  { unfold load_existing. by rewrite lookup_insert_eq. }
  subst full_data. rewrite merge_data_idemp. rewrite bool_decide_eq_false_2 by done.
  pose proof (paths_differ project) as Hne.
  apply map_eq. intros k.
  destruct (decide (k = (paths project).2)) as [->|H2]; [by rewrite !lookup_insert_eq|].
  rewrite !(lookup_insert_ne _ (paths project).2) by done.
  destruct (decide (k = (paths project).1)) as [->|H1]; [by rewrite !lookup_insert_eq|].
  rewrite !(lookup_insert_ne _ (paths project).1) by done.
  by rewrite !lookup_insert_ne by done.
Qed.

End IndexFacts.

(** ** C8: upsert is idempotent and keeps one record per id *)


(** C8 as stated fails where the call raises: the record submitted for a
    known chunk id does not overwrite the old one.  A batch that carries
    the id "c1" twice is refused by Chroma, and the collection keeps the
    record it had; an update whose merged corpus has no token raises in
    [BM25Okapi], and the corpus on disk keeps the old item. *)
Lemma resubmission_refused_counterexample :
  let old := VectorStore.mkChunk "excavators: 4 units" ∅ "c1" None false in
  let new1 := VectorStore.mkChunk "excavators: 5 units" ∅ "c1" None false in
  let new2 := VectorStore.mkChunk "excavators: 6 units" ∅ "c1" None false in
  let coll := (VectorStore.add_chunks String.length [old] ∅).1 in
  let added := VectorStore.add_chunks String.length [new1; new2] coll in
  let tokenize := λ s : string, if bool_decide (s = "") then [] else [s] in
  let update := BM25.update_project_index (λ _, 0%Z) tokenize (λ s, s) "bm25_indices" in
  let fs := update ∅ "P1" [BM25.mkItem "excavators: 4 units" {[ "chunk_id" := "c1" ]}] in
  let blank := [BM25.mkItem "" {[ "chunk_id" := "c1" ]}] in
  added.2 = Py.Raise "DuplicateIDError"
  ∧ VectorStore.document <$> (added.1 !! "c1") = Some "excavators: 4 units"
  ∧ BM25.update_outcome (λ _, 0%Z) tokenize (λ s, s) "bm25_indices" fs "P1" blank
    = Py.Raise "ZeroDivisionError"
  ∧ BM25.content <$> BM25.corpus_of (λ s, s) "bm25_indices" (update fs "P1" blank) "P1"
    = ["excavators: 4 units"].
Proof. vm_compute. done. Qed.

(** Re-submitting a known chunk id to both stores, by evaluation. *)
Example upsert_twice_one_record :
  let update := BM25.update_project_index (λ _, 0%Z) (λ s, [s]) (λ s, s) "bm25_indices" in
  let fs1 := update ∅ "P1" lexical_batch in
  let fs2 := update fs1 "P1" lexical_resubmit in
  BM25.content <$> BM25.corpus_of (λ s, s) "bm25_indices" fs2 "P1"
    = ["excavators: 5 units"; "dump trucks: 10 units"]
  ∧ size (VectorStore.add_chunks String.length parent_child_batch
            (VectorStore.add_chunks String.length parent_child_batch ∅).1).1 = 1.
Proof. vm_compute. done. Qed.

(** ** C5: how the lexical index is persisted *)

(** The write-to-temporary-then-rename protocol never shows a truncated
    file at the final path. *)
Lemma atomic_write_never_partial (fs : gmap string BM25.File) tmp path p :
  tmp ≠ path → fs !! path ≠ Some BM25.Truncated →
  BM25.never_partial path (BM25.observable (BM25.atomic_write tmp path p) fs).
Proof.
  intros Hne Hfs. unfold BM25.never_partial, BM25.atomic_write.
  cbn [BM25.observable BM25.apply_op].
  rewrite (lookup_insert_eq (<[tmp:=BM25.Truncated]> fs) tmp).
  repeat (apply Forall_cons; split); [done|by rewrite !lookup_insert_ne..| |by apply Forall_nil].
  by rewrite lookup_insert_eq.
Qed.



(** ** Orchestrator: recall, fusion and the event stream *)

Section RagFacts.
Import Rag.

Lemma source_method_tagged tag d : source_method (set_source_method tag d) = Some tag.
Proof. unfold source_method, set_source_method. cbn. apply lookup_insert_eq. Qed.

Lemma source_file_tagged tag d :
  metadata (set_source_method tag d) !! "source_file" = metadata d !! "source_file".
Proof. unfold set_source_method. cbn. by rewrite lookup_insert_ne. Qed.

Lemma fuse_stage_docs sv cfg query oq :
  Fusion.initial_docs (fuse_stage sv cfg query oq) =
    (set_source_method "BM25" <$> Fusion.first_seen ∅ (bm25_recall sv cfg query)) ++
    (set_source_method "Vector" <$>
       Fusion.first_seen (Fusion.keys (bm25_recall sv cfg query))
         (vector_recall sv (search_kwargs cfg) oq)).
Proof. unfold fuse_stage. apply fuse_eq. Qed.

Lemma first_seen_nil_inv seen l :
  Fusion.first_seen seen l = [] → ∀ d, d ∈ l → Fusion.dedup_key d ∈ seen.
Proof.
  revert seen. induction l as [|x l IH]; intros seen H d Hd; [by apply elem_of_nil in Hd|].
  cbn in H. case_bool_decide as Hx; [|done].
  apply elem_of_cons in Hd as [->|Hd]; [done|]. by apply (IH seen).
Qed.

Lemma fused_nil sv cfg query oq :
  Fusion.initial_docs (fuse_stage sv cfg query oq) = [] ↔
  vector_recall sv (search_kwargs cfg) oq = [] ∧ bm25_recall sv cfg query = [].
Proof.
  rewrite fuse_stage_docs. split.
  - intros [H1 H2]%app_eq_nil.
    apply fmap_nil_inv in H1. apply fmap_nil_inv in H2.
    assert (bm25_recall sv cfg query = []) as Hb.
    { destruct (bm25_recall sv cfg query) as [|x l]; [done|].
      pose proof (first_seen_nil_inv _ _ H1 x (list_elem_of_here _ _)) as Hx.
      by apply elem_of_empty in Hx. }
    split; [|done]. rewrite Hb in H2.
    destruct (vector_recall sv _ oq) as [|x l]; [done|].
    pose proof (first_seen_nil_inv _ _ H2 x (list_elem_of_here _ _)) as Hx.
    unfold Fusion.keys in Hx. cbn in Hx. by apply elem_of_empty in Hx.
  - intros [-> ->]. done.
Qed.


Lemma expand_node_graph acc node :
  Forall graph_doc acc.1 → Forall graph_doc (expand_node acc node).1.
Proof.
  intros Hacc. unfold expand_node. destruct node as [n|]; [|done].
  case_bool_decide; [done|]. cbn. apply Forall_app. split; [done|].
  apply Forall_singleton. by exists n.
Qed.

Lemma expand_rows_graph rows : ∀ acc,
  Forall graph_doc acc.1 → Forall graph_doc (foldl expand_row acc rows).1.
Proof.
  induction rows as [|r rows IH]; intros acc Hacc; [done|].
  cbn [foldl]. apply IH. unfold expand_row. by do 2 apply expand_node_graph.
Qed.

Lemma expand_docs_graph window docs : ∀ acc acc',
  Forall graph_doc acc.1 → expand_docs window docs acc = Py.Ok acc' →
  Forall graph_doc acc'.1.
Proof.
  induction docs as [|d docs IH]; intros acc acc' Hacc H; cbn in H.
  - by injection H as <-.
  - destruct (Py.truthy_get _); [|by eapply IH].
    destruct (window _ _) as [rows|]; [|done].
    eapply IH; [|exact H]. by apply expand_rows_graph.
Qed.

Lemma expanded_docs_graph sv initial unique :
  Forall graph_doc (expanded_docs sv initial unique).
Proof.
  unfold expanded_docs. destruct initial as [|d0 ds]; [done|].
  destruct (graph_manager sv) as [window|]; [|done].
  destruct (expand_docs _ _ _) as [acc|] eqn:H; [|done].
  eapply expand_docs_graph; [|exact H]. done.
Qed.

Lemma graph_doc_tag d : graph_doc d → source_method d = Some "Graph".
Proof.
  intros [n ->]. unfold source_method. cbn.
  rewrite lookup_insert_ne by done. apply lookup_singleton_eq.
Qed.

Lemma fused_tags sv cfg query oq :
  Forall (λ d, source_method d = Some "BM25" ∨ source_method d = Some "Vector")
    (Fusion.initial_docs (fuse_stage sv cfg query oq)).
Proof.
  rewrite fuse_stage_docs. apply Forall_app. split; apply Forall_fmap, Forall_true; intros d; cbn.
  - left. apply source_method_tagged.
  - right. apply source_method_tagged.
Qed.


Lemma direct_first_app l1 l2 :
  Forall (λ d, source_method d ≠ Some "Graph") l1 →
  Forall (λ d, source_method d = Some "Graph") l2 →
  direct_first (l1 ++ l2).
Proof.
  intros H1 H2 i j g d Hi Hj Hg Hd.
  rewrite Forall_lookup in H1. rewrite Forall_lookup in H2.
  destruct (decide (i < length l1)) as [Hlt|Hge].
  - rewrite lookup_app_l in Hi by done. by apply H1 in Hi.
  - destruct (decide (j < length l1)) as [?|Hj']; [lia|].
    rewrite lookup_app_r in Hj by lia. by apply H2 in Hj.
Qed.

Lemma direct_first_take l n : direct_first l → direct_first (take n l).
Proof.
  intros Hl i j g d [Hi _]%lookup_take_Some [Hj _]%lookup_take_Some. by apply Hl.
Qed.

Lemma recall_direct_first sv cfg query oq : direct_first (recall sv cfg query oq).
Proof.
  unfold recall. apply direct_first_app.
  - eapply Forall_impl; [apply fused_tags|]. intros d [H|H]; rewrite H; discriminate.
  - eapply Forall_impl; [apply expanded_docs_graph|]. intros d. apply graph_doc_tag.
Qed.

Lemma rank_without_reranker sv cfg oq docs :
  reranker sv = None →
  ∃ r, rank sv cfg oq docs = Py.Ok r ∧ final_docs r = Py.slice_to docs (final_top_k cfg).
Proof.
  intros Hr. unfold rank. rewrite Hr. destruct docs as [|d ds]; eexists; split; try reflexivity.
  cbn. unfold Py.slice_to. destruct (0 <=? final_top_k cfg)%Z; by rewrite take_nil.
Qed.

Lemma slice_to_take {A : Type} (l : list A) k : ∃ n, Py.slice_to l k = take n l.
Proof. unfold Py.slice_to. destruct (0 <=? k)%Z; eauto. Qed.

(** The events of the generator. *)
Lemma head_is_status sv cfg query :
  Forall (λ e, is_status e = true) (retrieval sv cfg query).1.
Proof.
  unfold retrieval. cbn [fst]. repeat (apply Forall_cons; split; [done|]).
  apply Forall_app. split.
  - unfold graph_events. destruct (Fusion.initial_docs _); [done|].
    destruct (graph_manager sv); [|done]. by apply Forall_singleton.
  - unfold rank_events. destruct (recall _ _ _ _); [done|].
    destruct (reranker sv); [|done]. by apply Forall_singleton.
Qed.

Lemma generation_is_text sv history context oq :
  Forall (λ e, is_text e = true) (generation_events sv history context oq).
Proof.
  unfold generation_events. destruct (llm_stream _ _ _ _) as [chunks failure].
  apply Forall_app. split; [by apply Forall_fmap, Forall_true|].
  destruct failure; [by apply Forall_singleton|done].
Qed.

Lemma writer_no_sources (l : list WriterEvent) :
  base.filter (λ e, is_sources e = true) (of_writer <$> l) = [].
Proof.
  apply filter_none. intros e (w & -> & _)%list_elem_of_fmap. by destruct w.
Qed.

Lemma filter_sources_status l :
  Forall (λ e, is_status e = true) l → base.filter (λ e, is_sources e = true) l = [].
Proof.
  intros Hl. apply filter_none. intros e He. rewrite Forall_forall in Hl.
  specialize (Hl e He). by destruct e.
Qed.

Lemma filter_sources_text l :
  Forall (λ e, is_text e = true) l → base.filter (λ e, is_sources e = true) l = [].
Proof.
  intros Hl. apply filter_none. intros e He. rewrite Forall_forall in Hl.
  specialize (Hl e He). by destruct e.
Qed.

(** The answer part: one sources event, and what stands before it. *)
Lemma answer_shape sv history oq r :
  ∃ pre d post,
    answer sv history oq r = pre ++ Sources d :: post
    ∧ Forall (λ e, is_text e = true) post
    ∧ match detect_excel_task sv (final_docs r) with
      | None => pre = []
      | Some _ => ∃ t, pre = [Status "📊 启动 Pandas Agent 分析Excel..."; Text t]
      end.
Proof.
  unfold answer. destruct (detect_excel_task sv (final_docs r)) as [[file_path sheet]|].
  - destruct (run_pandas_agent sv file_path sheet oq) as [res|e].
    + eexists [_; _], _, []. split; [reflexivity|]. split; [done|]. by eexists.
    + eexists [_; _], _, _. split; [reflexivity|]. split; [apply generation_is_text|].
      by eexists.
  - eexists [], _, _. split; [reflexivity|]. split; [apply generation_is_text|done].
Qed.

Lemma one_sources pre d post :
  base.filter (λ e, is_sources e = true) pre = [] →
  Forall (λ e, is_text e = true) post →
  base.filter (λ e, is_sources e = true) (pre ++ Sources d :: post) = [Sources d].
Proof.
  intros Hpre Hpost. rewrite filter_app, Hpre, filter_cons_True by done.
  by rewrite filter_sources_text.
Qed.

Lemma sources_position pre d post i d' :
  base.filter (λ e, is_sources e = true) pre = [] →
  Forall (λ e, is_text e = true) post →
  (pre ++ Sources d :: post) !! i = Some (Sources d') → i = length pre.
Proof.
  intros Hpre Hpost Hi.
  destruct (decide (i < length pre)) as [Hlt|Hge].
  - rewrite lookup_app_l in Hi by done.
    apply list_elem_of_lookup_2 in Hi.
    assert (Sources d' ∈ base.filter (λ e, is_sources e = true) pre) as Hin
      by (by apply list_elem_of_filter).
    rewrite Hpre in Hin. by apply elem_of_nil in Hin.
  - rewrite lookup_app_r in Hi by lia.
    destruct (i - length pre) as [|m] eqn:Hm; [lia|].
    cbn in Hi. rewrite Forall_lookup in Hpost. by apply Hpost in Hi.
Qed.

End RagFacts.

(** ** C4: graph-sourced candidates *)

(** C4, as the code has it.  Graph-sourced candidates get no score: step 4
    builds them with a prefixed text and the two metadata entries
    [chunk_id] and [source_method = "Graph"], and appends them after the
    fused (lexical and vector) candidates.  So in the candidate list, and
    in the output of a service without reranker, which is a prefix of it,
    no graph-sourced candidate stands before a directly recalled one. *)
Theorem graph_candidates_follow (sv : Rag.Services) (cfg : Rag.FilterConfig)
    (query optimized_query : string) :
  let st := Rag.fuse_stage sv cfg query optimized_query in
  let fused := Fusion.initial_docs st in
  let expanded := Rag.expanded_docs sv fused (Fusion.unique_ids st) in
  let initial_docs := Rag.recall sv cfg query optimized_query in
  initial_docs = fused ++ expanded
  ∧ Forall (λ d, Rag.source_method d = Some "BM25" ∨ Rag.source_method d = Some "Vector") fused
  ∧ Forall Rag.graph_doc expanded
  ∧ Rag.direct_first initial_docs
  ∧ (Rag.reranker sv = None →
     ∃ r, Rag.rank sv cfg optimized_query initial_docs = Py.Ok r
          ∧ Rag.final_docs r = Py.slice_to initial_docs (Rag.final_top_k cfg)
          ∧ Rag.direct_first (Rag.final_docs r)).
Proof.
  cbn zeta. split_and!.
  - done.
  - apply fused_tags.
  - apply expanded_docs_graph.
  - apply recall_direct_first.
  - intros Hr.
    destruct (rank_without_reranker sv cfg optimized_query
                (Rag.recall sv cfg query optimized_query) Hr) as (r & Hrank & Hfinal).
    exists r. split_and!; [done..|]. rewrite Hfinal.
    destruct (slice_to_take (Rag.recall sv cfg query optimized_query) (Rag.final_top_k cfg))
      as [n ->].
    apply direct_first_take, recall_direct_first.
Qed.

(** C4 as stated fails: on the chain of Scenario B the two candidates
    that step 4 adds for the hit [c2] carry a chunk id and a provenance
    tag and nothing else; no score is assigned to them (nor does any
    fused candidate have one to take a minimum of). *)
Lemma graph_candidates_unscored_counterexample :
  let initial_docs := Rag.recall with_graph all_scope "挖掘机数量" "挖掘机数量" in
  ∃ hit g1 g3,
    initial_docs = [hit; g1; g3]
    ∧ Rag.source_method hit = Some "Vector" ∧ metadata hit !! "score" = None
    ∧ Rag.source_method g1 = Some "Graph" ∧ Rag.source_method g3 = Some "Graph"
    ∧ dom (metadata g1) = {[ "chunk_id"; "source_method" ]}
    ∧ dom (metadata g3) = {[ "chunk_id"; "source_method" ]}
    ∧ metadata g1 !! "score" = None ∧ metadata g3 !! "score" = None.
Proof.
  cbn zeta. do 3 eexists. split; [vm_compute; reflexivity|].
  split_and!; try (vm_compute; reflexivity).
Qed.

(** With a reranker as the specification describes it, the output order is
    the one of the model scores: a graph-sourced candidate can come first. *)
Example graph_candidate_reranked_first :
  let sv := {| Rag.vector_store := Rag.vector_store with_graph;
               Rag.bm25_manager := None;
               Rag.graph_manager := Rag.graph_manager with_graph;
               Rag.reranker := Some (Rag.spec_rerank
                 (λ _ passage, if bool_decide (passage = "[图谱关联] c3") then 1 else 0)%Q);
               Rag.rewrite_query := λ q, q;
               Rag.writer_agent := λ _, [];
               Rag.repo_path := Rag.repo_path with_graph;
               Rag.run_pandas_agent := Rag.run_pandas_agent with_graph;
               Rag.llm_stream := Rag.llm_stream with_graph |} in
  ∃ r, Rag.rank sv all_scope "q" (Rag.recall sv all_scope "q" "q") = Py.Ok r
       ∧ Rag.source_method <$> Rag.final_docs r = [Some "Graph"; Some "Vector"; Some "Graph"].
Proof. cbn zeta. eexists. split; vm_compute; reflexivity. Qed.

(** ** C1: precedence of the file list *)

(** C1, as the code has it.  When the configuration has a non-empty file
    list, the filter handed to the vector store is the single condition
    [source_file in files], whatever project and category are supplied
    with it; so, for a vector store that returns only records satisfying
    its filter, every vector-sourced candidate has its source file in the
    list.  (Lexical candidates are recalled by project and graph
    candidates by chain; the file list is not applied to them.) *)
Theorem file_list_precedence (sv : Rag.Services) (cfg : Rag.FilterConfig)
    (query optimized_query : string) (f : string) (fs : list string) :
  Rag.files cfg = Some (f :: fs) →
  (∀ retriever docs,
     Rag.vector_store sv = Some retriever →
     retriever (Rag.search_kwargs cfg) optimized_query = Py.Ok docs →
     ∀ w, Rag.filter (Rag.search_kwargs cfg) = Some w →
          Forall (λ d, Rag.where_holds w (metadata d) = true) docs) →
  Rag.build_filter cfg = Some (Rag.WIn "source_file" (f :: fs))
  ∧ (∀ d, d ∈ Rag.recall sv cfg query optimized_query →
       Rag.source_method d = Some "Vector" →
       ∃ s, metadata d !! "source_file" = Some s ∧ s ∈ f :: fs).
Proof.
  intros Hfiles Hstore.
  assert (Rag.build_filter cfg = Some (Rag.WIn "source_file" (f :: fs))) as Hfilter.
  { unfold Rag.build_filter, Rag.build_conditions. by rewrite Hfiles. }
  split; [done|]. intros d Hd Htag.
  unfold Rag.recall in Hd. apply elem_of_app in Hd as [Hd|Hd].
  - rewrite fuse_stage_docs in Hd. apply elem_of_app in Hd as [Hd|Hd];
      apply list_elem_of_fmap in Hd as (x & -> & Hx).
    + rewrite source_method_tagged in Htag. discriminate.
    + apply first_seen_subseteq in Hx as [Hx _].
      rewrite source_file_tagged.
      unfold Rag.vector_recall in Hx.
      destruct (Rag.vector_store sv) as [retriever|] eqn:Hvs; [|by apply elem_of_nil in Hx].
      destruct (retriever _ _) as [docs|] eqn:Hdocs; [|by apply elem_of_nil in Hx].
      pose proof (Hstore retriever docs eq_refl Hdocs _ Hfilter) as Hall.
      rewrite Forall_forall in Hall. specialize (Hall x Hx). cbn in Hall.
      destruct (metadata x !! "source_file") as [s|]; [|done].
      exists s. split; [done|]. by apply bool_decide_eq_true in Hall.
  - eapply list.Forall_forall in Hd; [|apply expanded_docs_graph].
    apply graph_doc_tag in Hd. congruence.
Qed.

Lemma file_list_precedence_witness :
  Rag.build_filter project_and_file = Some (Rag.WIn "source_file" ["a.pdf"])
  ∧ (∀ d, d ∈ Rag.recall with_lexical project_and_file "挖掘机数量" "挖掘机数量" →
       Rag.source_method d = Some "Vector" →
       ∃ s, metadata d !! "source_file" = Some s ∧ s ∈ ["a.pdf"]).
Proof.
  apply (file_list_precedence with_lexical project_and_file "挖掘机数量" "挖掘机数量" "a.pdf" []).
  - reflexivity.
  - intros retriever docs [= <-] [= <-] w [= <-].
    vm_compute. repeat constructor.
Defined.

(** C1 as stated fails: with project "X" and the file list [a.pdf]
    supplied together, the lexical index of "X" contributes a chunk of
    b.pdf to the fused result. *)
Lemma file_list_counterexample :
  Rag.files project_and_file = Some ["a.pdf"]
  ∧ ∃ d, d ∈ Fusion.initial_docs
               (Rag.fuse_stage with_lexical project_and_file "挖掘机数量" "挖掘机数量")
         ∧ Rag.source_method d = Some "BM25"
         ∧ metadata d !! "source_file" = Some "b.pdf"
         ∧ "b.pdf" ∉ ["a.pdf"].
Proof.
  split; [reflexivity|]. eexists. split_and!.
  - vm_compute. apply list_elem_of_here.
  - vm_compute. reflexivity.
  - vm_compute. reflexivity.
  - intros [=]%list_elem_of_singleton.
Qed.

(** ** C6: the sources event *)

(** C6, as the code has it.  The generator emits the sources event at
    most once, and exactly once when the query is not handed to the
    document workshop and no exception escapes.  When no Excel task is
    detected among the final candidates every event before it is a status
    event, so no text precedes it; when one is detected, the text of the
    Pandas agent (its result, or the notice of its failure) is emitted
    before the sources event. *)
Theorem sources_event_once (sv : Rag.Services) (query : string)
    (history : list Rag.Message) (top_k : Z) (project_filter : Rag.Scope)
    (filter_config : option Rag.FilterConfig) :
  let cfg := default (Rag.legacy_config top_k project_filter) filter_config in
  let s := Rag.chat_stream sv query history top_k project_filter filter_config in
  let sources := filter (λ e, Rag.is_sources e = true) (Rag.events s) in
  length sources ≤ 1
  ∧ (Rag.writing_intent query = false → Rag.raised s = None → length sources = 1)
  ∧ (∀ r, Rag.writing_intent query = false →
       (Rag.retrieval sv cfg query).2 = Py.Ok r →
       Rag.detect_excel_task sv (Rag.final_docs r) = None →
       ∀ i j d t, Rag.events s !! i = Some (Rag.Sources d) →
                  Rag.events s !! j = Some (Rag.Text t) → i < j)
  ∧ (∀ r, Rag.writing_intent query = false →
       (Rag.retrieval sv cfg query).2 = Py.Ok r →
       Rag.detect_excel_task sv (Rag.final_docs r) ≠ None →
       ∃ i j d t, Rag.events s !! i = Some (Rag.Sources d)
                  ∧ Rag.events s !! j = Some (Rag.Text t) ∧ j < i).
Proof.
  cbn zeta. unfold Rag.chat_stream.
  set (cfg := default _ filter_config).
  destruct (Rag.writing_intent query) eqn:Hintent.
  { cbn [Rag.events Rag.raised]. rewrite writer_no_sources.
    split_and!; [cbn; lia|done..]. }
  pose proof (head_is_status sv cfg query) as Hhead.
  destruct (Rag.retrieval sv cfg query) as [head [r|e]] eqn:Hret; cbn [fst snd] in *;
    cbn [Rag.events Rag.raised].
  2:{ rewrite filter_sources_status by done. split_and!; [cbn; lia|done|done..]. }
  destruct (answer_shape sv history (Rag.rewrite_query sv query) r)
    as (pre & d & post & Hans & Hpost & Hpre).
  rewrite Hans.
  assert (filter (λ e, Rag.is_sources e = true) (head ++ pre) = []) as Hnone.
  { rewrite filter_app, filter_sources_status by done.
    destruct (Rag.detect_excel_task sv (Rag.final_docs r)); [by destruct Hpre as [t ->]|by subst]. }
  rewrite (assoc_L (++) head pre).
  rewrite one_sources by done.
  split_and!; [cbn; lia|done| |].
  - intros r' _ [= <-] Hdet i j d' t Hi Hj. rewrite Hdet in Hpre. subst pre.
    rewrite app_nil_r in *.
    pose proof (sources_position _ _ _ _ _ Hnone Hpost Hi) as ->.
    destruct (decide (j < length head)) as [Hlt|Hge]; [|].
    + rewrite lookup_app_l in Hj by done. rewrite Forall_lookup in Hhead.
      by apply Hhead in Hj.
    + destruct (decide (j = length head)) as [->|Hne]; [|lia].
      rewrite list_lookup_middle in Hj by done. discriminate.
  - intros r' _ [= <-] Hdet.
    destruct (Rag.detect_excel_task sv (Rag.final_docs r)); [|done].
    destruct Hpre as [t ->].
    exists (length (head ++ [Rag.Status "📊 启动 Pandas Agent 分析Excel..."; Rag.Text t])),
           (length head + 1), d, t.
    split_and!.
    + by rewrite list_lookup_middle.
    + rewrite <- (assoc_L (++)). rewrite lookup_app_r by lia.
      by replace (length head + 1 - length head) with 1 by lia.
    + rewrite length_app. cbn. lia.
Qed.

(** C6 as stated fails: for a query whose final candidates are rows of an
    Excel sheet the Pandas agent answers first, and the text event with
    its result is emitted before the sources event. *)
Lemma text_before_sources_counterexample :
  let s := Rag.chat_stream with_excel "挖掘机数量" [] 6 Rag.ScopeNone (Some all_scope) in
  ∃ head hit,
    Rag.events s = head ++ [Rag.Text "4"; Rag.Sources [hit]]
    ∧ Forall (λ e, Rag.is_status e = true) head
    ∧ Rag.first_index Rag.is_text (Rag.events s) = Some 3
    ∧ Rag.first_index Rag.is_sources (Rag.events s) = Some 4.
Proof.
  cbn zeta. eexists [_; _; _], _. split_and!.
  - vm_compute. reflexivity.
  - repeat constructor.
  - vm_compute. reflexivity.
  - vm_compute. reflexivity.
Qed.

(** ** C7: degradation of recall *)


(** Scenario A, with the lexical index disabled: under the scope of
    project "X" the unrelated chunk of project "Y" is not returned, and
    the two chunks of "X" come in the order of the vector store. *)
Example recall_vector_only_scenario_A :
  page_content <$> Rag.recall vector_only
      (default (Rag.legacy_config 6 (Rag.ScopeStr "X")) None) "挖掘机数量" "挖掘机数量"
  = ["挖掘机4台"; "自卸汽车10辆"].
Proof. vm_compute. reflexivity. Qed.

(** ** Lexical search over the persisted index *)

Lemma str_app_cons (c : Ascii.ascii) (a b : string) :
  String c a +:+ b = String c (a +:+ b).
Proof. reflexivity. Qed.

Lemma str_app_length (a b : string) :
  String.length (a +:+ b) = String.length a + String.length b.
Proof.
  induction a as [|c a IH]; [done|].
  rewrite str_app_cons. cbn. by rewrite IH.
Qed.

Lemma str_app_assoc (a b c : string) : (a +:+ b) +:+ c = a +:+ (b +:+ c).
Proof.
  induction a as [|x a IH]; [done|].
  rewrite !str_app_cons. by rewrite IH.
Qed.

(** Two strings with suffixes of the same length are equal only if the
    suffixes are. *)
Lemma str_app_suffix (a : string) : ∀ (b x y : string),
  String.length x = String.length y → a +:+ x = b +:+ y → a = b ∧ x = y.
Proof.
  induction a as [|c a IH]; intros [|d b] x y Hlen Heq.
  - done.
  - change ("" +:+ x) with x in Heq. subst x.
    rewrite str_app_cons in Hlen. cbn in Hlen. rewrite str_app_length in Hlen. lia.
  - change ("" +:+ y) with y in Heq. subst y.
    rewrite str_app_cons in Hlen. cbn in Hlen. rewrite str_app_length in Hlen. lia.
  - rewrite !str_app_cons in Heq. injection Heq as -> Heq.
    destruct (IH b x y Hlen Heq) as [-> ->]. done.
Qed.

Section LexicalFacts.
Import BM25 Lexical.
Variable py_hash : string → Z.
Variable tokenize : string → list string.
Variable safe_name : string → string.
Variable index_dir : string.
Variable get_scores : list (list string) → list string → Py.Exc (list Q).
Variable get_top_n :
  list (list string) → list string → list BM25.Item → nat → Py.Exc (list BM25.Item).

Local Abbreviation paths := (get_file_paths safe_name index_dir).
Local Abbreviation update := (update_project_index py_hash tokenize safe_name index_dir).
Local Abbreviation lookup_index :=
  (Lexical.search tokenize safe_name index_dir get_scores get_top_n).
Local Abbreviation step :=
  (Lexical.search_step safe_name index_dir get_scores get_top_n).

(** Projects with different safe names have no file in common. *)
Lemma paths_disjoint p q :
  safe_name p ≠ safe_name q →
  (paths p).1 ≠ (paths q).1 ∧ (paths p).1 ≠ (paths q).2
  ∧ (paths p).2 ≠ (paths q).1 ∧ (paths p).2 ≠ (paths q).2.
Proof.
  intros Hne. unfold get_file_paths. cbn [fst snd].
  set (bp := index_dir +:+ "/" +:+ safe_name p).
  set (bq := index_dir +:+ "/" +:+ safe_name q).
  assert (bp ≠ bq) as Hb.
  { subst bp bq. intros H. apply (inj (String.app index_dir)) in H.
    apply (inj (String.app "/")) in H. done. }
  split_and!.
  - intros H. apply str_app_suffix in H as [? _]; done.
  - change "_model.pkl" with ("_" +:+ "model.pkl"). rewrite <- str_app_assoc.
    intros H. apply str_app_suffix in H as [_ ?]; done.
  - change "_model.pkl" with ("_" +:+ "model.pkl"). rewrite <- str_app_assoc.
    intros H. symmetry in H. apply str_app_suffix in H as [_ ?]; done.
  - intros H. apply str_app_suffix in H as [? _]; done.
Qed.

(** The loop reads the directory at the files of its targets only. *)
Lemma search_step_ext (fs1 fs2 : gmap string File) tq top_k results proj :
  fs1 !! (paths proj).1 = fs2 !! (paths proj).1 →
  fs1 !! (paths proj).2 = fs2 !! (paths proj).2 →
  step fs1 tq top_k results proj = step fs2 tq top_k results proj.
Proof.
  intros H1 H2. unfold search_step, load_and_rank, pickle_load.
  destruct (get_file_paths safe_name index_dir proj) as [mp dp] eqn:Hp.
  cbn [fst snd] in *. by rewrite H1, H2.
Qed.

Lemma search_ext (fs1 fs2 : gmap string File) query targets top_k :
  (∀ t, t ∈ targets →
     fs1 !! (paths t).1 = fs2 !! (paths t).1 ∧ fs1 !! (paths t).2 = fs2 !! (paths t).2) →
  lookup_index fs1 query (Many targets) top_k = lookup_index fs2 query (Many targets) top_k.
Proof.
  unfold search. generalize (@nil Item). 
  induction targets as [|t ts IH]; intros acc Hts; [done|].
  cbn [foldl]. destruct (Hts t) as [H1 H2]; [by left|].
  rewrite (search_step_ext fs1 fs2) by done.
  apply IH. intros t' Ht'. apply Hts. by right.
Qed.

(** While [ops] run, the files they do not name stay as they were. *)
Lemma observable_outside ops : ∀ (fs st : gmap string File) path,
  st ∈ observable ops fs →
  (∀ op, op ∈ ops → match op with
                     | OpenWb p | DumpClose p _ => p ≠ path
                     | Replace s d => s ≠ path ∧ d ≠ path
                     end) →
  st !! path = fs !! path.
Proof.
  induction ops as [|op ops IH]; intros fs st path Hst Hops; cbn in Hst.
  - by apply list_elem_of_singleton in Hst as ->.
  - apply elem_of_cons in Hst as [->|Hst]; [done|].
    rewrite (IH _ _ path Hst) by (intros op' Hop'; apply Hops; by right).
    specialize (Hops op (list_elem_of_here _ _)).
    destruct op as [p|p pk|s d]; cbn.
    + by rewrite lookup_insert_ne.
    + by rewrite lookup_insert_ne.
    + destruct Hops as [Hs Hd]. destruct (fs !! s); [|done].
      rewrite lookup_insert_ne by done. by rewrite lookup_delete_ne.
Qed.

Lemma update_ops_names fs project new_chunks op :
  op ∈ update_ops py_hash tokenize safe_name index_dir fs project new_chunks →
  match op with
  | OpenWb p | DumpClose p _ => p = (paths project).1 ∨ p = (paths project).2
  | Replace _ _ => False
  end.
Proof.
  unfold update_ops. destruct (get_file_paths safe_name index_dir project) as [mp dp].
  cbn [fst snd]. destruct (merge_data _ _ _); [by intros ?%elem_of_nil|].
  destruct (build_index _ _); [|by intros ?%elem_of_nil].
  intros Hin. repeat (apply elem_of_cons in Hin as [->|Hin]; [by auto|]).
  by apply elem_of_nil in Hin.
Qed.

Lemma observable_last ops : ∀ fs : gmap string File, run ops fs ∈ observable ops fs.
Proof.
  induction ops as [|op ops IH]; intros fs; cbn.
  - by left.
  - right. apply IH.
Qed.

Lemma update_elsewhere fs project new_chunks st t :
  st ∈ observable (update_ops py_hash tokenize safe_name index_dir fs project new_chunks) fs →
  safe_name t ≠ safe_name project →
  st !! (paths t).1 = fs !! (paths t).1 ∧ st !! (paths t).2 = fs !! (paths t).2.
Proof.
  intros Hst Hne. destruct (paths_disjoint t project Hne) as (H1 & H2 & H3 & H4).
  split; apply (observable_outside _ _ _ _ Hst); intros op Hop;
    apply update_ops_names in Hop; destruct op; try done;
    intros ->; destruct Hop as [Hop|Hop]; done.
Qed.

End LexicalFacts.

(** X1.  Round trip between [update_project_index] and [search]: once a
    project has been updated with a merged corpus that holds a token, so
    that its index could be built and was written, a search restricted to
    a project name with the same file-system-safe form (the project itself,
    for one) returns the ranking of the query against the merged corpus by
    the index built from that corpus.  The name "所有项目" is never
    searched. *)
Theorem search_after_update (py_hash : string → Z) (tokenize : string → list string)
    (safe_name : string → string) (index_dir : string)
    (get_scores : list (list string) → list string → Py.Exc (list Q))
    (get_top_n : list (list string) → list string → list BM25.Item → nat
                 → Py.Exc (list BM25.Item))
    (fs : gmap string BM25.File) (project target query : string)
    (new_chunks : list BM25.Item) (top_k : nat) :
  let data_path := (BM25.get_file_paths safe_name index_dir project).2 in
  let full_data := BM25.merge_data py_hash (BM25.load_existing fs data_path) new_chunks in
  let fs' := BM25.update_project_index py_hash tokenize safe_name index_dir
               fs project new_chunks in
  safe_name target = safe_name project →
  concat (tokenize <$> (BM25.content <$> full_data)) ≠ [] →
  (target ≠ "所有项目" →
   Lexical.search tokenize safe_name index_dir get_scores get_top_n fs' query
     (Lexical.Many [target]) top_k
   = Lexical.ranked tokenize get_scores get_top_n
       (tokenize <$> (BM25.content <$> full_data)) full_data query top_k)
  ∧ Lexical.search tokenize safe_name index_dir get_scores get_top_n fs' query
      (Lexical.Many ["所有项目"]) top_k = [].
Proof.
  cbn zeta. intros Hsafe Hfull.
  assert (BM25.get_file_paths safe_name index_dir target
          = BM25.get_file_paths safe_name index_dir project) as Hpaths.
  { unfold BM25.get_file_paths. by rewrite Hsafe. }
  split; [|done].
  intros Htarget. unfold Lexical.search. cbn [foldl]. unfold Lexical.search_step.
  rewrite bool_decide_eq_false_2 by done.
  unfold Lexical.load_and_rank, Lexical.pickle_load. rewrite Hpaths.
  pose proof (paths_differ safe_name index_dir project) as Hne.
  rewrite update_unfold. cbn zeta.
  destruct (BM25.get_file_paths safe_name index_dir project) as [mp dp] eqn:Hp.
  cbn [fst snd] in *.
  rewrite (bool_decide_eq_false_2 (concat _ = [])) by done.
  rewrite (lookup_insert_ne _ dp mp) by done. rewrite !lookup_insert_eq.
  rewrite bool_decide_eq_false_2 by done.
  unfold Lexical.ranked. by destruct (Lexical.top_n_of _ _ _ _ _ _).
Qed.

Lemma search_after_update_witness :
  let tokenize := λ s : string, [s] in
  let get_scores := λ (tc : list (list string)) (q : list string),
                      Py.Ok ((λ _, 1%Q) <$> tc) in
  let get_top_n := λ (tc : list (list string)) (q : list string)
                     (docs : list BM25.Item) (n : nat), Py.Ok (take n docs) in
  let fs' := BM25.update_project_index (λ _, 0%Z) tokenize (λ s, s) "bm25_indices"
               ∅ "P1" lexical_batch in
  ("P1" ≠ "所有项目" →
   Lexical.search tokenize (λ s, s) "bm25_indices" get_scores get_top_n fs' "excavators"
     (Lexical.Many ["P1"]) 5
   = Lexical.ranked tokenize get_scores get_top_n
       (tokenize <$> (BM25.content <$>
          BM25.merge_data (λ _, 0%Z)
            (BM25.load_existing ∅ (BM25.get_file_paths (λ s, s) "bm25_indices" "P1").2)
            lexical_batch))
       (BM25.merge_data (λ _, 0%Z)
            (BM25.load_existing ∅ (BM25.get_file_paths (λ s, s) "bm25_indices" "P1").2)
            lexical_batch) "excavators" 5)
  ∧ Lexical.search tokenize (λ s, s) "bm25_indices" get_scores get_top_n fs' "excavators"
      (Lexical.Many ["所有项目"]) 5 = [].
Proof.
  apply (search_after_update (λ _, 0%Z) (λ s : string, [s]) (λ s, s) "bm25_indices"
           (λ tc q, Py.Ok ((λ _, 1%Q) <$> tc)) (λ tc q docs n, Py.Ok (take n docs))
           ∅ "P1" "P1" "excavators" lexical_batch 5).
  - reflexivity.
  - vm_compute. discriminate.
Defined.

(** X2.  Project isolation: an update of one project changes no search
    over projects whose file-system-safe names differ from its own, neither
    when it has returned nor in any state of the directory that a
    concurrent search can find while it runs. *)
Theorem search_isolated_from_update (py_hash : string → Z) (tokenize : string → list string)
    (safe_name : string → string) (index_dir : string)
    (get_scores : list (list string) → list string → Py.Exc (list Q))
    (get_top_n : list (list string) → list string → list BM25.Item → nat
                 → Py.Exc (list BM25.Item))
    (fs : gmap string BM25.File) (project query : string) (targets : list string)
    (new_chunks : list BM25.Item) (top_k : nat) :
  let lookup_index := Lexical.search tokenize safe_name index_dir get_scores get_top_n in
  let ops := BM25.update_ops py_hash tokenize safe_name index_dir fs project new_chunks in
  (∀ t, t ∈ targets → safe_name t ≠ safe_name project) →
  (∀ st, st ∈ BM25.observable ops fs →
     lookup_index st query (Lexical.Many targets) top_k
     = lookup_index fs query (Lexical.Many targets) top_k)
  ∧ lookup_index
      (BM25.update_project_index py_hash tokenize safe_name index_dir fs project new_chunks)
      query (Lexical.Many targets) top_k
    = lookup_index fs query (Lexical.Many targets) top_k.
Proof.
  cbn zeta. intros Hts.
  assert (∀ st, st ∈ BM25.observable
            (BM25.update_ops py_hash tokenize safe_name index_dir fs project new_chunks) fs →
     Lexical.search tokenize safe_name index_dir get_scores get_top_n st query
       (Lexical.Many targets) top_k
     = Lexical.search tokenize safe_name index_dir get_scores get_top_n fs query
       (Lexical.Many targets) top_k) as Hall.
  { intros st Hst. apply search_ext. intros t Ht.
    eapply update_elsewhere; [exact Hst|by apply Hts]. }
  split; [exact Hall|]. apply Hall. apply observable_last.
Qed.

Lemma search_isolated_from_update_witness :
  let tokenize := λ s : string, [s] in
  let get_scores := λ (tc : list (list string)) (q : list string),
                      Py.Ok ((λ _, 1%Q) <$> tc) in
  let get_top_n := λ (tc : list (list string)) (q : list string)
                     (docs : list BM25.Item) (n : nat), Py.Ok (take n docs) in
  let lookup_index := Lexical.search tokenize (λ s, s) "bm25_indices" get_scores get_top_n in
  let fs := BM25.update_project_index (λ _, 0%Z) tokenize (λ s, s) "bm25_indices"
              ∅ "P1" lexical_batch in
  let ops := BM25.update_ops (λ _, 0%Z) tokenize (λ s, s) "bm25_indices"
               fs "P2" lexical_resubmit in
  (∀ st, st ∈ BM25.observable ops fs →
     lookup_index st "excavators" (Lexical.Many ["P1"]) 5
     = lookup_index fs "excavators" (Lexical.Many ["P1"]) 5)
  ∧ lookup_index
      (BM25.update_project_index (λ _, 0%Z) tokenize (λ s, s) "bm25_indices"
         fs "P2" lexical_resubmit)
      "excavators" (Lexical.Many ["P1"]) 5
    = lookup_index fs "excavators" (Lexical.Many ["P1"]) 5.
Proof.
  apply (search_isolated_from_update (λ _, 0%Z) (λ s : string, [s]) (λ s, s) "bm25_indices"
           (λ tc q, Py.Ok ((λ _, 1%Q) <$> tc)) (λ tc q docs n, Py.Ok (take n docs))).
  intros t ->%list_elem_of_singleton. discriminate.
Defined.

Section LexicalFaults.
Import BM25 Lexical.
Variable tokenize : string → list string.
Variable safe_name : string → string.
Variable index_dir : string.
Variable get_scores : list (list string) → list string → Py.Exc (list Q).
Variable get_top_n :
  list (list string) → list string → list BM25.Item → nat → Py.Exc (list BM25.Item).

Local Abbreviation paths := (get_file_paths safe_name index_dir).
Local Abbreviation step :=
  (Lexical.search_step safe_name index_dir get_scores get_top_n).

(** A project that is not searched, or whose files cannot be read, leaves
    the results as they are. *)
Lemma search_step_unreadable (fs : gmap string File) tq top_k results proj :
  proj = "所有项目"
  ∨ fs !! (paths proj).1 = None ∨ fs !! (paths proj).1 = Some Truncated
  ∨ fs !! (paths proj).2 = None ∨ fs !! (paths proj).2 = Some Truncated →
  step fs tq top_k results proj = results.
Proof.
  intros H. unfold search_step, load_and_rank, pickle_load.
  case_bool_decide; [done|]. case_bool_decide; [done|].
  destruct (get_file_paths safe_name index_dir proj) as [mp dp]. cbn [fst snd] in *.
  destruct H as [?|[?|[H|[H|H]]]]; try done; rewrite H; try done.
  - by destruct (fs !! mp) as [[?|]|].
  - by destruct (fs !! mp) as [[?|]|].
Qed.

End LexicalFaults.

(** X3.  An index that cannot be read costs its own project's results and
    nothing else: a target that is "所有项目", that has no model file, or
    whose model or data file is missing or truncated, contributes nothing
    to the results and the search goes on with the other targets as if it
    had not been named.  Such a state occurs during every update that
    writes, that is, whose merged corpus holds a token: while
    [update_project_index] runs, a concurrent search of the project comes
    back empty, once with the model file truncated and once with the data
    file truncated. *)
Theorem search_skips_unreadable_index (py_hash : string → Z)
    (tokenize : string → list string)
    (safe_name : string → string) (index_dir : string)
    (get_scores : list (list string) → list string → Py.Exc (list Q))
    (get_top_n : list (list string) → list string → list BM25.Item → nat
                 → Py.Exc (list BM25.Item))
    (fs : gmap string BM25.File) (project query : string) (before after : list string)
    (new_chunks : list BM25.Item) (top_k : nat) :
  let lookup_index := Lexical.search tokenize safe_name index_dir get_scores get_top_n in
  let model_path := (BM25.get_file_paths safe_name index_dir project).1 in
  let data_path := (BM25.get_file_paths safe_name index_dir project).2 in
  let full_data := BM25.merge_data py_hash (BM25.load_existing fs data_path) new_chunks in
  let ops := BM25.update_ops py_hash tokenize safe_name index_dir fs project new_chunks in
  (∀ st : gmap string BM25.File,
     project = "所有项目"
     ∨ st !! model_path = None ∨ st !! model_path = Some BM25.Truncated
     ∨ st !! data_path = None ∨ st !! data_path = Some BM25.Truncated →
     lookup_index st query (Lexical.Many (before ++ project :: after)) top_k
     = lookup_index st query (Lexical.Many (before ++ after)) top_k)
  ∧ (concat (tokenize <$> (BM25.content <$> full_data)) ≠ [] →
     ∃ st1 st2,
       st1 ∈ BM25.observable ops fs ∧ st2 ∈ BM25.observable ops fs
       ∧ st1 !! model_path = Some BM25.Truncated
       ∧ st2 !! data_path = Some BM25.Truncated
       ∧ lookup_index st1 query (Lexical.Many [project]) top_k = []
       ∧ lookup_index st2 query (Lexical.Many [project]) top_k = []).
Proof.
  cbn zeta. split.
  - intros st Hst. unfold Lexical.search. rewrite !foldl_app. cbn [foldl].
    by rewrite search_step_unreadable.
  - intros Hfull. unfold BM25.update_ops.
    destruct (BM25.get_file_paths safe_name index_dir project) as [mp dp] eqn:Hp.
    cbn [fst snd] in *.
    destruct (BM25.merge_data _ _ _) as [|x l]; [done|].
    rewrite build_index_ok by done.
    cbn [BM25.observable BM25.apply_op].
    eexists _, _. split_and!.
    + right. left.
    + do 3 right. left.
    + apply lookup_insert_eq.
    + apply lookup_insert_eq.
    + unfold Lexical.search. cbn [foldl]. apply search_step_unreadable.
      rewrite Hp. cbn [fst]. right. right. left. apply lookup_insert_eq.
    + unfold Lexical.search. cbn [foldl]. apply search_step_unreadable.
      rewrite Hp. cbn [snd]. do 4 right. apply lookup_insert_eq.
Qed.

(** ** Re-ingesting a document into the graph *)

Section ReingestFacts.
Import Graph ChainView.

Variable uuid5 : string → string.
Variable filename : string.
Hypothesis uuid5_inj : ∀ s t, uuid5 s = uuid5 t → s = t.
Hypothesis uuid5_nonempty : ∀ s, uuid5 s ≠ "".

Local Abbreviation cid := (chunk_id_of uuid5 filename).
Local Abbreviation edge := (λ a, (cid a, cid (S a))).
Local Abbreviation node := (node_of uuid5 filename).
Local Abbreviation create := (create_document_structure uuid5 filename).

(** [MERGE] of the relationships of a chain, in order. *)
Local Abbreviation add_edges :=
  (foldl (λ (r : list (string * string)) a,
            if bool_decide (edge a ∈ r) then r else r ++ [edge a])).

Lemma add_edges_keeps l : ∀ r e, e ∈ r → e ∈ add_edges r l.
Proof.
  induction l as [|a l IH]; intros r e He; cbn [foldl]; [done|].
  apply IH. case_bool_decide; [done|]. apply elem_of_app. by left.
Qed.

Lemma add_edges_adds l : ∀ r a, a ∈ l → edge a ∈ add_edges r l.
Proof.
  induction l as [|b l IH]; intros r a Ha; cbn [foldl]; [by apply elem_of_nil in Ha|].
  apply elem_of_cons in Ha as [->|Ha]; [|by apply IH].
  apply add_edges_keeps. case_bool_decide; [done|].
  apply elem_of_app. right. by left.
Qed.

Lemma add_edges_known l : ∀ r, (∀ a, a ∈ l → edge a ∈ r) → add_edges r l = r.
Proof.
  induction l as [|b l IH]; intros r Hl; cbn [foldl]; [done|].
  rewrite bool_decide_eq_true_2 by (apply Hl; by left).
  apply IH. intros a Ha. apply Hl. by right.
Qed.

(** The loop of [_create_chain_tx] on any graph. *)
Lemma create_chain_from_any cs : ∀ p db,
  is_Some (chunks db !! cid p) →
  let R := create_chain_from uuid5 filename (S p) (Some (cid p)) cs db in
  next_rel R = add_edges (next_rel db) (seq p (length cs))
  ∧ (∀ j c, cs !! j = Some c → chunks R !! cid (S p + j) = Some (node (S p + j) c))
  ∧ (∀ x, (∀ j, j < length cs → x ≠ cid (S p + j)) → chunks R !! x = chunks db !! x).
Proof.
  induction cs as [|c cs IH]; intros p db Hp; cbn zeta.
  - cbn. split_and!; [done| |done].
    intros j c Hj. by apply lookup_nil_Some in Hj || inversion Hj.
  - cbn [create_chain_from]. rewrite truthy_cid by done.
    set (n := {| id := cid (S p); text := content c; page := in_page c; index := S p |}).
    assert (merge_next (cid p) (cid (S p)) (merge_chunk n db) =
      {| chunks := <[cid (S p) := n]> (chunks db);
         next_rel := add_edges (next_rel db) [p] |}) as ->.
    { unfold merge_next, merge_chunk. cbn.
      rewrite bool_decide_eq_true_2.
      - by case_bool_decide.
      - split; [|by rewrite lookup_insert_eq].
        destruct (decide (cid (S p) = cid p)) as [->|Hne];
          [by rewrite lookup_insert_eq|by rewrite lookup_insert_ne]. }
    match goal with |- context [create_chain_from _ _ _ _ _ ?d] => set (db2 := d) end.
    destruct (IH (S p) db2) as (IH1 & IH2 & IH3).
    { subst db2; cbn. by rewrite lookup_insert_eq. }
    split_and!.
    + rewrite IH1. subst db2. by cbn.
    + intros [|j] c' Hj.
      * injection Hj as <-. rewrite IH3.
        -- subst db2; cbn. rewrite Nat.add_0_r. by rewrite lookup_insert_eq.
        -- intros j _ Heq%(cid_inj uuid5 filename uuid5_inj). lia.
      * cbn in Hj. specialize (IH2 j c' Hj).
        replace (S p + S j) with (S (S p) + j) by lia. done.
    + intros x Hx. rewrite IH3.
      * subst db2; cbn. rewrite lookup_insert_ne; [done|].
        intros Heq. apply (Hx 0); [cbn; lia|]. by rewrite Nat.add_0_r.
      * intros j Hj. replace (S (S p) + j) with (S p + S j) by lia.
        apply Hx. cbn. lia.
Qed.

Lemma create_any cs db :
  next_rel (create cs db) = add_edges (next_rel db) (seq 0 (length cs - 1))
  ∧ (∀ j c, cs !! j = Some c → chunks (create cs db) !! cid j = Some (node j c))
  ∧ (∀ x, (∀ j, j < length cs → x ≠ cid j) → chunks (create cs db) !! x = chunks db !! x).
Proof.
  unfold create_document_structure. destruct cs as [|c cs]; [done|].
  cbn [create_chain_from Py.truthy_get].
  set (db1 := merge_chunk _ db).
  destruct (create_chain_from_any cs 0 db1) as (H1 & H2 & H3).
  { subst db1; cbn. by rewrite lookup_insert_eq. }
  split_and!.
  - rewrite H1. subst db1; cbn. by rewrite Nat.sub_0_r.
  - intros [|j] c' Hj.
    + injection Hj as <-. rewrite H3.
      * subst db1; cbn. by rewrite lookup_insert_eq.
      * intros j _ Heq%(cid_inj uuid5 filename uuid5_inj). lia.
    + cbn in Hj. by apply (H2 j c').
  - intros x Hx. rewrite H3.
    + subst db1; cbn. rewrite lookup_insert_ne; [done|].
      intros Heq. apply (Hx 0); [cbn; lia|done].
    + intros j Hj. apply (Hx (S j)). cbn. lia.
Qed.

Lemma db_eq (a b : Db) : chunks a = chunks b → next_rel a = next_rel b → a = b.
Proof. destruct a, b; cbn; by intros -> ->. Qed.

Lemma reingest_eq cs1 cs2 db :
  create cs2 (create cs1 db) = create (cs2 ++ drop (length cs2) cs1) db.
Proof.
  destruct (create_any cs1 db) as (A1 & A2 & A3).
  destruct (create_any cs2 (create cs1 db)) as (B1 & B2 & B3).
  destruct (create_any (cs2 ++ drop (length cs2) cs1) db) as (C1 & C2 & C3).
  assert (length (cs2 ++ drop (length cs2) cs1) = length cs2 `max` length cs1) as Hlen.
  { rewrite length_app, length_drop. lia. }
  apply db_eq.
  - apply map_eq. intros x.
    destruct (decide (x ∈ cid <$> seq 0 (length cs2))) as [Hx|Hx].
    { apply list_elem_of_fmap in Hx as (j & -> & Hj). apply elem_of_seq in Hj.
      destruct (lookup_lt_is_Some_2 cs2 j) as [c Hc]; [lia|].
      rewrite (B2 j c Hc). symmetry. apply C2. by rewrite lookup_app_l by lia. }
    assert (∀ j, j < length cs2 → x ≠ cid j) as Hx2.
    { intros j Hj ->. apply Hx. apply list_elem_of_fmap. exists j. split; [done|].
      apply elem_of_seq. lia. }
    rewrite (B3 x Hx2).
    destruct (decide (x ∈ cid <$> seq 0 (length cs1))) as [Hy|Hy].
    { apply list_elem_of_fmap in Hy as (j & -> & Hj). apply elem_of_seq in Hj.
      assert (length cs2 ≤ j) as Hge.
      { destruct (decide (length cs2 ≤ j)); [done|]. exfalso. apply (Hx2 j); [lia|done]. }
      destruct (lookup_lt_is_Some_2 cs1 j) as [c Hc]; [lia|].
      rewrite (A2 j c Hc). symmetry. apply C2.
      rewrite lookup_app_r by lia. rewrite lookup_drop.
      by replace (length cs2 + (j - length cs2)) with j by lia. }
    assert (∀ j, j < length cs1 → x ≠ cid j) as Hx1.
    { intros j Hj ->. apply Hy. apply list_elem_of_fmap. exists j. split; [done|].
      apply elem_of_seq. lia. }
    rewrite (A3 x Hx1). symmetry. apply C3.
    intros j Hj. rewrite Hlen in Hj.
    destruct (decide (j < length cs2)); [by apply Hx2|apply Hx1; lia].
  - rewrite B1, A1, C1, Hlen.
    destruct (decide (length cs2 ≤ length cs1)) as [Hle|Hgt].
    + rewrite Nat.max_r by lia. apply add_edges_known.
      intros a Ha%elem_of_seq. apply add_edges_adds. apply elem_of_seq. lia.
    + rewrite Nat.max_l by lia.
      replace (length cs2 - 1) with ((length cs1 - 1) + (length cs2 - 1 - (length cs1 - 1)))
        by lia.
      rewrite seq_app, !foldl_app. f_equal.
      apply add_edges_known. intros a Ha. by apply add_edges_adds.
Qed.

End ReingestFacts.

(** X4.  Ingesting the chunks [cs2] of a file into a graph that already
    holds the chunks [cs1] of a file of the same name gives the graph that
    ingesting [cs2] followed by the chunks of [cs1] beyond the length of
    [cs2] gives: chunks are overwritten position by position, nothing is
    deleted, and the chunks of a longer earlier version stay in the chain.
    In particular ingesting the same chunks twice changes nothing. *)
Theorem reingest_overwrites_by_position (uuid5 : string → string) (filename : string)
    (cs1 cs2 : list Graph.ChunkIn) (db : Graph.Db) :
  (∀ s t, uuid5 s = uuid5 t → s = t) →
  (∀ s, uuid5 s ≠ "") →
  let create := Graph.create_document_structure uuid5 filename in
  create cs2 (create cs1 db) = create (cs2 ++ drop (length cs2) cs1) db
  ∧ create cs1 (create cs1 db) = create cs1 db.
Proof.
  intros Hinj Hne. cbn zeta. split.
  - by apply reingest_eq.
  - rewrite reingest_eq by done. by rewrite drop_all, app_nil_r.
Qed.

Lemma reingest_overwrites_by_position_witness :
  let create := Graph.create_document_structure scenario_uuid5 "tender.docx" in
  create (take 2 scenario_chain) (create scenario_chain Graph.empty_db)
    = create (take 2 scenario_chain ++ drop (length (take 2 scenario_chain)) scenario_chain)
        Graph.empty_db
  ∧ create scenario_chain (create scenario_chain Graph.empty_db)
    = create scenario_chain Graph.empty_db.
Proof.
  apply (reingest_overwrites_by_position scenario_uuid5 "tender.docx"
           scenario_chain (take 2 scenario_chain) Graph.empty_db).
  - intros s t H. by apply (inj (String.app "uuid-")) in H.
  - intros s. unfold scenario_uuid5. cbn. discriminate.
Defined.

(** X5.  After a file has been ingested again with fewer chunks, the
    window query on the last chunk of the new version still names a
    successor: the chunk of the earlier version at the next position, with
    its old text. *)
Theorem reingest_leaves_stale_successor (uuid5 : string → string) (filename : string)
    (cs1 cs2 : list Graph.ChunkIn) (old : Graph.ChunkIn) :
  (∀ s t, uuid5 s = uuid5 t → s = t) →
  (∀ s, uuid5 s ≠ "") →
  0 < length cs2 →
  cs1 !! length cs2 = Some old →
  let create := Graph.create_document_structure uuid5 filename in
  let db := create cs2 (create cs1 Graph.empty_db) in
  let rows := Graph.get_context_window db
                (Graph.chunk_id_of uuid5 filename (length cs2 - 1)) 1 in
  Graph.next_chunks rows = [ChainView.node_of uuid5 filename (length cs2) old]
  ∧ Graph.text <$> Graph.next_chunks rows = [Graph.content old].
Proof.
  intros Hinj Hne Hpos Hold. cbn zeta.
  rewrite reingest_eq by done.
  set (cs := cs2 ++ drop (length cs2) cs1).
  destruct (lookup_lt_is_Some_2 cs2 (length cs2 - 1)) as [c Hc]; [lia|].
  assert (cs !! (length cs2 - 1) = Some c) as Hc'.
  { subst cs. by rewrite lookup_app_l by lia. }
  rewrite (window_rows uuid5 filename Hinj Hne cs (length cs2 - 1) c 1 Hc').
  rewrite next_chunks_product by (eapply stretch_NoDup, stretch_after).
  assert (ChainView.after (length cs2 - 1) 1 (ChainView.chain_nodes uuid5 filename cs)
          = [ChainView.node_of uuid5 filename (length cs2) old]) as ->; [|done].
  unfold ChainView.after. replace (S (length cs2 - 1)) with (length cs2) by lia.
  assert (ChainView.chain_nodes uuid5 filename cs !! length cs2
          = Some (ChainView.node_of uuid5 filename (length cs2) old)) as Hn.
  { unfold ChainView.chain_nodes. rewrite list_lookup_imap. subst cs.
    rewrite lookup_app_r by lia. rewrite lookup_drop.
    replace (length cs2 + (length cs2 - length cs2)) with (length cs2) by lia.
    by rewrite Hold. }
  apply list_elem_of_split_length in Hn as (l1 & l2 & Heq & Hl1).
  rewrite Heq. rewrite drop_app_length' by done. done.
Qed.

Lemma reingest_leaves_stale_successor_witness :
  let create := Graph.create_document_structure scenario_uuid5 "tender.docx" in
  let db := create (take 2 scenario_chain) (create scenario_chain Graph.empty_db) in
  let rows := Graph.get_context_window db
                (Graph.chunk_id_of scenario_uuid5 "tender.docx"
                   (length (take 2 scenario_chain) - 1)) 1 in
  Graph.next_chunks rows
    = [ChainView.node_of scenario_uuid5 "tender.docx" (length (take 2 scenario_chain))
         {| Graph.content := "c2"; Graph.in_page := "2" |}]
  ∧ Graph.text <$> Graph.next_chunks rows
    = [Graph.content {| Graph.content := "c2"; Graph.in_page := "2" |}].
Proof.
  apply (reingest_leaves_stale_successor scenario_uuid5 "tender.docx"
           scenario_chain (take 2 scenario_chain)).
  - intros s t H. by apply (inj (String.app "uuid-")) in H.
  - intros s. unfold scenario_uuid5. cbn. discriminate.
  - cbn. lia.
  - reflexivity.
Defined.

(** ** Vector store: what reaches the collection, and how *)

Section CollectionFacts.
Import VectorStore Collection.
Context {E : Type} (encode : string → E).

Lemma clean_value_scalar v : scalar (clean_value v) = true.
Proof. by destruct v. Qed.

Lemma rows_of_well_formed chunks k s :
  (k, s) ∈ rows_of encode chunks → well_formed encode s.
Proof.
  unfold rows_of. intros (c & Hc & Hs)%list_elem_of_omap.
  destruct (skipped c); [done|]. injection Hs as <- <-.
  unfold well_formed. cbn [stored_metadata embedding document]. split_and!.
  - unfold clean_meta. intros key v. rewrite lookup_fmap.
    destruct (fused_meta _ c !! key) as [v'|]; [|done].
    intros [= <-]. apply clean_value_scalar.
  - unfold clean_meta, fused_meta.
    destruct (Py.truthy_get (parent_id c)) as [pid|];
      [destruct (parent_map chunks !! pid)|];
      rewrite lookup_fmap, lookup_insert_ne by done; rewrite lookup_insert_eq; by eexists.
  - unfold clean_meta, fused_meta.
    destruct (Py.truthy_get (parent_id c)) as [pid|];
      [destruct (parent_map chunks !! pid)|];
      rewrite lookup_fmap, lookup_insert_eq; cbn; auto.
  - done.
Qed.

(** The calls accepted before a refused one are the calls before it. *)
Lemma accepted_before {A : Type} (written : list (list (string * A))) refused rest :
  Forall (λ b, NoDup b.*1) written → ¬ NoDup refused.*1 →
  accepted (written ++ refused :: rest) = written.
Proof.
  induction 1 as [|b written Hb Hall IH]; intros Hbad; cbn.
  - by rewrite bool_decide_eq_false_2.
  - by rewrite bool_decide_eq_true_2, IH.
Qed.

End CollectionFacts.

(** X6.  [add_chunks] keeps the collection well formed, whether it returns
    or raises: if every record has scalar metadata values, a string
    [full_context], an [is_child] flag that is "True" or "False" and the
    embedding of its own document, then so has every record when the call
    is over.  In particular no [None], list or dictionary value of a
    chunk's metadata reaches Chroma. *)
Theorem add_chunks_keeps_records_well_formed {E : Type} (encode : string → E)
    (chunks : list VectorStore.IndexableChunk) (coll : gmap string (VectorStore.Stored E)) :
  (∀ k s, coll !! k = Some s → Collection.well_formed encode s) →
  ∀ k s, (VectorStore.add_chunks encode chunks coll).1 !! k = Some s →
         Collection.well_formed encode s.
Proof.
  intros Hcoll k s Hk.
  destruct (add_chunks_state encode chunks coll) as (written & [rest Hpre] & Hstate).
  rewrite Hstate in Hk. apply put_rows_lookup_inv in Hk as [Hk|Hk].
  - apply (rows_of_well_formed encode chunks k). rewrite Hpre. apply elem_of_app. by left.
  - by eapply Hcoll.
Qed.

Lemma add_chunks_keeps_records_well_formed_witness :
  ∃ s, (VectorStore.add_chunks String.length parent_child_batch ∅).1 !! "child-1" = Some s
       ∧ Collection.well_formed String.length s.
Proof.
  eexists. split; [vm_compute; reflexivity|].
  apply (add_chunks_keeps_records_well_formed String.length parent_child_batch ∅)
    with (k := "child-1").
  - intros k s Hk. by rewrite lookup_empty in Hk.
  - vm_compute. reflexivity.
Defined.

(** X7.  The batch loop of [add_chunks] hands the collected rows to the
    collection in [ceil(n / 100)] calls: no call is empty, none carries
    more than 100 rows, and the calls carry all rows once, in order.  When
    no call repeats an id, all rows are written and [add_chunks] returns;
    the first call that repeats an id is refused by Chroma and ends the
    loop with its exception, the rows of the calls before it being
    written and no other. *)
Theorem add_chunks_batches {E : Type} (encode : string → E)
    (chunks : list VectorStore.IndexableChunk) (coll : gmap string (VectorStore.Stored E)) :
  let rows := VectorStore.rows_of encode chunks in
  let calls := Collection.upsert_calls rows in
  concat calls = rows
  ∧ Forall (λ batch, 0 < length batch ≤ 100) calls
  ∧ length calls = (length rows + 99) / 100
  ∧ (Forall (λ batch, NoDup batch.*1) calls →
     VectorStore.add_chunks encode chunks coll = (VectorStore.put_rows rows coll, Py.Ok tt))
  ∧ (∀ written refused rest,
       calls = written ++ refused :: rest →
       Forall (λ batch, NoDup batch.*1) written → ¬ NoDup refused.*1 →
       VectorStore.add_chunks encode chunks coll
       = (VectorStore.put_rows (concat written) coll, Py.Raise "DuplicateIDError")).
Proof.
  cbn zeta. set (rows := VectorStore.rows_of encode chunks).
  split_and!.
  - apply upsert_calls_concat.
  - unfold Collection.upsert_calls. apply Forall_fmap, Forall_forall. intros i Hi.
    unfold VectorStore.range_step in Hi.
    apply list_elem_of_fmap in Hi as (q & -> & Hq). apply elem_of_seq in Hq.
    unfold VectorStore.batch_size in *. cbn [compose].
    unfold VectorStore.slice. rewrite length_take, length_drop.
    assert (q * 100 < length rows).
    { destruct Hq as [_ Hq]. rewrite Nat.add_0_l in Hq.
      pose proof (Nat.div_mod_eq (length rows + 100 - 1) 100) as Hd.
      pose proof (Nat.mod_upper_bound (length rows + 100 - 1) 100). lia. }
    lia.
  - unfold Collection.upsert_calls.
    rewrite length_fmap. unfold VectorStore.range_step. rewrite length_fmap, length_seq.
    unfold VectorStore.batch_size. f_equal. lia.
  - intros Hall. rewrite add_chunks_spec. fold rows.
    rewrite bool_decide_eq_true_2 by done.
    by rewrite (proj2 (accepted_all _) Hall), upsert_calls_concat.
  - intros written refused rest Hcalls Hw Hr. rewrite add_chunks_spec. fold rows.
    unfold VectorStore.Row in *. rewrite !Hcalls.
    rewrite (accepted_before written refused rest Hw Hr).
    rewrite bool_decide_eq_false_2; [done|].
    intros [_ [? _]%Forall_cons]%Forall_app. done.
Qed.

Example add_chunks_refuses_repeated_ids :
  let a := VectorStore.mkChunk "excavators: 4 units" ∅ "c1" None false in
  let b := VectorStore.mkChunk "excavators: 5 units" ∅ "c1" None false in
  VectorStore.add_chunks String.length [a; b] ∅ = (∅, Py.Raise "DuplicateIDError")
  ∧ (VectorStore.add_chunks String.length [b] (VectorStore.add_chunks String.length [a] ∅).1).2
    = Py.Ok tt.
Proof. vm_compute. done. Qed.

(** ** The retriever: filter, candidates and scores *)

Section RetrieverFacts.
Import Hybrid Retriever.

Lemma valid_filters_elem pt k v :
  (k, v) ∈ valid_filters pt ↔ (k, FStr v) ∈ pt ∧ v ≠ "".
Proof.
  unfold valid_filters. rewrite list_elem_of_omap. split.
  - intros ([k' fv] & Hin & Hkv). cbn in Hkv. destruct fv as [s|b]; [|done].
    unfold Py.truthy in Hkv. case_bool_decide; [done|]. cbn in Hkv.
    injection Hkv as -> ->. done.
  - intros [Hin Hne]. exists (k, FStr v). split; [done|]. cbn.
    unfold Py.truthy. by rewrite bool_decide_eq_false_2.
Qed.

Lemma accepts_conditions pt m :
  accepts (chroma_filter (Some pt)) m = true
  ↔ ∀ k v, (k, v) ∈ valid_filters pt → m !! k = Some v.
Proof.
  unfold chroma_filter. destruct pt as [|e pt]; [split; [by intros _ k v ?%elem_of_nil|done]|].
  destruct (valid_filters (e :: pt)) as [|[k1 v1] [|kv2 rest]] eqn:Hv.
  - split; [by intros _ k v ?%elem_of_nil|done].
  - cbn. rewrite bool_decide_eq_true. split.
    + by intros H k v [= -> ->]%list_elem_of_singleton.
    + intros H. apply H. by left.
  - cbn [accepts]. rewrite forallb_forall. split.
    + intros H k v Hin. apply list_elem_of_In in Hin. specialize (H (k, v) Hin).
      cbn in H. by apply bool_decide_eq_true in H.
    + intros H [k v] Hin. cbn. apply bool_decide_eq_true. apply H.
      by apply list_elem_of_In.
Qed.

Lemma same_entry_refl c : same_entry c c.
Proof. by repeat split. Qed.

Lemma same_entry_trans a b c : same_entry a b → same_entry b c → same_entry a c.
Proof. intros (? & ? & ? & ?) (? & ? & ? & ?). repeat split; congruence. Qed.

Lemma rescore_all_entries max scores : ∀ cands i r,
  rescore_all max i scores cands = Some r → Forall2 same_entry r cands.
Proof.
  induction cands as [|c cands IH]; intros i r Hr; cbn in Hr.
  - injection Hr as <-. constructor.
  - destruct (scores !! i) as [raw|]; [|done]. cbn in Hr.
    destruct (rescore_all max (S i) scores cands) as [r'|] eqn:Hr'; [|done].
    cbn in Hr. injection Hr as <-. constructor; [by repeat split|by eapply IH].
Qed.

Lemma overwrite_scores_entries scores : ∀ cands i r,
  overwrite_scores i scores cands = Some r → Forall2 same_entry r cands.
Proof.
  induction cands as [|c cands IH]; intros i r Hr; cbn in Hr.
  - injection Hr as <-. constructor.
  - destruct (scores !! i) as [s|]; [|done]. cbn in Hr.
    destruct (overwrite_scores (S i) scores cands) as [r'|] eqn:Hr'; [|done].
    cbn in Hr. injection Hr as <-. constructor; [by repeat split|by eapply IH].
Qed.

Lemma overwrite_scores_map (g : Candidate → Q) scores : ∀ cands i,
  (∀ j c, cands !! j = Some c → scores !! (i + j) = Some (g c)) →
  overwrite_scores i scores cands = Some ((λ c, with_score c (g c)) <$> cands).
Proof.
  induction cands as [|c cands IH]; intros i H; [done|]. cbn [overwrite_scores].
  rewrite <- (Nat.add_0_r i) at 1. rewrite (H 0 c eq_refl). cbn.
  rewrite IH; [done|]. intros j c' Hj.
  replace (S i + j) with (i + S j) by lia. by apply H.
Qed.

Lemma from_entries (r cands : list Candidate) c :
  Forall2 same_entry r cands → c ∈ r → ∃ c', c' ∈ cands ∧ same_entry c c'.
Proof.
  intros HF Hc. apply list_elem_of_lookup in Hc as [i Hi].
  destruct (Forall2_lookup_l _ _ _ _ _ HF Hi) as (c' & Hc' & Hsame).
  exists c'. split; [by eapply list_elem_of_lookup_2|done].
Qed.

Lemma slice_to_sublist {A : Type} (l : list A) k : Py.slice_to l k `sublist_of` l.
Proof. unfold Py.slice_to. destruct (0 <=? k)%Z; apply sublist_take. Qed.

Lemma slice_to_prefix {A : Type} (l : list A) k : ∃ n, Py.slice_to l k = take n l.
Proof. unfold Py.slice_to. destruct (0 <=? k)%Z; eauto. Qed.

Lemma sorted_take {A : Type} (R : relation A) (l : list A) n :
  StronglySorted R l → StronglySorted R (take n l).
Proof.
  intros Hl. rewrite <- (take_drop n l) in Hl. by apply StronglySorted_app_1_l in Hl.
Qed.

Lemma apply_bm25_entries get_scores query cands r :
  apply_bm25_score get_scores query cands = Some r →
  r ≡ₚ r ∧ StronglySorted score_ge r
  ∧ ∀ c, c ∈ r → ∃ c', c' ∈ cands ∧ same_entry c c'.
Proof.
  unfold apply_bm25_score. destruct cands as [|c0 cs].
  - intros [= <-]. split_and!; [done|constructor|by intros c ?%elem_of_nil].
  - destruct (rescore_all _ _ _ _) as [rescored|] eqn:Hr; [|done]. cbn.
    intros [= <-]. destruct (sort_by_score_desc_spec rescored) as [Hp Hs].
    split_and!; [done|done|]. intros c Hc. rewrite Hp in Hc.
    eapply from_entries; [|done]. by eapply rescore_all_entries.
Qed.

End RetrieverFacts.

(** X8.  The filter that [search] hands to Chroma accepts exactly the
    records whose metadata equal every entry of [project_type] that is a
    non-empty string; entries with another value are ignored.  With no
    such entry there is no filter at all, and an [$and] is only built for
    two conditions or more. *)
Theorem retriever_filter_semantics
    (project_type : option (list (string * Retriever.FilterValue)))
    (m : gmap string string) :
  let f := Retriever.chroma_filter project_type in
  (Retriever.accepts f m = true
   ↔ ∀ k v, (k, Retriever.FStr v) ∈ default [] project_type → v ≠ "" → m !! k = Some v)
  ∧ (f = None
     ↔ ∀ k v, (k, Retriever.FStr v) ∈ default [] project_type → v = "")
  ∧ (∀ conditions, f = Some (Retriever.And conditions) → 2 ≤ length conditions).
Proof.
  cbn zeta. destruct project_type as [pt|]; cbn [default].
  2:{ split_and!; [|split; [by intros _ k v ?%elem_of_nil|done]|done].
      split; [by intros _ k v ?%elem_of_nil|done]. }
  split_and!.
  - rewrite accepts_conditions. split.
    + intros H k v Hin Hne. apply H. by apply valid_filters_elem.
    + intros H k v [Hin Hne]%valid_filters_elem. by apply H.
  - assert (Retriever.chroma_filter (Some pt) = None ↔ Retriever.valid_filters pt = []) as ->.
    { unfold Retriever.chroma_filter. destruct pt as [|e pt]; [done|].
      by destruct (Retriever.valid_filters (e :: pt)) as [|[k1 v1] [|kv2 rest]]. }
    split.
    + intros Hv k v Hin. destruct (decide (v = "")) as [|Hne]; [done|].
      assert ((k, v) ∈ Retriever.valid_filters pt) as H by (by apply valid_filters_elem).
      rewrite Hv in H. by apply elem_of_nil in H.
    + intros H. destruct (Retriever.valid_filters pt) as [|[k v] rest] eqn:Hv; [done|].
      assert ((k, v) ∈ Retriever.valid_filters pt) as Hin by (rewrite Hv; by left).
      apply valid_filters_elem in Hin as [Hin Hne]. by apply H in Hin.
  - intros cs. unfold Retriever.chroma_filter. destruct pt as [|e pt]; [done|].
    destruct (Retriever.valid_filters (e :: pt)) as [|[k1 v1] [|kv2 rest]]; [done..|].
    intros [= <-]. cbn. lia.
Qed.



(** X10.  When a cross-encoder is loaded and scores each (query, text)
    pair on its own, the score of every candidate that [search] returns is
    the cross-encoder's score of its content: neither the vector
    similarity nor the BM25 bonus of the hybrid stage enters the final
    score. *)
Theorem rerank_replaces_scores (get_scores : string → list string → list Q)
    (query_collection : string → Z → option Retriever.ChromaFilter
                        → Py.Exc (list Retriever.Hit))
    (predict : list (string * string) → Py.Exc (list Q)) (model : string → string → Q)
    (query : string) (top_k : Z)
    (project_type : option (list (string * Retriever.FilterValue)))
    (use_hybrid : bool) (result : list Hybrid.Candidate) :
  (∀ pairs, predict pairs = Py.Ok ((λ p, model p.1 p.2) <$> pairs)) →
  Retriever.search get_scores query_collection (Some predict) query top_k project_type
    use_hybrid = Py.Ok result →
  Forall (λ c, Hybrid.score c = model query (Hybrid.content c)) result.
Proof.
  intros Hpredict. unfold Retriever.search.
  destruct (query_collection _ _ _) as [[|h0 hs]|]; [by intros [= <-]| |done].
  set (cands := Retriever.to_candidate <$> h0 :: hs). clearbody cands.
  destruct (if use_hybrid then _ else _) as [fused|]; [|done].
  rewrite Hpredict.
  rewrite (overwrite_scores_map (λ c, model query (Hybrid.content c))).
  2:{ intros j c Hj. rewrite Nat.add_0_l, <- list_fmap_compose, list_lookup_fmap, Hj. done. }
  intros [= <-]. apply Forall_forall. intros c Hc.
  apply (λ H, elem_of_sublist _ _ _ H (slice_to_sublist _ _)) in Hc.
  destruct (sort_by_score_desc_spec
              ((λ c, Retriever.with_score c (model query (Hybrid.content c))) <$> fused))
    as [Hp _].
  rewrite Hp in Hc. by apply list_elem_of_fmap in Hc as (c' & -> & _).
Qed.

Lemma rerank_replaces_scores_witness :
  ∃ result,
    Retriever.search text_scores retriever_store (Some text_length_encoder)
      "excavators" 2 None true = Py.Ok result
    ∧ Forall (λ c, Hybrid.score c = text_length_model "excavators" (Hybrid.content c))
             result.
Proof.
  eexists. split; [vm_compute; reflexivity|].
  apply (rerank_replaces_scores text_scores retriever_store text_length_encoder
           text_length_model "excavators" 2 None true).
  - reflexivity.
  - vm_compute. reflexivity.
Defined.

(** ** The Excel task detector: a vote over the final candidates *)

Section VoteFacts.
Import Rag ExcelVote.
Variable sv : Services.

Local Abbreviation Key := (string * string)%type.
Local Abbreviation key_of := (excel_key sv).
Local Abbreviation count := (votes_for sv).

(** The loop body in terms of the key. *)
Local Abbreviation cast :=
  (λ (votes : list (Key * nat)) (doc : Document),
     match key_of doc with Some k => vote k votes | None => votes end).

Lemma detect_excel_task_votes docs :
  detect_excel_task sv docs = max_vote (foldl cast [] docs).
Proof.
  unfold detect_excel_task. f_equal. generalize (@nil (Key * nat)).
  induction docs as [|d docs IH]; intros acc; [done|]. cbn [foldl].
  rewrite <- IH. f_equal. unfold excel_key.
  by destruct (_ && _).
Qed.

Lemma vote_new k (vs : list (Key * nat)) : k ∉ vs.*1 → vote k vs = vs ++ [(k, 1)].
Proof.
  induction vs as [|[k' n] vs IH]; intros Hk; [done|]. cbn [vote].
  rewrite bool_decide_eq_false_2.
  - rewrite IH; [done|]. intros Hin. apply Hk. by right.
  - intros ->. apply Hk. by left.
Qed.

Lemma vote_known k n (vs1 vs2 : list (Key * nat)) :
  k ∉ vs1.*1 → vote k (vs1 ++ (k, n) :: vs2) = vs1 ++ (k, n + 1) :: vs2.
Proof.
  induction vs1 as [|[k' n'] vs1 IH]; intros Hk; cbn [vote app].
  - by rewrite bool_decide_eq_true_2.
  - rewrite bool_decide_eq_false_2.
    + rewrite IH; [done|]. intros Hin. apply Hk. by right.
    + intros ->. apply Hk. by left.
Qed.

Local Abbreviation counted := (ExcelVote.counted sv).

Lemma count_snoc docs d k :
  votes_for sv (docs ++ [d]) k
  = votes_for sv docs k + (if bool_decide (excel_key sv d = Some k) then 1 else 0).
Proof.
  unfold votes_for. rewrite filter_app, length_app. f_equal.
  rewrite filter_cons, filter_nil. case_bool_decide.
  - by rewrite decide_True.
  - by rewrite decide_False.
Qed.

Lemma earlier_snoc docs d k k' : earlier sv docs k k' → earlier sv (docs ++ [d]) k k'.
Proof.
  intros (docs1 & d0 & docs2 & -> & Hk & Hnone).
  exists docs1, d0, (docs2 ++ [d]). split; [|done].
  by rewrite <- app_assoc.
Qed.

Lemma counted_step vs docs d : counted vs docs → counted (cast vs d) (docs ++ [d]).
Proof.
  intros (Hnd & Hcount & Hall & Horder).
  destruct (key_of d) as [k0|] eqn:Hd.
  2:{ split_and!; [done| | |].
      - intros k n Hin. rewrite count_snoc, Hd.
        rewrite bool_decide_eq_false_2 by done. rewrite Nat.add_0_r. by apply Hcount.
      - intros d' k [Hin|Hs%list_elem_of_singleton]%elem_of_app Hk; [by eapply Hall|congruence].
      - intros ks1 k ks2 k' Hvs Hk'. eapply earlier_snoc, Horder; done. }
  destruct (decide (k0 ∈ vs.*1)) as [Hin|Hnew].
  - apply list_elem_of_fmap in Hin as ([k n0] & Hk & Hin). cbn in Hk. subst k.
    apply list_elem_of_split in Hin as (vs1 & vs2 & ->).
    assert ((k0 ∉ vs1.*1) ∧ (k0 ∉ vs2.*1)) as [Hn1 Hn2].
    { rewrite fmap_app, fmap_cons in Hnd. apply NoDup_app in Hnd as (_ & Hd1 & Hd2).
      apply NoDup_cons in Hd2 as [Hd2 _]. split; [|done].
      intros Hin. by apply (Hd1 k0 Hin); left. }
    rewrite vote_known by done. split_and!.
    + by rewrite fmap_app, fmap_cons in *.
    + intros k n Hin. rewrite count_snoc, Hd.
      apply elem_of_app in Hin as [Hin|[Heq|Hin]%elem_of_cons].
      * rewrite bool_decide_eq_false_2.
        -- rewrite Nat.add_0_r. apply Hcount. apply elem_of_app. by left.
        -- intros [= ->]. apply Hn1. apply list_elem_of_fmap. by exists (k, n).
      * injection Heq as -> ->. rewrite bool_decide_eq_true_2 by done.
        destruct (Hcount k0 n0) as [-> ?]; [|lia].
        apply elem_of_app. right. by left.
      * rewrite bool_decide_eq_false_2.
        -- rewrite Nat.add_0_r. apply Hcount. apply elem_of_app. right. by right.
        -- intros [= ->]. apply Hn2. apply list_elem_of_fmap. by exists (k, n).
    + intros d' k [Hin|Hs%list_elem_of_singleton]%elem_of_app Hk.
      * specialize (Hall d' k Hin Hk). by rewrite fmap_app, fmap_cons in *.
      * subst d'. rewrite Hd in Hk. injection Hk as <-. rewrite fmap_app, fmap_cons.
        apply elem_of_app. right. by left.
    + intros ks1 k ks2 k' Heq Hk'. apply earlier_snoc.
      rewrite fmap_app, fmap_cons in Heq. cbn [fst] in Heq.
      eapply Horder; [|done]. by rewrite fmap_app, fmap_cons.
  - rewrite vote_new by done. split_and!.
    + rewrite fmap_app. apply NoDup_app. split_and!; [done| |apply NoDup_singleton].
      intros x Hx Hs%list_elem_of_singleton. by subst x.
    + intros k n Hin. rewrite count_snoc, Hd.
      apply elem_of_app in Hin as [Hin|Hs%list_elem_of_singleton].
      * rewrite bool_decide_eq_false_2.
        -- rewrite Nat.add_0_r. by apply Hcount.
        -- intros [= ->]. apply Hnew. apply list_elem_of_fmap. by exists (k, n).
      * injection Hs as -> ->. rewrite bool_decide_eq_true_2 by done.
        assert (count docs k0 = 0) as ->; [|lia].
        unfold votes_for. rewrite filter_none; [done|].
        intros d' Hd' Hk. apply Hnew. by eapply Hall.
    + intros d' k [Hin|Hs%list_elem_of_singleton]%elem_of_app Hk; rewrite fmap_app.
      * apply elem_of_app. left. by eapply Hall.
      * subst d'. rewrite Hd in Hk. injection Hk as <-. apply elem_of_app. right. by left.
    + intros ks1 k ks2 k' Heq Hk'. rewrite fmap_app in Heq. cbn [fmap list_fmap fst] in Heq.
      destruct ks2 as [|w ks2 _] using rev_ind; [by apply elem_of_nil in Hk'|].
      rewrite app_comm_cons, app_assoc in Heq.
      apply app_inj_2 in Heq as [Heq [= <-]]; [|done].
      apply elem_of_app in Hk' as [Hk'|Hk'].
      * apply earlier_snoc. by eapply Horder.
      * apply list_elem_of_singleton in Hk' as ->.
        assert (k ∈ vs.*1) as Hkin by (rewrite Heq; apply elem_of_app; right; by left).
        apply list_elem_of_fmap in Hkin as ([k1 n] & Hk1 & Hkin). cbn in Hk1. subst k1.
        assert (0 < count docs k) as Hpos by (destruct (Hcount k n Hkin); lia).
        unfold votes_for in Hpos.
        destruct (base.filter _ docs) as [|d0 l] eqn:Hf; [cbn in Hpos; lia|].
        assert (d0 ∈ base.filter (λ d, key_of d = Some k) docs) as Hd0 by (rewrite Hf; by left).
        apply list_elem_of_filter in Hd0 as [Hk0 Hd0].
        apply list_elem_of_split in Hd0 as (docs1 & docs2 & ->).
        exists docs1, d0, (docs2 ++ [d]). split_and!; [by rewrite <- app_assoc|done|].
        intros d' Hd' Hk. apply Hnew. eapply Hall; [|exact Hk].
        apply elem_of_app. by left.
Qed.

Lemma counted_all docs : counted (foldl cast [] docs) docs.
Proof.
  assert (∀ rest done vs, counted vs done → counted (foldl cast vs rest) (done ++ rest)) as H.
  { induction rest as [|d rest IH]; intros done vs Hvs; cbn [foldl].
    - by rewrite app_nil_r.
    - rewrite (cons_middle d done rest), app_assoc. apply IH. by apply counted_step. }
  apply (H docs [] []). split_and!.
  - constructor.
  - by intros k n ?%elem_of_nil.
  - by intros d k ?%elem_of_nil.
  - intros ks1 k ks2 k' Heq. by destruct ks1.
Qed.

(** [max] returns the first entry with the largest count. *)
Lemma first_maximum (rest : list (Key * nat)) : ∀ pre b mid,
  (∀ x, x ∈ pre → x.2 < b.2) → (∀ x, x ∈ mid → x.2 ≤ b.2) →
  let best := foldl (λ best x, if bool_decide (best.2 < x.2) then x else best) b rest in
  ∃ vs1 vs2, pre ++ b :: mid ++ rest = vs1 ++ best :: vs2
             ∧ (∀ x, x ∈ vs1 → x.2 < best.2) ∧ (∀ x, x ∈ vs2 → x.2 ≤ best.2).
Proof.
  induction rest as [|x rest IH]; intros pre b mid Hpre Hmid; cbn zeta; cbn [foldl].
  - exists pre, mid. by rewrite app_nil_r.
  - case_bool_decide as Hlt.
    + destruct (IH (pre ++ b :: mid) x []) as (vs1 & vs2 & Heq & H1 & H2).
      * intros y [Hy|[->|Hy]%elem_of_cons]%elem_of_app.
        -- specialize (Hpre y Hy). lia.
        -- done.
        -- specialize (Hmid y Hy). lia.
      * by intros y ?%elem_of_nil.
      * exists vs1, vs2. split; [|done]. rewrite <- Heq. cbn.
        by rewrite <- app_assoc.
    + destruct (IH pre b (mid ++ [x])) as (vs1 & vs2 & Heq & H1 & H2).
      * done.
      * intros y [Hy|Hs%list_elem_of_singleton]%elem_of_app; [by apply Hmid|subst y; lia].
      * exists vs1, vs2. split; [|done]. rewrite <- Heq.
        by rewrite <- (app_assoc mid [x] rest).
Qed.

End VoteFacts.


(** ** The vector filter of the orchestrator, by what it accepts *)

(** X12.  The filter that [chat_stream] hands to the vector store accepts
    a record exactly when: with a non-empty file list, its source file is
    in the list; without one, its project is the configured one (one of
    the configured ones, for a list) and its category is the configured
    type, where "所有项目", "所有类型", an empty value and a missing
    entry ask for nothing.  An [$and] is only built for the project and
    the type together. *)
Theorem vector_filter_semantics (cfg : Rag.FilterConfig) (m : gmap string string) :
  (∀ f fs, Rag.files cfg = Some (f :: fs) →
     (Scoping.passes cfg m ↔ ∃ s, s ∈ f :: fs ∧ m !! "source_file" = Some s))
  ∧ (Rag.files cfg = None ∨ Rag.files cfg = Some [] →
     (Scoping.passes cfg m
      ↔ Scoping.project_ok (Rag.project cfg) m ∧ Scoping.type_ok (Rag.type_ cfg) m))
  ∧ (∀ conditions, Rag.build_filter cfg = Some (Rag.WAnd conditions) →
       length conditions = 2 ∧ (Rag.files cfg = None ∨ Rag.files cfg = Some [])).
Proof.
  assert (∀ p, Py.truthy p = true ↔ p ≠ "") as Htruthy.
  { intros p. unfold Py.truthy. case_bool_decide; cbn; split; congruence. }
  assert (Rag.files cfg = None ∨ Rag.files cfg = Some [] →
          Rag.build_conditions cfg
          = Rag.project_conditions (Rag.project cfg) ++ Rag.type_conditions (Rag.type_ cfg))
    as Hnofiles.
  { unfold Rag.build_conditions. by intros [-> | ->]. }
  assert (∀ cs, (match cs with
                 | [] => True
                 | [c] => Rag.where_holds c m = true
                 | _ => Rag.where_holds (Rag.WAnd cs) m = true
                 end) ↔ Forall (λ c, Rag.where_holds c m = true) cs) as Hall.
  { intros [|c [|c' cs]].
    - split; [constructor|done].
    - split; [by repeat constructor|by intros [? _]%Forall_cons_1].
    - cbn [Rag.where_holds]. rewrite forallb_forall, Forall_forall.
      split; intros H x Hx; apply H; by apply list_elem_of_In. }
  assert (Scoping.passes cfg m
          ↔ Forall (λ c, Rag.where_holds c m = true) (Rag.build_conditions cfg)) as Hpass.
  { rewrite <- Hall. unfold Scoping.passes, Rag.build_filter.
    by destruct (Rag.build_conditions cfg) as [|c [|c' cs]]. }
  assert (Forall (λ c, Rag.where_holds c m = true) (Rag.project_conditions (Rag.project cfg))
          ↔ Scoping.project_ok (Rag.project cfg) m) as Hproject.
  { unfold Rag.project_conditions, Scoping.project_ok.
    destruct (Rag.project cfg) as [|p|l]; cbn [Rag.scope_truthy Rag.scope_differs andb].
    - split; [done|constructor].
    - destruct (Py.truthy p) eqn:Hp; cbn [andb].
      + apply Htruthy in Hp. case_bool_decide as Hne; cbn.
        * rewrite Forall_singleton. cbn. rewrite bool_decide_eq_true. naive_solver.
        * split; [auto|constructor].
      + assert (p = "") as ->.
        { destruct (decide (p = "")) as [|Hne]; [done|].
          apply Htruthy in Hne. congruence. }
        split; [auto|constructor].
    - case_bool_decide as Hl; cbn [andb].
      + rewrite bool_decide_eq_true_2 by (destruct l; [done|cbn; lia]).
        rewrite Forall_singleton. cbn. split.
        * destruct (m !! "project_name") as [v|]; [|done].
          intros Hv%bool_decide_eq_true. right. by exists v.
        * intros [?|(p & Hp & ->)]; [done|]. by apply bool_decide_eq_true.
      + assert (l = []) as ->.
        { destruct l; [done|]. exfalso. revert Hl. clear. intros Hl. by first [discriminate Hl|apply Hl]. }
        split; [auto|constructor]. }
  assert (Forall (λ c, Rag.where_holds c m = true) (Rag.type_conditions (Rag.type_ cfg))
          ↔ Scoping.type_ok (Rag.type_ cfg) m) as Htype.
  { unfold Rag.type_conditions, Scoping.type_ok.
    destruct (Rag.type_ cfg) as [t|]; cbn [Py.truthy_get]; [|split; [done|constructor]].
    destruct (Py.truthy t) eqn:Ht.
    - apply Htruthy in Ht. case_bool_decide as Hne.
      + rewrite Forall_singleton. cbn. rewrite bool_decide_eq_true. naive_solver.
      + split; [auto|constructor].
    - assert (t = "") as ->.
      { destruct (decide (t = "")) as [|Hne]; [done|]. apply Htruthy in Hne. congruence. }
      split; [auto|constructor]. }
  split_and!.
  - intros f fs Hf. rewrite Hpass. unfold Rag.build_conditions. rewrite Hf.
    rewrite Forall_singleton. cbn [Rag.where_holds]. split.
    + destruct (m !! "source_file") as [v|]; [|done].
      intros Hv%bool_decide_eq_true. by exists v.
    + intros (s & Hs & ->). by apply bool_decide_eq_true.
  - intros Hf. rewrite Hpass, (Hnofiles Hf), Forall_app. by rewrite Hproject, Htype.
  - intros cs Hcs. unfold Rag.build_filter, Rag.build_conditions in Hcs.
    assert (length (Rag.project_conditions (Rag.project cfg)) ≤ 1) as Hp.
    { unfold Rag.project_conditions. destruct (_ && _); [|cbn; lia].
      destruct (Rag.project cfg); [cbn; lia..|]. case_bool_decide; cbn; lia. }
    assert (length (Rag.type_conditions (Rag.type_ cfg)) ≤ 1) as Ht.
    { unfold Rag.type_conditions. destruct (Py.truthy_get _); [|cbn; lia].
      case_bool_decide; cbn; lia. }
    assert (Forall (λ c, ∀ cs', c ≠ Rag.WAnd cs')
              (Rag.project_conditions (Rag.project cfg)
               ++ Rag.type_conditions (Rag.type_ cfg))) as Hflat.
    { apply Forall_app. split.
      - unfold Rag.project_conditions. destruct (_ && _); [|constructor].
        destruct (Rag.project cfg); [constructor|by repeat constructor|].
        case_bool_decide; by repeat constructor.
      - unfold Rag.type_conditions. destruct (Py.truthy_get _); [|constructor].
        case_bool_decide; by repeat constructor. }
    assert (∀ conds, length conds ≤ 2 → Forall (λ c, ∀ cs', c ≠ Rag.WAnd cs') conds →
              match conds with
              | [] => None
              | [c] => Some c
              | c :: c' :: rest => Some (Rag.WAnd (c :: c' :: rest))
              end = Some (Rag.WAnd cs) → length cs = 2) as Hsize.
    { intros [|c [|c' [|c'' conds]]] Hlen HF Heq; [done| | |cbn in Hlen; lia].
      - injection Heq as ->. apply Forall_cons_1 in HF as [HF _]. by destruct (HF cs).
      - by injection Heq as <-. }
    destruct (Rag.files cfg) as [[|f fs]|] eqn:Hf; [|done|].
    + split; [|auto].
      apply (Hsize (Rag.project_conditions (Rag.project cfg)
                    ++ Rag.type_conditions (Rag.type_ cfg)));
        [rewrite length_app; lia|exact Hflat|exact Hcs].
    + split; [|auto].
      apply (Hsize (Rag.project_conditions (Rag.project cfg)
                    ++ Rag.type_conditions (Rag.type_ cfg)));
        [rewrite length_app; lia|exact Hflat|exact Hcs].
Qed.

(** ** The conversation history in the prompt *)

Lemma chat_history_last_four (history : list Rag.Message) :
  Rag.chat_history_str (drop (length history - 4) history) = Rag.chat_history_str history.
Proof.
  unfold Rag.chat_history_str. rewrite length_drop.
  replace (length history - (length history - 4) - 4) with 0 by lia. done.
Qed.

(** X13.  The event stream of a query depends on the conversation history
    through its last four messages only: dropping all earlier messages
    changes no event. *)
Theorem stream_uses_last_four_messages (sv : Rag.Services) (query : string)
    (history : list Rag.Message) (top_k : Z) (project_filter : Rag.Scope)
    (filter_config : option Rag.FilterConfig) :
  let recent := drop (length history - 4) history in
  length recent ≤ 4
  ∧ Rag.chat_stream sv query recent top_k project_filter filter_config
    = Rag.chat_stream sv query history top_k project_filter filter_config.
Proof.
  cbn zeta. split; [rewrite length_drop; lia|].
  unfold Rag.chat_stream. destruct (Rag.writing_intent query); [done|].
  destruct (Rag.retrieval sv _ query) as [head [r|e]]; [|done].
  f_equal. f_equal. unfold Rag.answer, Rag.generation_events.
  by rewrite chat_history_last_four.
Qed.

(** ** The document workshop: chapters are shown in outline order *)

Section WriterFacts.
Import Writer.
Variable chapters : list string.

Lemma previewed_app es1 es2 : previewed (es1 ++ es2) = previewed es1 ++ previewed es2.
Proof. unfold previewed. apply omap_app. Qed.

Lemma display_spec buffer pending :
  let shown := display buffer pending in
  previewed shown = take (length shown) pending
  ∧ length shown ≤ length pending
  ∧ (∀ j t, j < length shown → pending !! j = Some t → is_Some (buffer !! t))
  ∧ (∀ t, pending !! length shown = Some t → buffer !! t = None).
Proof.
  induction pending as [|t0 pending IH]; cbn zeta; cbn [display].
  - split_and!; [done|done|intros j t Hj; cbn in Hj; lia|done].
  - destruct (buffer !! t0) as [content|] eqn:Ht0.
    + destruct IH as (IH1 & IH2 & IH3 & IH4). cbn [length]. split_and!.
      * cbn. by rewrite <- IH1.
      * lia.
      * intros [|j] t Hj Ht; [by injection Ht as <-|].
        apply (IH3 j t); [lia|done].
      * intros t Ht. by apply IH4.
    + split_and!; [done|cbn; lia|intros j t Hj; cbn in Hj; lia|].
      intros t [= <-]. done.
Qed.

Lemma written_snoc done c t :
  written (done ++ [c]) t
  ↔ written done t ∨ (title c = t ∧ ∃ content, outcome c = Py.Ok content).
Proof.
  unfold written. split.
  - intros (c' & content & [Hin|Hin%list_elem_of_singleton]%elem_of_app & Ht & Ho).
    + left. eauto.
    + subst c'. right. eauto.
  - intros [(c' & content & Hin & Ht & Ho)|(Ht & content & Ho)].
    + exists c', content. split; [apply elem_of_app; by left|done].
    + exists c, content. split; [apply elem_of_app; right; by left|done].
Qed.

Local Abbreviation loop_inv := (Writer.loop_inv chapters).
Local Abbreviation caught_up := (Writer.caught_up chapters).

Lemma loop_inv_step done st c :
  loop_inv done st → loop_inv (done ++ [c]) (step chapters st c).
Proof.
  intros (Ha & Hb & Hc & Hd). unfold step.
  destruct (outcome c) as [content|e] eqn:Ho.
  - assert (∀ t, is_Some (<[title c := content]> (results_buffer st) !! t)
                 ↔ written (done ++ [c]) t) as Hd'.
    { intros t. rewrite written_snoc, <- Hd. destruct (decide (title c = t)) as [<-|Hne].
      - rewrite lookup_insert_eq. split; [intros _; right; eauto|eauto].
      - rewrite lookup_insert_ne by done. naive_solver. }
    assert (∀ j t, j < next_idx_to_display st → chapters !! j = Some t →
              is_Some (<[title c := content]> (results_buffer st) !! t)) as Hc'.
    { intros j t Hj Ht. destruct (decide (title c = t)) as [<-|Hne].
      - by rewrite lookup_insert_eq.
      - rewrite lookup_insert_ne by done. by eapply Hc. }
    destruct (cache_saved c).
    + set (buffer := <[title c := content]> (results_buffer st)) in *.
      destruct (display_spec buffer (drop (next_idx_to_display st) chapters))
        as (D1 & D2 & D3 & D4).
      cbn zeta in *. set (shown := display buffer _) in *.
      rewrite length_drop in D2.
      split_and!; cbn [emitted next_idx_to_display results_buffer].
      * rewrite previewed_app. cbn [previewed omap list_omap]. fold (previewed shown).
        rewrite Ha, D1. apply take_take_drop.
      * lia.
      * intros j t Hj Ht. destruct (decide (j < next_idx_to_display st)); [by eapply Hc'|].
        apply (D3 (j - next_idx_to_display st) t); [lia|].
        rewrite lookup_drop. by replace (next_idx_to_display st + (j - next_idx_to_display st))
          with j by lia.
      * done.
    + split_and!; cbn [emitted next_idx_to_display results_buffer]; [|done..].
      rewrite previewed_app. cbn. by rewrite app_nil_r.
  - split_and!; cbn [emitted next_idx_to_display results_buffer]; [|done..|].
    + rewrite previewed_app. cbn. by rewrite app_nil_r.
    + intros t. rewrite written_snoc, Hd. split; [auto|].
      intros [?|(_ & content & ?)]; [done|congruence].
Qed.

Lemma loop_inv_all cached completions :
  loop_inv completions (write_loop chapters cached completions).
Proof.
  unfold write_loop.
  assert (∀ rest done st, loop_inv done st →
            loop_inv (done ++ rest) (foldl (step chapters) st rest)) as H.
  { induction rest as [|c rest IH]; intros done st Hst; cbn [foldl].
    - by rewrite app_nil_r.
    - rewrite (cons_middle c done rest), app_assoc. apply IH. by apply loop_inv_step. }
  apply (H completions []). split_and!; cbn.
  - done.
  - lia.
  - intros j t Hj. lia.
  - intros t. rewrite lookup_empty. split; [by intros [? ?]|].
    by intros (c & content & ?%elem_of_nil & _).
Qed.

Lemma caught_up_step st c :
  (∀ content, outcome c = Py.Ok content → cache_saved c = true) →
  caught_up st → caught_up (step chapters st c).
Proof.
  intros Hsaved Hst. unfold step. destruct (outcome c) as [content|e] eqn:Ho; [|done].
  rewrite (Hsaved content eq_refl).
  set (buffer := <[title c := content]> (results_buffer st)).
  destruct (display_spec buffer (drop (next_idx_to_display st) chapters))
    as (_ & _ & _ & D4).
  intros t Ht. cbn [next_idx_to_display results_buffer] in *.
  apply D4. by rewrite lookup_drop.
Qed.

Lemma caught_up_all cached completions :
  (∀ c content, c ∈ completions → outcome c = Py.Ok content → cache_saved c = true) →
  caught_up (write_loop chapters cached completions).
Proof.
  unfold write_loop. intros Hsaved.
  assert (∀ rest st, (∀ c content, c ∈ rest → outcome c = Py.Ok content →
                        cache_saved c = true) →
            caught_up st → caught_up (foldl (step chapters) st rest)) as H.
  { induction rest as [|c rest IH]; intros st Hrest Hst; cbn [foldl]; [done|].
    apply IH.
    - intros c' content Hc'. apply Hrest. by right.
    - apply caught_up_step; [|done]. intros content. apply Hrest. by left. }
  apply H; [done|]. intros t _. apply lookup_empty.
Qed.

End WriterFacts.

(** X14.  Whatever the order in which the chapters complete and whichever
    of them fail, the chapters are shown in the order of the outline: the
    previews yielded so far are those of the first [next_idx_to_display]
    chapters to write, each of which was written; and if a chapter was
    never written, no chapter at its position or after it is ever shown. *)
Theorem previews_follow_outline (chapters : list string)
    (cached : list (string * string)) (completions : list Writer.Completion) :
  let st := Writer.write_loop chapters cached completions in
  let shown := Writer.previewed (Writer.emitted st) in
  shown = take (Writer.next_idx_to_display st) chapters
  ∧ shown `prefix_of` chapters
  ∧ (∀ t, t ∈ shown → Writer.written completions t)
  ∧ (∀ i t, chapters !! i = Some t → ¬ Writer.written completions t → length shown ≤ i).
Proof.
  cbn zeta. destruct (loop_inv_all chapters cached completions) as (Ha & Hb & Hc & Hd).
  set (st := Writer.write_loop chapters cached completions) in *.
  split_and!.
  - done.
  - rewrite Ha. apply prefix_take.
  - intros t Ht. rewrite Ha in Ht. apply elem_of_take in Ht as (j & Hj & Hlt).
    apply Hd. by eapply Hc.
  - intros i t Hi Hnot. rewrite Ha, length_take.
    destruct (decide (i < Writer.next_idx_to_display st)) as [Hlt|]; [|lia].
    exfalso. apply Hnot, Hd. by eapply Hc.
Qed.

(** X15.  When every chapter to write is written by some future and the
    progress cache can be saved after every chapter written, every
    chapter has been shown when the loop ends, in the order of the
    outline. *)
Theorem previews_complete (chapters : list string)
    (cached : list (string * string)) (completions : list Writer.Completion) :
  (∀ c content, c ∈ completions → Writer.outcome c = Py.Ok content →
     Writer.cache_saved c = true) →
  (∀ t, t ∈ chapters → Writer.written completions t) →
  Writer.previewed (Writer.emitted (Writer.write_loop chapters cached completions))
    = chapters.
Proof.
  intros Hsaved Hall.
  destruct (loop_inv_all chapters cached completions) as (Ha & Hb & Hc & Hd).
  pose proof (caught_up_all chapters cached completions Hsaved) as Hup.
  set (st := Writer.write_loop chapters cached completions) in *.
  rewrite Ha. apply take_ge.
  destruct (decide (length chapters ≤ Writer.next_idx_to_display st)) as [|Hlt]; [done|].
  exfalso.
  destruct (lookup_lt_is_Some_2 chapters (Writer.next_idx_to_display st)) as [t Ht]; [lia|].
  specialize (Hup t Ht).
  assert (is_Some (Writer.results_buffer st !! t)) as [x Hx].
  { apply Hd, Hall. by eapply list_elem_of_lookup_2. }
  congruence.
Qed.

Lemma previews_complete_witness :
  Writer.previewed
    (Writer.emitted (Writer.write_loop workshop_chapters [] workshop_completions))
  = workshop_chapters.
Proof.
  apply (previews_complete workshop_chapters [] workshop_completions).
  - intros c content Hc _.
    repeat (apply elem_of_cons in Hc as [->|Hc]; [reflexivity|]).
    by apply elem_of_nil in Hc.
  - intros t Ht. unfold Writer.written, workshop_chapters, workshop_completions in *.
    apply elem_of_cons in Ht as [->|Ht];
      [exists (Writer.mkCompletion "1 Overview" (Py.Ok "A reservoir.") true), "A reservoir.";
       split; [right; by left|done]|].
    apply elem_of_cons in Ht as [->|Ht];
      [exists (Writer.mkCompletion "2 Earthworks" (Py.Ok "Four excavators.") true),
              "Four excavators.";
       split; [right; right; by left|done]|].
    apply elem_of_cons in Ht as [->|Ht];
      [exists (Writer.mkCompletion "3 Schedule" (Py.Ok "Eighteen months.") true),
              "Eighteen months.";
       split; [by left|done]|].
    by apply elem_of_nil in Ht.
Defined.

(** ** The document workshop: what is handed to the Word export *)

Section CompileFacts.
Import Writer.

Local Abbreviation record :=
  (λ (m : gmap string string) (c : Completion),
     match outcome c with
     | Py.Ok content => <[title c := content]> m
     | Py.Raise _ => m
     end).

Lemma generated_data_map chapters completions : ∀ st,
  list_to_map (generated_data (foldl (step chapters) st completions))
  =@{gmap string string} foldl record (list_to_map (generated_data st)) completions.
Proof.
  induction completions as [|c cs IH]; intros st; [done|]. cbn [foldl].
  rewrite IH. f_equal. unfold step.
  destruct (outcome c) as [content|e]; [|done].
  destruct (cache_saved c); cbn [generated_data]; apply dict_set_map.
Qed.

Lemma record_unwritten completions t : ∀ m,
  ¬ written completions t → foldl record m completions !! t = m !! t.
Proof.
  induction completions as [|c cs IH]; intros m Hnot; [done|]. cbn [foldl].
  rewrite IH.
  - destruct (outcome c) as [content|e] eqn:Ho; [|done].
    rewrite lookup_insert_ne; [done|]. intros Ht. apply Hnot.
    exists c, content. split; [by left|done].
  - intros (c' & content & Hin & Ht & Ho). apply Hnot.
    exists c', content. split; [by right|done].
Qed.

Lemma written_decide completions t : written completions t ∨ ¬ written completions t.
Proof.
  induction completions as [|c cs IH].
  - right. by intros (c & content & ?%elem_of_nil & _).
  - destruct IH as [(c' & x & Hin & Ht & Ho)|Hnot].
    + left. exists c', x. split; [by right|done].
    + destruct (decide (title c = t)) as [Ht|Hne].
      * destruct (outcome c) as [x|e] eqn:Ho.
        -- left. exists c, x. split; [by left|done].
        -- right. intros (c' & x & [->|Hin]%elem_of_cons & Ht' & Ho'); [congruence|].
           apply Hnot. by exists c', x.
      * right. intros (c' & x & [->|Hin]%elem_of_cons & Ht' & Ho'); [done|].
        apply Hnot. by exists c', x.
Qed.

Lemma record_written completions t : ∀ m,
  written completions t →
  ∃ c content, c ∈ completions ∧ title c = t ∧ outcome c = Py.Ok content
               ∧ foldl record m completions !! t = Some content.
Proof.
  induction completions as [|c cs IH]; intros m Hw.
  - by destruct Hw as (c & content & ?%elem_of_nil & _).
  - cbn [foldl]. destruct (written_decide cs t) as [Hcs|Hcs].
    + destruct (IH (record m c) Hcs) as (c' & content & Hin & Ht & Ho & Hl).
      exists c', content. split; [by right|done].
    + destruct Hw as (c' & content & [->|Hin]%elem_of_cons & Ht & Ho).
      * exists c, content. split_and!; [by left|done..|].
        rewrite record_unwritten by done. rewrite Ho, <- Ht. apply lookup_insert_eq.
      * exfalso. apply Hcs. by exists c', content.
Qed.

Lemma ordered_content_map new_toc (g : string → string) : ∀ d,
  list_to_map (foldl (λ d t, BM25.dict_set t (g t) d) d new_toc)
  =@{gmap string string} foldl (λ m t, <[t := g t]> m) (list_to_map d) new_toc.
Proof.
  induction new_toc as [|t toc IH]; intros d; [done|]. cbn [foldl].
  by rewrite IH, dict_set_map.
Qed.

Lemma ordered_content_keys new_toc (g : string → string) : ∀ d,
  (foldl (λ d t, BM25.dict_set t (g t) d) d new_toc).*1
  = foldl (λ ks t, if bool_decide (t ∈ ks) then ks else ks ++ [t]) d.*1 new_toc.
Proof.
  induction new_toc as [|t toc IH]; intros d; [done|]. cbn [foldl].
  by rewrite IH, dict_set_keys.
Qed.

Lemma add_keys_spec new_toc : ∀ ks : list string,
  NoDup ks →
  let ks' := foldl (λ ks t, if bool_decide (t ∈ ks) then ks else ks ++ [t]) ks new_toc in
  NoDup ks' ∧ (∀ t, t ∈ ks' ↔ t ∈ ks ∨ t ∈ new_toc)
  ∧ (NoDup new_toc → (∀ t, t ∈ new_toc → t ∉ ks) → ks' = ks ++ new_toc).
Proof.
  induction new_toc as [|t toc IH]; intros ks Hks; cbn zeta; cbn [foldl].
  - split_and!; [done| |by rewrite app_nil_r].
    intros t. split; [auto|]. intros [?|?%elem_of_nil]; done.
  - case_bool_decide as Ht.
    + destruct (IH ks Hks) as (I1 & I2 & I3). split_and!; [done| |].
      * intros t'. rewrite I2, elem_of_cons. naive_solver.
      * intros _ Hfresh. exfalso. apply (Hfresh t); [by left|done].
    + destruct (IH (ks ++ [t])) as (I1 & I2 & I3).
      { apply NoDup_app. split_and!; [done| |apply NoDup_singleton].
        intros x Hx Hs%list_elem_of_singleton. by subst x. }
      split_and!; [done| |].
      * intros t'. rewrite I2, elem_of_app, list_elem_of_singleton, elem_of_cons.
        naive_solver.
      * intros [Ht' Hnd]%NoDup_cons Hfresh. rewrite I3; [by rewrite <- app_assoc|done|].
        intros t' Ht'' [Hin|Hin%list_elem_of_singleton]%elem_of_app.
        -- apply (Hfresh t'); [by right|done].
        -- by subst t'.
Qed.

Lemma ordered_content_lookup new_toc (g : string → string) t : ∀ m : gmap string string,
  t ∈ new_toc → foldl (λ m t, <[t := g t]> m) m new_toc !! t = Some (g t).
Proof.
  induction new_toc as [|t' toc IH]; intros m Ht; [by apply elem_of_nil in Ht|].
  cbn [foldl]. destruct (decide (t ∈ toc)) as [Hin|Hnot]; [by apply IH|].
  apply elem_of_cons in Ht as [->|Ht]; [|done].
  assert (∀ m' : gmap string string,
            foldl (λ m t, <[t := g t]> m) m' toc !! t' = m' !! t') as ->.
  { clear IH. induction toc as [|u toc IH]; intros m'; [done|]. cbn [foldl].
    rewrite IH by (intros Hin; apply Hnot; by right).
    rewrite lookup_insert_ne; [done|]. intros ->. apply Hnot. by left. }
  apply lookup_insert_eq.
Qed.

Lemma ordered_content_elem new_toc data t :
  t ∈ new_toc → (t, get_or_empty data t) ∈ ordered_content new_toc data.
Proof.
  intros Ht. unfold ordered_content. apply elem_of_list_to_map.
  - rewrite ordered_content_keys. apply (add_keys_spec new_toc []). constructor.
  - rewrite ordered_content_map. by apply ordered_content_lookup.
Qed.

End CompileFacts.

(** X16.  The dictionary handed to the Word export has exactly one entry
    for every title of the outline (in outline order when no title is
    repeated).  A chapter that some future wrote is exported with content
    returned by one of its futures; a chapter restored from the cache and
    not written again keeps the cached text; a chapter that was neither
    cached nor written, because its future failed, is exported with empty
    text and not left out. *)
Theorem export_covers_outline (new_toc : list string) (cached : list (string * string))
    (completions : list Writer.Completion) :
  NoDup cached.*1 →
  let chapters := Writer.chapters_to_write new_toc cached in
  let data := Writer.generated_data (Writer.write_loop chapters cached completions) in
  let ordered := Writer.ordered_content new_toc data in
  NoDup ordered.*1
  ∧ (∀ t, t ∈ ordered.*1 ↔ t ∈ new_toc)
  ∧ (NoDup new_toc → ordered.*1 = new_toc)
  ∧ (∀ t, t ∈ new_toc → Writer.written completions t →
       ∃ c content, c ∈ completions ∧ Writer.title c = t
                    ∧ Writer.outcome c = Py.Ok content ∧ (t, content) ∈ ordered)
  ∧ (∀ t text, t ∈ new_toc → (t, text) ∈ cached → ¬ Writer.written completions t →
       (t, text) ∈ ordered)
  ∧ (∀ t, t ∈ new_toc → t ∉ cached.*1 → ¬ Writer.written completions t →
       (t, "") ∈ ordered).
Proof.
  intros Hcached. cbn zeta.
  set (chapters := Writer.chapters_to_write new_toc cached).
  set (data := Writer.generated_data (Writer.write_loop chapters cached completions)).
  assert (∀ t, (list_to_map data : gmap string string) !! t
               = foldl (λ (m : gmap string string) (c : Writer.Completion),
                          match Writer.outcome c with
                          | Py.Ok content => <[Writer.title c := content]> m
                          | Py.Raise _ => m
                          end) (list_to_map cached) completions !! t) as Hdata.
  { intros t. subst data. unfold Writer.write_loop. by rewrite generated_data_map. }
  destruct (add_keys_spec new_toc [] (NoDup_nil_2)) as (K1 & K2 & K3). cbn zeta in *.
  split_and!.
  - unfold Writer.ordered_content. by rewrite ordered_content_keys.
  - intros t. unfold Writer.ordered_content. rewrite ordered_content_keys.
    cbn [fmap list_fmap]. rewrite K2.
    split; [by intros [?%elem_of_nil|?]|auto].
  - intros Hnd. unfold Writer.ordered_content. rewrite ordered_content_keys.
    cbn [fmap list_fmap]. rewrite K3; [done..|]. intros t _. apply not_elem_of_nil.
  - intros t Ht Hw.
    destruct (record_written completions t (list_to_map cached) Hw)
      as (c & content & Hin & Htitle & Ho & Hl).
    exists c, content. split_and!; [done..|].
    replace content with (Writer.get_or_empty data t); [by apply ordered_content_elem|].
    unfold Writer.get_or_empty. by rewrite Hdata, Hl.
  - intros t text Ht Hc Hnot.
    replace text with (Writer.get_or_empty data t); [by apply ordered_content_elem|].
    unfold Writer.get_or_empty. rewrite Hdata, record_unwritten by done.
    assert ((list_to_map cached : gmap string string) !! t = Some text) as ->
      by (by apply elem_of_list_to_map_1).
    done.
  - intros t Ht Hc Hnot.
    pose proof (ordered_content_elem new_toc data t Ht) as Hin.
    assert (Writer.get_or_empty data t = "") as Hg; [|by rewrite Hg in Hin].
    unfold Writer.get_or_empty. rewrite Hdata, record_unwritten by done.
    assert ((list_to_map cached : gmap string string) !! t = None) as ->
      by (by apply not_elem_of_list_to_map_1).
    done.
Qed.

Lemma export_covers_outline_witness :
  let new_toc := workshop_chapters in
  let cached := [("1 Overview", "A reservoir, restored.")] in
  let completions :=
    [ Writer.mkCompletion "3 Schedule" (Py.Raise "timeout") true;
      Writer.mkCompletion "2 Earthworks" (Py.Ok "Four excavators.") true ] in
  let chapters := Writer.chapters_to_write new_toc cached in
  let data := Writer.generated_data (Writer.write_loop chapters cached completions) in
  let ordered := Writer.ordered_content new_toc data in
  NoDup ordered.*1
  ∧ (∀ t, t ∈ ordered.*1 ↔ t ∈ new_toc)
  ∧ (NoDup new_toc → ordered.*1 = new_toc)
  ∧ (∀ t, t ∈ new_toc → Writer.written completions t →
       ∃ c content, c ∈ completions ∧ Writer.title c = t
                    ∧ Writer.outcome c = Py.Ok content ∧ (t, content) ∈ ordered)
  ∧ (∀ t text, t ∈ new_toc → (t, text) ∈ cached → ¬ Writer.written completions t →
       (t, text) ∈ ordered)
  ∧ (∀ t, t ∈ new_toc → t ∉ cached.*1 → ¬ Writer.written completions t →
       (t, "") ∈ ordered).
Proof.
  apply (export_covers_outline workshop_chapters [("1 Overview", "A reservoir, restored.")]).
  cbn. apply NoDup_singleton.
Defined.

(** The export of that run, by evaluation. *)
Example export_after_one_failure :
  let cached := [("1 Overview", "A reservoir, restored.")] in
  let completions :=
    [ Writer.mkCompletion "3 Schedule" (Py.Raise "timeout") true;
      Writer.mkCompletion "2 Earthworks" (Py.Ok "Four excavators.") true ] in
  let chapters := Writer.chapters_to_write workshop_chapters cached in
  let st := Writer.write_loop chapters cached completions in
  chapters = ["2 Earthworks"; "3 Schedule"]
  ∧ Writer.previewed (Writer.emitted st) = ["2 Earthworks"]
  ∧ Writer.ordered_content workshop_chapters (Writer.generated_data st)
    = [("1 Overview", "A reservoir, restored."); ("2 Earthworks", "Four excavators.");
       ("3 Schedule", "")].
Proof. vm_compute. done. Qed.

(** ** The pipeline: chunk ids in the vector store and in the graph *)

Section PipelineFacts.
Import VectorStore Pipeline.
Variable uuid5 : string → string.
Variable clean : string → string.
Variable meta : gmap string MetaValue.
Variable current_file_name : string.
Variable original_filename : option string.

Local Abbreviation name := (display_name current_file_name original_filename).
Local Abbreviation prep := (prepare uuid5 clean meta current_file_name original_filename).

Lemma prepare_kept_anywhere i j chunk : is_Some (prep i chunk) → is_Some (prep j chunk).
Proof. unfold prepare. by destruct (_ || _). Qed.

Lemma prepare_chunk_id i chunk c :
  prep i chunk = Some c →
  metadata c !! "chunk_id" = Some (MStr (Graph.chunk_id_of uuid5 name i)).
Proof.
  unfold prepare. destruct (_ || _); [|done]. intros [= <-]. cbn [metadata].
  apply lookup_insert_eq.
Qed.

Lemma clean_from_spec chunks : ∀ s k c,
  clean_from uuid5 clean meta current_file_name original_filename s chunks !! k = Some c →
  ∃ i chunk, k ≤ i ∧ chunks !! i = Some chunk ∧ prep (s + i) chunk = Some c
    ∧ (i = k ↔ ∀ j ch, j ≤ k → chunks !! j = Some ch → is_Some (prep j ch)).
Proof.
  induction chunks as [|ch0 rest IH]; intros s k c Hk; [done|]. cbn [clean_from] in Hk.
  destruct (prep s ch0) as [c0|] eqn:H0.
  - destruct k as [|k].
    + injection Hk as <-. exists 0, ch0. rewrite Nat.add_0_r. split_and!; [lia|done|done|].
      split; [|done]. intros _ j ch Hj Hch. assert (j = 0) as -> by lia.
      injection Hch as <-. eapply prepare_kept_anywhere. by rewrite H0.
    + cbn in Hk. destruct (IH (S s) k c Hk) as (i & chunk & Hle & Hi & Hp & Hiff).
      exists (S i), chunk. split_and!; [lia|done|by replace (s + S i) with (S s + i) by lia|].
      split.
      * intros Heq. assert (i = k) as Hik by lia. intros [|j] ch Hj Hch.
        -- injection Hch as <-. eapply prepare_kept_anywhere. by rewrite H0.
        -- eapply prepare_kept_anywhere, (proj1 Hiff Hik j ch); [lia|done].
      * intros Hall. f_equal. apply Hiff. intros j ch Hj Hch.
        eapply prepare_kept_anywhere, (Hall (S j) ch); [lia|done].
  - destruct (IH (S s) k c Hk) as (i & chunk & Hle & Hi & Hp & Hiff).
    exists (S i), chunk. split_and!; [lia|done|by replace (s + S i) with (S s + i) by lia|].
    split; [lia|]. intros Hall. exfalso.
    destruct (Hall 0 ch0) as [x Hx]; [lia|done|].
    assert (is_Some (prep s ch0)) as [y Hy] by (eapply prepare_kept_anywhere; by rewrite Hx).
    congruence.
Qed.

End PipelineFacts.

(** X17.  The pipeline gives a kept chunk two ids: the [chunk_id] of its
    metadata is computed from its position among the parsed chunks, the id
    of its graph node from its position among the kept chunks.  The node
    of the k-th kept chunk is stored under the id of position k, with the
    chunk's text; the id in its metadata is that of a position [i >= k],
    and the two are the same exactly when no parsed chunk up to position k
    was dropped by the cleaning step.  After a dropped chunk the id kept
    in the vector store leads to the node of a later chunk, or to none. *)
Theorem chunk_ids_agree_until_first_drop (uuid5 : string → string)
    (clean : string → string) (meta : gmap string VectorStore.MetaValue)
    (current_file_name : string) (original_filename : option string)
    (chunks : list VectorStore.IndexableChunk) (k : nat) (c : VectorStore.IndexableChunk) :
  (∀ s t, uuid5 s = uuid5 t → s = t) →
  (∀ s, uuid5 s ≠ "") →
  let name := Pipeline.display_name current_file_name original_filename in
  let prepare := Pipeline.prepare uuid5 clean meta current_file_name original_filename in
  let cleaned :=
    Pipeline.cleaned_chunks uuid5 clean meta current_file_name original_filename chunks in
  let db := Graph.create_document_structure uuid5 name (Pipeline.graph_data cleaned)
              Graph.empty_db in
  cleaned !! k = Some c →
  (∃ node, Graph.chunks db !! Graph.chunk_id_of uuid5 name k = Some node
           ∧ Graph.text node = VectorStore.content c ∧ Graph.index node = k)
  ∧ ∃ i, k ≤ i
      ∧ VectorStore.metadata c !! "chunk_id"
        = Some (VectorStore.MStr (Graph.chunk_id_of uuid5 name i))
      ∧ (i = k ↔ ∀ j ch, j ≤ k → chunks !! j = Some ch → is_Some (prepare j ch))
      ∧ (Graph.chunk_id_of uuid5 name i = Graph.chunk_id_of uuid5 name k ↔ i = k)
      ∧ Graph.text <$> (Graph.chunks db !! Graph.chunk_id_of uuid5 name i)
        = VectorStore.content <$> (cleaned !! i).
Proof.
  intros Hinj Hne. cbn zeta. intros Hk.
  set (name := Pipeline.display_name current_file_name original_filename).
  set (cleaned := Pipeline.cleaned_chunks _ _ _ _ _ chunks) in *.
  assert (∀ j, Graph.text <$>
               (Graph.chunks (Graph.create_document_structure uuid5 name
                                (Pipeline.graph_data cleaned) Graph.empty_db)
                  !! Graph.chunk_id_of uuid5 name j)
             = VectorStore.content <$> (cleaned !! j)) as Hnode.
  { intros j. rewrite (lookup_cid uuid5 name Hinj Hne).
    unfold ChainView.chain_nodes, Pipeline.graph_data.
    rewrite list_lookup_imap, list_lookup_fmap. by destruct (cleaned !! j). }
  split.
  - rewrite (lookup_cid uuid5 name Hinj Hne).
    unfold ChainView.chain_nodes, Pipeline.graph_data.
    rewrite list_lookup_imap, list_lookup_fmap, Hk. cbn. eauto.
  - destruct (clean_from_spec uuid5 clean meta current_file_name original_filename
                chunks 0 k c Hk) as (i & chunk & Hle & Hi & Hp & Hiff).
    exists i. split_and!; [done| |done| |apply Hnode].
    + by eapply prepare_chunk_id.
    + split; [|by intros ->]. apply (cid_inj uuid5 name Hinj).
Qed.

Lemma chunk_ids_agree_until_first_drop_witness :
  let name := Pipeline.display_name "upload.tmp" (Some "tender.docx") in
  let prepare := Pipeline.prepare scenario_uuid5 (λ s, s) ∅ "upload.tmp" (Some "tender.docx") in
  let cleaned :=
    Pipeline.cleaned_chunks scenario_uuid5 (λ s, s) ∅ "upload.tmp" (Some "tender.docx")
      parsed_chunks in
  let db := Graph.create_document_structure scenario_uuid5 name (Pipeline.graph_data cleaned)
              Graph.empty_db in
  ∃ c, cleaned !! 1 = Some c
  ∧ (∃ node, Graph.chunks db !! Graph.chunk_id_of scenario_uuid5 name 1 = Some node
           ∧ Graph.text node = VectorStore.content c ∧ Graph.index node = 1)
  ∧ ∃ i, 1 ≤ i
      ∧ VectorStore.metadata c !! "chunk_id"
        = Some (VectorStore.MStr (Graph.chunk_id_of scenario_uuid5 name i))
      ∧ (i = 1 ↔ ∀ j ch, j ≤ 1 → parsed_chunks !! j = Some ch → is_Some (prepare j ch))
      ∧ (Graph.chunk_id_of scenario_uuid5 name i = Graph.chunk_id_of scenario_uuid5 name 1
         ↔ i = 1)
      ∧ Graph.text <$> (Graph.chunks db !! Graph.chunk_id_of scenario_uuid5 name i)
        = VectorStore.content <$> (cleaned !! i).
Proof.
  cbn zeta. eexists. split; [vm_compute; reflexivity|].
  apply (chunk_ids_agree_until_first_drop scenario_uuid5 (λ s, s) ∅ "upload.tmp"
           (Some "tender.docx") parsed_chunks 1).
  - intros s t H. by apply (inj (String.app "uuid-")) in H.
  - intros s. unfold scenario_uuid5. cbn. discriminate.
  - vm_compute. reflexivity.
Defined.

(** On those chunks the id that the vector store keeps for the last chunk
    is the id of position 2, while its graph node has the id of position
    1; no node has the id of position 2. *)
Example dropped_chunk_shifts_graph_ids :
  let cleaned :=
    Pipeline.cleaned_chunks scenario_uuid5 (λ s, s) ∅ "upload.tmp" (Some "tender.docx")
      parsed_chunks in
  let db := Graph.create_document_structure scenario_uuid5 "tender.docx"
              (Pipeline.graph_data cleaned) Graph.empty_db in
  (λ c, VectorStore.metadata c !! "chunk_id") <$> cleaned
    = [ Some (VectorStore.MStr "uuid-tender.docx_0");
        Some (VectorStore.MStr "uuid-tender.docx_2") ]
  ∧ Graph.text <$> (Graph.chunks db !! "uuid-tender.docx_1") = Some "Four excavators."
  ∧ Graph.chunks db !! "uuid-tender.docx_2" = None.
Proof. vm_compute. done. Qed.

(** ** Estimated page numbers *)

Section PageFacts.
Import Parser.

Lemma py_int_nonneg x : (0 <= x)%Q → (0 <= py_int x)%Z.
Proof.
  intros Hx. unfold py_int. rewrite (proj2 (Qle_bool_iff 0 x) Hx).
  change 0%Z with (Qfloor 0). by apply Qfloor_resp_le.
Qed.

Lemma py_int_mono x y : (0 <= x)%Q → (x <= y)%Q → (py_int x <= py_int y)%Z.
Proof.
  intros Hx Hxy. unfold py_int.
  rewrite (proj2 (Qle_bool_iff 0 x) Hx).
  rewrite (proj2 (Qle_bool_iff 0 y)) by lra.
  by apply Qfloor_resp_le.
Qed.

Lemma inject_nat_nonneg n : (0 <= inject_Z (Z.of_nat n))%Q.
Proof. change 0%Q with (inject_Z 0). rewrite <- Zle_Qle. lia. Qed.

Lemma quotient_nonneg x per_page : (0 <= x)%Q → (0 < per_page)%Q → (0 <= x / per_page)%Q.
Proof.
  intros Hx Hp. unfold Qdiv. apply Qmult_le_0_compat; [done|].
  apply Qlt_le_weak, Qinv_lt_0_compat, Hp.
Qed.

Lemma quotient_mono x y per_page :
  (x <= y)%Q → (0 < per_page)%Q → (x / per_page <= y / per_page)%Q.
Proof.
  intros Hxy Hp. unfold Qdiv. apply Qmult_le_compat_r; [done|].
  apply Qlt_le_weak, Qinv_lt_0_compat, Hp.
Qed.

Lemma estimate_from_spec per_page total_pages lens : ∀ current,
  (0 < per_page)%Q → 0 < total_pages →
  let pages := estimate_from per_page total_pages current lens in
  length pages = length lens
  ∧ Forall (λ p, (1 <= p <= Z.of_nat total_pages)%Z) pages
  ∧ Forall (λ p, (Z.min (py_int (inject_Z (Z.of_nat current) / per_page) + 1)
                        (Z.of_nat total_pages) <= p)%Z) pages
  ∧ StronglySorted Z.le pages.
Proof.
  induction lens as [|chunk_len rest IH]; intros current Hp Hpages; cbn zeta.
  - cbn. split_and!; constructor.
  - cbn [estimate_from length].
    destruct (IH (current + chunk_len) Hp Hpages) as (I1 & I2 & I3 & I4).
    set (mid := (inject_Z (Z.of_nat current) + inject_Z (Z.of_nat chunk_len) / 2)%Q).
    pose proof (inject_nat_nonneg current) as Hc0.
    pose proof (inject_nat_nonneg chunk_len) as Hl0.
    assert (inject_Z (Z.of_nat (current + chunk_len))
            == inject_Z (Z.of_nat current) + inject_Z (Z.of_nat chunk_len))%Q as Hsum.
    { rewrite Nat2Z.inj_add, inject_Z_plus. reflexivity. }
    assert (mid == inject_Z (Z.of_nat current) + inject_Z (Z.of_nat chunk_len) * (1 # 2))%Q
      as Hmid by reflexivity.
    clearbody mid.
    assert (inject_Z (Z.of_nat current) <= mid)%Q as Hcm by lra.
    assert (mid <= inject_Z (Z.of_nat (current + chunk_len)))%Q as Hmn by lra.
    assert (0 <= mid)%Q as Hm0 by lra.
    pose proof (py_int_nonneg _ (quotient_nonneg _ _ Hm0 Hp)) as Hq0.
    pose proof (py_int_mono _ _ (quotient_nonneg _ _ Hc0 Hp) (quotient_mono _ _ _ Hcm Hp))
      as Hlow.
    pose proof (py_int_mono _ _ (quotient_nonneg _ _ Hm0 Hp) (quotient_mono _ _ _ Hmn Hp))
      as Hup.
    split_and!.
    + by rewrite I1.
    + constructor; [lia|done].
    + constructor; [lia|]. eapply Forall_impl; [exact I3|]. cbn. intros p Hpge. lia.
    + constructor; [done|]. eapply Forall_impl; [exact I3|]. cbn. intros p Hpge. lia.
Qed.

End PageFacts.

(** X18.  The page estimated for the text chunks of a PDF with at least
    one page: every chunk gets a page between 1 and the number of pages,
    and the pages never decrease from one chunk to the next, whatever the
    lengths of the chunks (they may overlap and add up to more than the
    text).  The estimate is computed in exact arithmetic here; both facts
    are insensitive to the rounding of the floating point division. *)
Theorem estimated_pages_in_range_and_ordered (total_chars total_pages : nat)
    (lens : list nat) :
  0 < total_chars → 0 < total_pages →
  let pages := Parser.estimate_pages total_chars total_pages lens in
  length pages = length lens
  ∧ Forall (λ p, (1 <= p <= Z.of_nat total_pages)%Z) pages
  ∧ StronglySorted Z.le pages.
Proof.
  intros Hchars Hpages. cbn zeta. unfold Parser.estimate_pages.
  destruct total_chars as [|n]; [lia|].
  assert (0 < Parser.chars_per_page (S n) total_pages)%Q as Hp.
  { unfold Parser.chars_per_page. rewrite bool_decide_eq_true_2 by done.
    unfold Qdiv. apply Qmult_lt_0_compat.
    - change 0%Q with (inject_Z 0). rewrite <- Zlt_Qlt. lia.
    - apply Qinv_lt_0_compat. change 0%Q with (inject_Z 0). rewrite <- Zlt_Qlt. lia. }
  destruct (estimate_from_spec _ total_pages lens 0 Hp Hpages) as (H1 & H2 & _ & H4).
  done.
Qed.

Lemma estimated_pages_in_range_and_ordered_witness :
  let pages := Parser.estimate_pages 1000 4 [300; 300; 300; 300] in
  length pages = length [300; 300; 300; 300]
  ∧ Forall (λ p, (1 <= p <= Z.of_nat 4)%Z) pages
  ∧ StronglySorted Z.le pages.
Proof.
  apply (estimated_pages_in_range_and_ordered 1000 4 [300; 300; 300; 300]); lia.
Defined.

(** Four chunks of 300 characters cut with overlap from a text of 1000
    characters on four pages. *)
Example estimated_pages_of_overlapping_chunks :
  Parser.estimate_pages 1000 4 [300; 300; 300; 300] = [1; 2; 4; 4]%Z.
Proof. vm_compute. reflexivity. Qed.

(** ** Fusion and graph expansion without assumptions on the recalls *)

Lemma first_seen_sublist seen l : Fusion.first_seen seen l `sublist_of` l.
Proof.
  revert seen. induction l as [|d l IH]; intros seen; cbn; [done|].
  case_bool_decide; [by apply sublist_cons|by apply sublist_skip].
Qed.

(** X19.  Whatever the two recalls return, repeated chunks included, the
    fused list has no two candidates with the same key and covers every
    key that was recalled; it consists of lexical candidates, in the order
    of the lexical recall, followed by vector candidates, in the order of
    the vector recall, and a vector candidate is kept only if no lexical
    candidate has its key. *)
Theorem fusion_keeps_order_and_keys (A B : list Document) :
  NoDup (Fusion.dedup_key <$> Fusion.fuse A B)
  ∧ Fusion.keys (Fusion.fuse A B) = Fusion.keys A ∪ Fusion.keys B
  ∧ ∃ lexical vector,
      Fusion.fuse A B
        = (set_source_method "BM25" <$> lexical) ++ (set_source_method "Vector" <$> vector)
      ∧ lexical `sublist_of` A ∧ vector `sublist_of` B
      ∧ Forall (λ b, Fusion.dedup_key b ∉ Fusion.keys A) vector.
Proof.
  rewrite fuse_eq.
  assert (∀ tag (l : list Document),
            Fusion.dedup_key <$> (set_source_method tag <$> l) = Fusion.dedup_key <$> l)
    as Hkeys.
  { intros tag l. rewrite <- list_fmap_compose. apply list_fmap_ext.
    intros i d _. apply dedup_key_tagged. }
  assert (Fusion.first_seen ∅ A ++ Fusion.first_seen (Fusion.keys A) B
          = Fusion.first_seen ∅ (A ++ B)) as Happ.
  { rewrite first_seen_app. by rewrite (left_id_L ∅ (∪)). }
  split_and!.
  - rewrite fmap_app, !Hkeys, <- fmap_app, Happ. apply first_seen_NoDup.
  - unfold Fusion.keys at 1. rewrite fmap_app, !Hkeys, <- fmap_app, Happ.
    pose proof (first_seen_keys ∅ (A ++ B)) as H. rewrite !(left_id_L ∅ (∪)) in H.
    unfold Fusion.keys in *. rewrite H, fmap_app. apply list_to_set_app_L.
  - exists (Fusion.first_seen ∅ A), (Fusion.first_seen (Fusion.keys A) B).
    split_and!; [done|apply first_seen_sublist..|].
    apply Forall_forall. intros b Hb. by apply first_seen_subseteq in Hb as [_ ?].
Qed.

Section ExpansionFacts.
Import Rag Expansion.
Variable window : string → nat → Py.Exc (list Graph.Row).
Variable unique_ids : gset string.

Local Abbreviation inv := (expanding window unique_ids).

Lemma candidate_chunk_id n : metadata (candidate_of n) !! "chunk_id" = Some (Graph.id n).
Proof. unfold candidate_of. cbn. apply lookup_insert_eq. Qed.

Lemma found_by_more docs1 docs2 g :
  found_by window docs1 g → found_by window (docs1 ++ docs2) g.
Proof.
  intros (d & cid & rows & row & n & Hd & ?). exists d, cid, rows, row, n.
  split; [apply elem_of_app; by left|done].
Qed.

Lemma expanding_more docs d acc : inv docs acc → inv (docs ++ [d]) acc.
Proof.
  intros (H1 & H2 & H3). split_and!; [done..|].
  intros g Hg. destruct (H3 g Hg) as [Hf Hid]. split; [by apply found_by_more|done].
Qed.

Lemma expand_node_inv docs d cid rows row node acc :
  Py.truthy_get (metadata d !! "chunk_id") = Some cid →
  window cid 1 = Py.Ok rows → row ∈ rows →
  Graph.prev row = node ∨ Graph.next row = node →
  inv (docs ++ [d]) acc → inv (docs ++ [d]) (expand_node acc node).
Proof.
  intros Hcid Hrows Hrow Hnode (H1 & H2 & H3). unfold expand_node.
  destruct node as [n|]; [|done]. case_bool_decide as Hseen; [done|].
  fold (candidate_of n). unfold expanding. cbn [fst snd]. split_and!.
  - set_solver.
  - rewrite fmap_app. apply NoDup_app. split_and!; [done| |apply NoDup_singleton].
    intros x (g & -> & Hg)%list_elem_of_fmap Hx%list_elem_of_singleton.
    cbn beta in Hx. rewrite candidate_chunk_id in Hx.
    destruct (H3 g Hg) as [_ (c & Hc & Hin & _)]. rewrite Hc in Hx.
    injection Hx as ->. done.
  - intros g [Hg|Hg%list_elem_of_singleton]%elem_of_app.
    + destruct (H3 g Hg) as [Hf (c & Hc & Hin & Hnew)]. split; [done|].
      exists c. split_and!; [done|set_solver|done].
    + subst g. split.
      * exists d, cid, rows, row, n. split_and!; try done.
        apply elem_of_app. right. by left.
      * exists (Graph.id n). split_and!; [apply candidate_chunk_id|set_solver|set_solver].
Qed.

Lemma expand_rows_inv docs d cid rows acc :
  Py.truthy_get (metadata d !! "chunk_id") = Some cid →
  window cid 1 = Py.Ok rows →
  inv (docs ++ [d]) acc → inv (docs ++ [d]) (foldl expand_row acc rows).
Proof.
  intros Hcid Hrows.
  assert (∀ some acc, (∀ r, r ∈ some → r ∈ rows) →
            inv (docs ++ [d]) acc → inv (docs ++ [d]) (foldl expand_row acc some)) as H.
  { induction some as [|r some IH]; intros acc' Hsub Hacc; [done|]. cbn [foldl].
    apply IH; [intros r' Hr'; apply Hsub; by right|].
    unfold expand_row.
    eapply expand_node_inv; [done|done|apply Hsub; by left|by right|].
    eapply expand_node_inv; [done|done|apply Hsub; by left|by left|done]. }
  by apply H.
Qed.

Lemma expand_docs_inv rest : ∀ docs acc acc',
  inv docs acc → expand_docs window rest acc = Py.Ok acc' → inv (docs ++ rest) acc'.
Proof.
  induction rest as [|d rest IH]; intros docs acc acc' Hacc H; cbn in H.
  - injection H as <-. by rewrite app_nil_r.
  - rewrite (cons_middle d docs rest), app_assoc.
    destruct (Py.truthy_get (metadata d !! "chunk_id")) as [cid|] eqn:Hcid.
    + destruct (window cid 1) as [rows|e] eqn:Hrows; [|done].
      eapply IH; [|exact H]. eapply expand_rows_inv; [done..|].
      by apply expanding_more.
    + eapply IH; [|exact H]. by apply expanding_more.
Qed.

(** One failing window call makes the whole loop fail. *)
Lemma expand_docs_raises rest : ∀ acc d cid e,
  d ∈ rest → Py.truthy_get (metadata d !! "chunk_id") = Some cid →
  window cid 1 = Py.Raise e →
  ∃ e', expand_docs window rest acc = Py.Raise e'.
Proof.
  induction rest as [|d0 rest IH]; intros acc d cid e Hd Hcid He;
    [by apply elem_of_nil in Hd|].
  cbn [expand_docs].
  destruct (Py.truthy_get (metadata d0 !! "chunk_id")) as [cid0|] eqn:Hcid0.
  - destruct (window cid0 1) as [rows|e0] eqn:Hrows; [|by eexists].
    apply elem_of_cons in Hd as [->|Hd]; [congruence|]. by eapply IH.
  - apply elem_of_cons in Hd as [->|Hd]; [congruence|]. by eapply IH.
Qed.

End ExpansionFacts.

(** X20.  Graph expansion looks at the first five fused candidates only.
    Every candidate it adds was built for a predecessor or successor that
    the window query names for one of them; it carries a chunk id that no
    fused candidate has, and no two added candidates carry the same id.
    If the window query fails for one of the five, nothing is added at
    all, the neighbours found for the candidates before it included. *)
Theorem graph_expansion_adds_new_neighbours (sv : Rag.Services)
    (window : string → nat → Py.Exc (list Graph.Row))
    (initial_docs : list Document) (unique_ids : gset string) :
  Rag.graph_manager sv = Some window →
  let expanded := Rag.expanded_docs sv initial_docs unique_ids in
  expanded = Rag.expanded_docs sv (take 5 initial_docs) unique_ids
  ∧ NoDup ((λ g, metadata g !! "chunk_id") <$> expanded)
  ∧ Forall (λ g, Expansion.found_by window (take 5 initial_docs) g
                 ∧ ∃ cid, metadata g !! "chunk_id" = Some cid ∧ cid ∉ unique_ids) expanded
  ∧ (∀ d cid e, d ∈ take 5 initial_docs →
       Py.truthy_get (metadata d !! "chunk_id") = Some cid →
       window cid 1 = Py.Raise e → expanded = []).
Proof.
  intros Hgm. cbn zeta. unfold Rag.expanded_docs. rewrite Hgm.
  destruct initial_docs as [|d0 ds].
  { split_and!; [done|constructor|constructor|done]. }
  set (top := take 5 (d0 :: ds)).
  assert (take 5 top = top) as Htop by (subst top; by rewrite take_take).
  assert (∃ t0 ts, top = t0 :: ts) as (t0 & ts & Hcons) by (subst top; cbn; eauto).
  rewrite Hcons at 1 3. rewrite <- Hcons, Htop.
  destruct (Rag.expand_docs window top ([], unique_ids)) as [acc|e] eqn:Hx.
  - destruct (expand_docs_inv window unique_ids top [] ([], unique_ids) acc)
      as (H1 & H2 & H3); [|done|].
    { split_and!; [done|constructor|by intros g ?%elem_of_nil]. }
    split_and!; [done|done| |].
    + apply Forall_forall. intros g Hg. destruct (H3 g Hg) as [Hf (cid & Hc & _ & Hnew)].
      split; [done|]. by exists cid.
    + intros d cid e Hd Hcid He.
      destruct (expand_docs_raises window top ([], unique_ids) d cid e Hd Hcid He)
        as [e' He'].
      congruence.
  - split_and!; [done|constructor|constructor|done].
Qed.

Lemma graph_expansion_adds_new_neighbours_witness :
  ∃ window, Rag.graph_manager with_graph = Some window ∧
  let initial_docs :=
    Fusion.initial_docs (Rag.fuse_stage with_graph all_scope "挖掘机数量" "挖掘机数量") in
  let unique_ids :=
    Fusion.unique_ids (Rag.fuse_stage with_graph all_scope "挖掘机数量" "挖掘机数量") in
  let expanded := Rag.expanded_docs with_graph initial_docs unique_ids in
  expanded = Rag.expanded_docs with_graph (take 5 initial_docs) unique_ids
  ∧ NoDup ((λ g, metadata g !! "chunk_id") <$> expanded)
  ∧ Forall (λ g, Expansion.found_by window (take 5 initial_docs) g
                 ∧ ∃ cid, metadata g !! "chunk_id" = Some cid ∧ cid ∉ unique_ids) expanded
  ∧ (∀ d cid e, d ∈ take 5 initial_docs →
       Py.truthy_get (metadata d !! "chunk_id") = Some cid →
       window cid 1 = Py.Raise e → expanded = []).
Proof.
  eexists. split; [reflexivity|].
  apply (graph_expansion_adds_new_neighbours with_graph). reflexivity.
Defined.

(** ** The file registry *)

Section RegistryFacts.
Import Registry.

Lemma ascii_compare_N (a b : Ascii.ascii) :
  Ascii.compare a b = (Ascii.N_of_ascii a ?= Ascii.N_of_ascii b)%N.
Proof. reflexivity. Qed.

Lemma str_leb_trans (s t u : string) :
  String.leb s t = true → String.leb t u = true → String.leb s u = true.
Proof.
  unfold String.leb. revert t u.
  induction s as [|a s IH]; intros [|b t] [|c u]; cbn; try done.
  rewrite !ascii_compare_N.
  destruct (N.compare_spec (Ascii.N_of_ascii a) (Ascii.N_of_ascii b)) as [Hab|Hab|Hab];
    destruct (N.compare_spec (Ascii.N_of_ascii b) (Ascii.N_of_ascii c)) as [Hbc|Hbc|Hbc];
    try done.
  - rewrite <- Hab in Hbc. rewrite Hbc, N.compare_refl. apply IH.
  - rewrite Hab. by destruct (N.compare_spec (Ascii.N_of_ascii b) (Ascii.N_of_ascii c));
      [lia| |lia].
  - rewrite <- Hbc. by destruct (N.compare_spec (Ascii.N_of_ascii a) (Ascii.N_of_ascii b));
      [lia| |lia].
  - by destruct (N.compare_spec (Ascii.N_of_ascii a) (Ascii.N_of_ascii c)); [lia| |lia].
Qed.

Local Instance str_le_trans : Transitive str_le.
Proof. intros s t u. apply str_leb_trans. Qed.

Local Instance str_le_total : Total str_le.
Proof. intros s t. apply String.leb_total. Qed.

Lemma str_lt_le_ne (s t : string) : str_lt s t ↔ str_le s t ∧ s ≠ t.
Proof.
  unfold str_lt, str_le, String.ltb, String.leb. split.
  - intros H. split; [by destruct (String.compare s t)|].
    intros ->. assert (String.compare t t = Eq) as Ht; [|by rewrite Ht in H].
    clear H. induction t as [|a t IH]; [done|]. cbn.
    by rewrite ascii_compare_N, N.compare_refl.
  - intros [H Hne]. destruct (String.compare s t) eqn:Hc; [|done|done].
    by apply String.compare_eq_iff in Hc.
Qed.

Lemma sorted_elem (l : list string) (x : string) : x ∈ sorted l ↔ x ∈ l.
Proof. unfold sorted. by rewrite merge_sort_Permutation. Qed.

Lemma sorted_strict (l : list string) : NoDup l → StronglySorted str_lt (sorted l).
Proof.
  intros Hnd.
  assert (NoDup (sorted l)) as Hnd' by (unfold sorted; by rewrite merge_sort_Permutation).
  pose proof (StronglySorted_merge_sort str_le l) as Hs. fold (sorted l) in Hs.
  induction Hs as [|x xs Hs IH Hall]; [constructor|].
  apply NoDup_cons in Hnd' as [Hx Hnd']. constructor; [by apply IH|].
  apply Forall_forall. intros y Hy. apply str_lt_le_ne. split.
  - by apply (proj1 (Forall_forall _ _) Hall).
  - intros ->. done.
Qed.

(** The type a file is registered under. *)
Lemma elem_of_get_files (file : RegistryFile) (p t f : string) :
  f ∈ get_files_for_project_and_tag file p t ↔ tag_of file p f = Some t.
Proof.
  unfold get_files_for_project_and_tag, tag_of. rewrite sorted_elem, list_elem_of_fmap.
  destruct (load_metadata file !! p) as [pd|]; cbn.
  - split.
    + intros ([f' fi] & -> & [Hfi Hin]%list_elem_of_filter). cbn in *.
      apply elem_of_map_to_list in Hin. by rewrite Hin.
    + destruct (pd !! f) as [fi|] eqn:Hf; [|done]. cbn. intros Hfi.
      exists (f, fi). split; [done|]. apply list_elem_of_filter. split; [done|].
      by apply elem_of_map_to_list.
  - rewrite map_to_list_empty. split; [|done].
    intros (x & _ & Hx). rewrite filter_nil in Hx. by apply elem_of_nil in Hx.
Qed.

Lemma elem_of_get_tags (file : RegistryFile) (p t : string) :
  t ∈ get_tags_for_project file p ↔ ∃ f, tag_of file p f = Some t.
Proof.
  unfold get_tags_for_project, tag_of. rewrite sorted_elem, elem_of_elements,
    elem_of_list_to_set, list_elem_of_omap.
  destruct (load_metadata file !! p) as [pd|]; cbn.
  - split.
    + intros (fi & Hin & Hfi). apply list_elem_of_fmap in Hin as ([f fi'] & -> & Hin).
      apply elem_of_map_to_list in Hin. exists f. by rewrite Hin.
    + intros (f & Hf). destruct (pd !! f) as [fi|] eqn:Hpf; [|done]. cbn in Hf.
      exists fi. split; [|done]. apply list_elem_of_fmap. exists (f, fi).
      split; [done|]. by apply elem_of_map_to_list.
  - rewrite map_to_list_empty. split.
    + intros (x & Hx & _). by apply elem_of_nil in Hx.
    + by intros (f & Hf).
Qed.

Lemma get_files_NoDup (file : RegistryFile) (p t : string) :
  StronglySorted str_lt (get_files_for_project_and_tag file p t).
Proof.
  apply sorted_strict.
  eapply sublist_NoDup; [|apply fmap_sublist, sublist_filter].
  apply NoDup_fst_map_to_list.
Qed.

Lemma get_tags_sorted (file : RegistryFile) (p : string) :
  StronglySorted str_lt (get_tags_for_project file p).
Proof. apply sorted_strict, NoDup_elements. Qed.

Lemma tag_of_register (file : RegistryFile) (project tag filename p f : string) :
  project ≠ "" → tag ≠ "" → filename ≠ "" →
  tag_of (register_file_metadata Written project tag filename file).1 p f
  = if bool_decide (p = project ∧ f = filename) then Some tag else tag_of file p f.
Proof.
  intros Hp Ht Hf. unfold register_file_metadata, Py.truthy.
  rewrite !bool_decide_eq_false_2 by done. cbn [negb andb save_metadata fst].
  unfold tag_of. cbn [load_metadata].
  destruct (decide (p = project)) as [->|Hne].
  - rewrite lookup_alter_eq.
    destruct (load_metadata file !! project) as [pd|] eqn:Hpd; cbv iota; rewrite ?Hpd;
      [|rewrite lookup_insert_eq]; cbn.
    + destruct (decide (f = filename)) as [->|Hnf].
      * rewrite lookup_insert_eq, bool_decide_eq_true_2 by done. cbn.
        by rewrite lookup_singleton_eq.
      * rewrite lookup_insert_ne, bool_decide_eq_false_2 by naive_solver. done.
    + destruct (decide (f = filename)) as [->|Hnf].
      * rewrite lookup_insert_eq, bool_decide_eq_true_2 by done. cbn.
        by rewrite lookup_singleton_eq.
      * rewrite lookup_insert_ne, bool_decide_eq_false_2 by naive_solver.
        by rewrite lookup_empty.
  - rewrite lookup_alter_ne, bool_decide_eq_false_2 by naive_solver.
    destruct (load_metadata file !! project); [done|].
    by rewrite lookup_insert_ne.
Qed.

Section DeleteFacts.
Variable file_path : string → string → string.

Lemma delete_file_result (remove_ok : bool) (folder filename : string) (d : Disk) :
  (file_path folder filename ∉ physical d) ∨ remove_ok = true →
  let d' := delete_file file_path remove_ok Written folder filename d in
  d'.2 = Py.Ok true
  ∧ physical d'.1 = physical d ∖ {[file_path folder filename]}
  ∧ load_metadata (registry d'.1)
    = match load_metadata (registry d) !! folder with
      | Some pd =>
          if bool_decide (delete filename pd = ∅)
          then (if bool_decide (is_Some (pd !! filename))
                then delete folder (load_metadata (registry d))
                else load_metadata (registry d))
          else <[folder := delete filename pd]> (load_metadata (registry d))
      | None => load_metadata (registry d)
      end.
Proof.
  intros Hrm. cbn zeta. unfold delete_file.
  assert (bool_decide (file_path folder filename ∈ physical d) && negb remove_ok = false)
    as ->.
  { destruct Hrm as [Hno| ->]; [by rewrite bool_decide_eq_false_2|].
    by rewrite andb_false_r. }
  destruct (load_metadata (registry d) !! folder) as [pd|] eqn:Hpd; [|done].
  case_bool_decide as Hin; cbn [save_metadata].
  - case_bool_decide; cbn; done.
  - cbn. split_and!; [done..|].
    assert (delete filename pd = pd) as Hdel.
    { apply delete_id. by apply eq_None_not_Some. }
    rewrite Hdel. case_bool_decide; [done|]. by rewrite insert_id.
Qed.

Lemma tag_of_delete (remove_ok : bool) (folder filename p f : string) (d : Disk) :
  (file_path folder filename ∉ physical d) ∨ remove_ok = true →
  tag_of (registry (delete_file file_path remove_ok Written folder filename d).1) p f
  = if bool_decide (p = folder ∧ f = filename) then None else tag_of (registry d) p f.
Proof.
  intros Hrm. destruct (delete_file_result remove_ok folder filename d Hrm)
    as (_ & _ & Hload). cbn zeta in Hload.
  unfold tag_of. rewrite Hload. clear Hload.
  destruct (load_metadata (registry d) !! folder) as [pd|] eqn:Hpd.
  - destruct (decide (p = folder)) as [->|Hne].
    + rewrite (bool_decide_ext (folder = folder ∧ f = filename) (f = filename))
        by naive_solver.
      rewrite Hpd. cbn.
      assert ((delete filename pd !! f ≫= λ fi : FileInfo, fi !! "tag")
              = if bool_decide (f = filename) then None
                else pd !! f ≫= λ fi : FileInfo, fi !! "tag") as Hgoal.
      { destruct (decide (f = filename)) as [->|Hnf].
        - by rewrite lookup_delete_eq, bool_decide_eq_true_2.
        - by rewrite lookup_delete_ne, bool_decide_eq_false_2 by naive_solver. }
      rewrite <- Hgoal. clear Hgoal. case_bool_decide as He.
      * rewrite He, lookup_empty. case_bool_decide as Hin.
        -- by rewrite lookup_delete_eq.
        -- rewrite Hpd. cbn.
           assert (pd = ∅) as ->; [|by rewrite lookup_empty].
           rewrite <- He. symmetry. apply delete_id. by apply eq_None_not_Some.
      * by rewrite lookup_insert_eq.
    + rewrite (bool_decide_eq_false_2 (p = folder ∧ f = filename)) by naive_solver.
      repeat case_bool_decide; by rewrite ?lookup_delete_ne, ?lookup_insert_ne.
  - case_bool_decide as He; [|done]. destruct He as [-> ->]. by rewrite Hpd.
Qed.

End DeleteFacts.

End RegistryFacts.







(** ** Tables as Markdown *)

Section TableFacts.
Import Table.

Lemma count_char_app (c : Ascii.ascii) (a b : string) :
  count_char c (a +:+ b) = count_char c a + count_char c b.
Proof.
  induction a as [|x a IH]; [done|].
  rewrite str_app_cons. cbn [count_char]. rewrite IH. lia.
Qed.

Lemma count_replaced (c : Ascii.ascii) (replacement s : string) :
  count_char c replacement = 0 → count_char c (replace_char c replacement s) = 0.
Proof.
  intros Hr. induction s as [|a s IH]; [done|]. cbn [replace_char].
  destruct (Ascii.eqb a c) eqn:Hac.
  - rewrite count_char_app. lia.
  - cbn [count_char]. rewrite Hac. lia.
Qed.

Lemma count_kept (c c' : Ascii.ascii) (replacement s : string) :
  count_char c' replacement = 0 → count_char c' s = 0 →
  count_char c' (replace_char c replacement s) = 0.
Proof.
  intros Hr. induction s as [|a s IH]; [done|]. cbn [replace_char count_char].
  intros Hs. destruct (Ascii.eqb a c) eqn:Hac.
  - rewrite count_char_app. lia.
  - cbn [count_char]. lia.
Qed.

Lemma clean_cell_plain (cell : option string) :
  count_char pipe (clean_cell cell) = 0 ∧ count_char newline (clean_cell cell) = 0.
Proof.
  unfold clean_cell. destruct (Py.truthy_get cell) as [s|]; [|done]. split.
  - by apply count_replaced.
  - apply count_kept; [done|]. by apply count_replaced.
Qed.

Lemma join_cells (cells : list string) :
  Forall plain cells →
  count_char pipe (join " | " cells) = length cells - 1
  ∧ count_char newline (join " | " cells) = 0.
Proof.
  induction 1 as [|x cells [Hp Hn] Hall [IHp IHn]]; [done|].
  destruct cells as [|y cells]; [cbn; lia|].
  change (join " | " (x :: y :: cells)) with (x +:+ " | " +:+ join " | " (y :: cells)).
  rewrite !count_char_app, IHp, IHn, Hp, Hn.
  change (count_char pipe " | ") with 1. change (count_char newline " | ") with 0.
  cbn [length]. lia.
Qed.

Lemma row_line_spec (cells : list string) :
  Forall plain cells →
  count_char pipe (row_line cells) = S (Nat.max 1 (length cells))
  ∧ count_char newline (row_line cells) = 0
  ∧ row_line cells ≠ "".
Proof.
  intros Hall. destruct (join_cells cells Hall) as [Hp Hn]. unfold row_line.
  rewrite !count_char_app, Hp, Hn.
  change (count_char pipe "| ") with 1. change (count_char newline "| ") with 0.
  change (count_char pipe " |") with 1. change (count_char newline " |") with 0.
  split_and!; [lia|done|done].
Qed.

Lemma lines_plain (l : string) : count_char newline l = 0 → lines l = [l].
Proof.
  induction l as [|a l IH]; [done|]. cbn [count_char lines].
  destruct (Ascii.eqb a newline); [done|]. intros Hl. by rewrite IH.
Qed.

Lemma lines_app (l rest : string) :
  count_char newline l = 0 →
  lines (l +:+ String newline rest) = l :: lines rest.
Proof.
  induction l as [|a l IH].
  - intros _. change ("" +:+ String newline rest) with (String newline rest). done.
  - rewrite str_app_cons. cbn [count_char lines].
    destruct (Ascii.eqb a newline); [done|]. intros Hl. by rewrite IH.
Qed.

Lemma lines_join (ls : list string) (l : string) :
  Forall (λ l, count_char newline l = 0) (l :: ls) →
  lines (join (String newline "") (l :: ls) +:+ String newline (String newline ""))
  = (l :: ls) ++ [""; ""].
Proof.
  revert l. induction ls as [|l' ls IH]; intros l Hall.
  - apply Forall_cons_1 in Hall as [Hl _]. cbn [join]. by rewrite lines_app.
  - apply Forall_cons_1 in Hall as [Hl Hall].
    change (join (String newline "") (l :: l' :: ls))
      with (l +:+ String newline "" +:+ join (String newline "") (l' :: ls)).
    rewrite !str_app_assoc.
    change (String newline "" +:+ ?x) with (String newline x).
    rewrite lines_app by done. by rewrite IH.
Qed.

Lemma filter_nonempty (ls : list string) :
  Forall (λ l, l ≠ "") ls → base.filter (λ l, l ≠ "") ls = ls.
Proof.
  induction 1 as [|l ls Hl Hall IH]; [done|]. by rewrite filter_cons_True, IH.
Qed.

Lemma body_row_spec (headers row : list string) :
  Forall plain headers → Forall plain row →
  count_char pipe (body_row headers row) = S (Nat.max 1 (length headers))
  ∧ count_char newline (body_row headers row) = 0
  ∧ body_row headers row ≠ "".
Proof.
  intros Hh Hr. unfold body_row.
  set (padded := if bool_decide (length row < length headers)
                 then row ++ replicate (length headers - length row) "" else row).
  assert (Forall plain padded) as Hp.
  { subst padded. case_bool_decide; [|done]. apply Forall_app. split; [done|].
    by apply Forall_replicate. }
  assert (length (take (length headers) padded) = length headers) as Hlen.
  { rewrite length_take. subst padded. case_bool_decide.
    - rewrite length_app, length_replicate. lia.
    - lia. }
  destruct (row_line_spec (take (length headers) padded)) as (H1 & H2 & H3).
  { by apply Forall_take. }
  by rewrite Hlen in H1.
Qed.

End TableFacts.

(** X25.  A rendered table is rectangular whatever its cells contain: the
    text has one row line for every row of the table and one for the
    separator, and every one of them has the same number of cell
    delimiters, that of a row with as many cells as the first row (of one
    cell, when the first row is empty).  Line breaks and bars inside a
    cell never add a line or a cell; short rows are padded and long rows
    cut to the width of the first.  An empty table renders as the empty
    text. *)
Theorem rendered_table_is_rectangular (table_data : list (list (option string))) :
  let text := Table.table_to_markdown table_data in
  let width := length (default [] (head table_data)) in
  (table_data = [] → text = "")
  ∧ (table_data ≠ [] →
     length (Table.rows text) = S (length table_data)
     ∧ Forall (λ line, Table.count_char Table.pipe line = S (Nat.max 1 width))
              (Table.rows text)).
Proof.
  cbn zeta. split; [by intros ->|]. intros Hne.
  destruct table_data as [|first rest]; [done|]. clear Hne.
  unfold Table.table_to_markdown. cbn zeta. rewrite fmap_cons. cbn [head default].
  set (headers := Table.clean_cell <$> first).
  assert (length headers = length first) as Hw by apply length_fmap.
  assert (Forall Table.plain headers) as Hh.
  { apply Forall_fmap, Forall_forall. intros cell _. apply clean_cell_plain. }
  destruct (row_line_spec headers Hh) as (Hh1 & Hh2 & Hh3).
  destruct (row_line_spec (replicate (length headers) "---")) as (Hs1 & Hs2 & Hs3).
  { by apply Forall_replicate. }
  rewrite length_replicate in Hs1.
  set (body := Table.body_row headers
                <$> ((λ row : list (option string), Table.clean_cell <$> row) <$> rest)).
  assert (Forall (λ l, Table.count_char Table.pipe l = S (Nat.max 1 (length headers))
                       ∧ Table.count_char Table.newline l = 0 ∧ l ≠ "") body) as Hbody.
  { subst body. apply Forall_fmap, Forall_fmap, Forall_forall. intros row _. cbn.
    apply body_row_spec; [done|].
    apply Forall_fmap, Forall_forall. intros cell _. apply clean_cell_plain. }
  assert (length body = length rest) as Hlen by (subst body; by rewrite !length_fmap).
  unfold Table.rows. cbn [Table.lines].
  change (Ascii.eqb Table.newline Table.newline) with true. cbv iota.
  rewrite !lines_app by done.
  assert (base.filter (λ l, l ≠ "")
            (Table.lines (Table.join (String Table.newline "") body
                          +:+ String Table.newline (String Table.newline "")))
          = body) as Hrest.
  { destruct body as [|l ls].
    - done.
    - rewrite lines_join.
      + rewrite filter_app, filter_nonempty.
        * rewrite !filter_cons, filter_nil. repeat case_decide; try done.
          by rewrite app_nil_r.
        * eapply Forall_impl; [exact Hbody|]. by intros x (_ & _ & Hx).
      + eapply Forall_impl; [exact Hbody|]. by intros x (_ & Hx & _). }
  rewrite !filter_cons. repeat case_decide; try done.
  rewrite Hrest. change (id first) with first. cbn [length]. rewrite Hlen, <- Hw. split; [done|].
  repeat constructor; [done..|].
  eapply Forall_impl; [exact Hbody|]. by intros x (Hx & _ & _).
Qed.

Example rendered_table_of_ragged_rows :
  Table.table_to_markdown
    [[Some "a|b"; None]; [Some ("x" +:+ String Table.newline "y")]; [Some "1"; Some "2"; Some "3"]]
  = String Table.newline (String Table.newline
      ("| a&#124;b |  |" +:+ String Table.newline
         ("| --- | --- |" +:+ String Table.newline
            ("| x<br>y |  |" +:+ String Table.newline
               ("| 1 | 2 |" +:+ String Table.newline (String Table.newline "")))))).
Proof. vm_compute. reflexivity. Qed.

(** ** From upload to scope: what the pipeline stores is what the filter asks *)

Section IntakeFacts.
Import VectorStore.
Context {E : Type} (encode : string → E).

Lemma put_rows_lookup_row (rows : list (Row (E:=E))) : ∀ coll k s,
  k ∈ rows.*1 → put_rows rows coll !! k = Some s → (k, s) ∈ rows.
Proof.
  induction rows as [|[k' s'] rows IH]; intros coll k s Hin Hk.
  - by apply elem_of_nil in Hin.
  - change (put_rows ((k', s') :: rows) coll) with (put_rows rows (<[k':=s']> coll)) in Hk.
    destruct (decide (k ∈ rows.*1)) as [Hin'|Hnot].
    + right. by eapply IH.
    + rewrite put_rows_lookup_other in Hk by done.
      cbn in Hin. apply elem_of_cons in Hin as [->|Hin]; [|done].
      rewrite lookup_insert_eq in Hk. injection Hk as ->. by left.
Qed.

Lemma stored_string_entry (pm : gmap string string) (c : IndexableChunk) (key v : string) :
  key ≠ "is_child" → key ≠ "full_context" →
  metadata c !! key = Some (MStr v) →
  Intake.string_entries (clean_meta (fused_meta pm c)) !! key = Some v.
Proof.
  intros H1 H2 Hc. unfold Intake.string_entries, clean_meta.
  rewrite lookup_omap, lookup_fmap.
  assert (fused_meta pm c !! key = Some (MStr v)) as ->; [|done].
  unfold fused_meta.
  destruct (Py.truthy_get (parent_id c)) as [pid|]; [destruct (pm !! pid)|];
    by rewrite !lookup_insert_ne.
Qed.

End IntakeFacts.

Lemma scope_of_file_list (m : gmap string string) (name : string) (cfg : Rag.FilterConfig) :
  m !! "source_file" = Some name →
  name ∈ default [] (Rag.files cfg) →
  Scoping.passes cfg m.
Proof.
  intros Hm Hin. unfold Scoping.passes, Rag.build_filter, Rag.build_conditions.
  destruct (Rag.files cfg) as [[|f fs]|]; cbn in Hin; [by apply elem_of_nil in Hin| |
    by apply elem_of_nil in Hin].
  cbn. rewrite Hm. by apply bool_decide_eq_true_2.
Qed.

Lemma scope_of_project_and_type (m : gmap string string) (project tag : string)
    (cfg : Rag.FilterConfig) :
  m !! "project_name" = Some project → m !! "category" = Some tag →
  Rag.files cfg = None ∨ Rag.files cfg = Some [] →
  Rag.project cfg = Rag.ScopeStr project
  ∨ (∃ l, Rag.project cfg = Rag.ScopeList l ∧ project ∈ l) →
  Rag.type_ cfg = Some tag →
  Scoping.passes cfg m.
Proof.
  intros Hp Ht Hfiles Hproject Htype.
  assert (Forall (λ w, Rag.where_holds w m = true)
            (Rag.project_conditions (Rag.project cfg))) as H1.
  { unfold Rag.project_conditions. destruct (_ && _); [|constructor].
    destruct Hproject as [-> |(l & -> & Hl)].
    - repeat constructor. cbn. by apply bool_decide_eq_true_2.
    - case_bool_decide; repeat constructor. cbn. rewrite Hp.
      by apply bool_decide_eq_true_2. }
  assert (Forall (λ w, Rag.where_holds w m = true)
            (Rag.type_conditions (Rag.type_ cfg))) as H2.
  { unfold Rag.type_conditions. rewrite Htype.
    destruct (Py.truthy_get (Some tag)) as [t|] eqn:Hget; [|constructor].
    assert (t = tag) as ->.
    { unfold Py.truthy_get in Hget. destruct (Py.truthy tag); congruence. }
    case_bool_decide; repeat constructor. cbn. by apply bool_decide_eq_true_2. }
  assert (Forall (λ w, Rag.where_holds w m = true) (Rag.build_conditions cfg)) as Hall.
  { unfold Rag.build_conditions.
    destruct Hfiles as [-> | ->]; by apply Forall_app. }
  unfold Scoping.passes, Rag.build_filter.
  destruct (Rag.build_conditions cfg) as [|w [|w' ws]]; [done| |].
  - by apply Forall_cons_1 in Hall as [Hw _].
  - cbn [Rag.where_holds]. apply forallb_forall. intros x Hx%list_elem_of_In.
    by apply (proj1 (Forall_forall _ _) Hall).
Qed.

(** X26.  From upload to scope.  When a file is ingested under an upload
    name, a project and a type that are not empty and [add_chunks]
    returns (no batch repeats an id), every chunk the pipeline keeps and
    the vector store does not skip is stored under its id with exactly
    these three as [source_file], [project_name] and [category], whatever
    the parser and the metadata extractor had put there.  The filter of [chat_stream] therefore accepts the record for
    every configuration whose file list holds the upload name, and for
    every configuration without file list that names the project, alone or
    in a list, and the type. *)
Theorem ingested_chunks_are_in_scope {E : Type} (encode : string → E)
    (uuid5 clean splitext_root : string → string)
    (extracted : gmap string VectorStore.MetaValue) (current_file_name : string)
    (name project tag : string) (chunks : list VectorStore.IndexableChunk)
    (coll : gmap string (VectorStore.Stored E)) (k : nat) (c : VectorStore.IndexableChunk) :
  name ≠ "" → project ≠ "" → tag ≠ "" →
  let meta :=
    Intake.file_meta splitext_root extracted
      (Pipeline.display_name current_file_name (Some name)) (Some project) (Some tag) in
  let cleaned :=
    Pipeline.cleaned_chunks uuid5 clean meta current_file_name (Some name) chunks in
  cleaned !! k = Some c →
  VectorStore.skipped c = false →
  (VectorStore.add_chunks encode cleaned coll).2 = Py.Ok tt →
  ∃ s, (VectorStore.add_chunks encode cleaned coll).1 !! VectorStore.chunk_id c = Some s
    ∧ let m := Intake.string_entries (VectorStore.stored_metadata s) in
      m !! "source_file" = Some name
      ∧ m !! "project_name" = Some project
      ∧ m !! "category" = Some tag
      ∧ (∀ cfg, name ∈ default [] (Rag.files cfg) → Scoping.passes cfg m)
      ∧ (∀ cfg, Rag.files cfg = None ∨ Rag.files cfg = Some [] →
           Rag.project cfg = Rag.ScopeStr project
           ∨ (∃ l, Rag.project cfg = Rag.ScopeList l ∧ project ∈ l) →
           Rag.type_ cfg = Some tag →
           Scoping.passes cfg m).
Proof.
  intros Hname Hproject Htag. cbn zeta. intros Hk Hskip Hret.
  apply add_chunks_written in Hret. rewrite Hret. clear Hret.
  set (meta := Intake.file_meta _ _ _ _ _) in *.
  set (cleaned := Pipeline.cleaned_chunks _ _ _ _ _ _) in *.
  assert (meta !! "project_name" = Some (VectorStore.MStr project)
          ∧ meta !! "category" = Some (VectorStore.MStr tag)) as [Hmp Hmc].
  { subst meta. unfold Intake.file_meta, Py.truthy_get, Py.truthy.
    rewrite !bool_decide_eq_false_2 by done. cbn [negb]. split.
    - rewrite lookup_insert_ne by done. apply lookup_insert_eq.
    - apply lookup_insert_eq. }
  clearbody meta.
  assert (∀ c', c' ∈ cleaned →
            VectorStore.metadata c' !! "source_file" = Some (VectorStore.MStr name)
            ∧ VectorStore.metadata c' !! "project_name" = Some (VectorStore.MStr project)
            ∧ VectorStore.metadata c' !! "category" = Some (VectorStore.MStr tag)) as Hfields.
  { intros c' (k' & Hk')%list_elem_of_lookup_1.
    apply clean_from_spec in Hk' as (i & chunk & _ & _ & Hprep & _).
    unfold Pipeline.prepare in Hprep. destruct (_ || _); [|done].
    injection Hprep as <-. cbn [VectorStore.metadata].
    unfold Py.truthy_get, Py.truthy. rewrite bool_decide_eq_false_2 by done. cbn [negb].
    rewrite Hmp, Hmc. cbn [default].
    split_and!.
    - rewrite !lookup_insert_ne by done. apply lookup_insert_eq.
    - rewrite !lookup_insert_ne by done. apply lookup_insert_eq.
    - rewrite lookup_insert_ne by done. apply lookup_insert_eq. }
  assert (VectorStore.chunk_id c ∈ (VectorStore.rows_of encode cleaned).*1) as Hid.
  { rewrite rows_of_ids. apply list_elem_of_fmap. exists c. split; [done|].
    apply list_elem_of_filter. split; [done|]. by eapply list_elem_of_lookup_2. }
  assert (is_Some (VectorStore.put_rows (VectorStore.rows_of encode cleaned) coll
                   !! VectorStore.chunk_id c)) as [s Hs].
  { apply elem_of_dom. rewrite put_rows_dom.
    apply elem_of_union_l, elem_of_list_to_set. exact Hid. }
  exists s. split; [done|]. cbn zeta.
  apply put_rows_lookup_row in Hs; [|done].
  unfold VectorStore.rows_of in Hs. apply list_elem_of_omap in Hs as (c' & Hc' & Hrow).
  destruct (VectorStore.skipped c'); [done|]. injection Hrow as _ <-.
  cbn [VectorStore.stored_metadata].
  destruct (Hfields c' Hc') as (F1 & F2 & F3).
  assert (∀ key v, key ≠ "is_child" → key ≠ "full_context" →
            VectorStore.metadata c' !! key = Some (VectorStore.MStr v) →
            Intake.string_entries
              (VectorStore.clean_meta
                 (VectorStore.fused_meta (VectorStore.parent_map cleaned) c')) !! key
            = Some v) as Hentry by (intros; by apply stored_string_entry).
  pose proof (Hentry "source_file" name ltac:(done) ltac:(done) F1) as M1.
  pose proof (Hentry "project_name" project ltac:(done) ltac:(done) F2) as M2.
  pose proof (Hentry "category" tag ltac:(done) ltac:(done) F3) as M3.
  split_and!; [done..| |].
  - intros cfg Hin. by eapply scope_of_file_list.
  - intros cfg Hf Hp Ht. by eapply scope_of_project_and_type.
Qed.

Lemma ingested_chunks_are_in_scope_witness :
  let meta :=
    Intake.file_meta (λ s, s) ∅ (Pipeline.display_name "upload.tmp" (Some "tender.docx"))
      (Some "P1") (Some "tender") in
  let cleaned :=
    Pipeline.cleaned_chunks scenario_uuid5 (λ s, s) meta "upload.tmp" (Some "tender.docx")
      parsed_chunks in
  ∃ c s, cleaned !! 1 = Some c
    ∧ (VectorStore.add_chunks String.length cleaned ∅).1 !! VectorStore.chunk_id c = Some s
    ∧ Scoping.passes (Rag.mkConfig None (Rag.ScopeList ["P0"; "P1"]) (Some "tender") None)
        (Intake.string_entries (VectorStore.stored_metadata s)).
Proof.
  cbn zeta.
  destruct (ingested_chunks_are_in_scope String.length scenario_uuid5 (λ s, s) (λ s, s) ∅
              "upload.tmp" "tender.docx" "P1" "tender" parsed_chunks ∅ 1
              (VectorStore.mkChunk "Four excavators."
                 {[ "type" := VectorStore.MStr "text";
                    "source_file" := VectorStore.MStr "tender.docx";
                    "project_name" := VectorStore.MStr "P1";
                    "category" := VectorStore.MStr "tender";
                    "chunk_id" := VectorStore.MStr "uuid-tender.docx_2" ]}
                 "u-3" None false))
    as (s & Hs & _ & _ & _ & _ & Hscope); [done|done|done|vm_compute; reflexivity|
                                           vm_compute; reflexivity|vm_compute; reflexivity|].
  eexists _, s. split_and!; [vm_compute; reflexivity|exact Hs|].
  apply Hscope; [by left| |done].
  right. exists ["P0"; "P1"]. split; [done|]. set_solver.
Defined.
